(** * Vibrational-Gravity-Theory: the leapfrog wave engines and their diagnostics

  A shallow embedding of [simulations/wave_1d.py], [simulations/wave_2d.py],
  the stability / decay part and the spectral helpers of
  [analysis/dispersion.py], and the two callers [test_quick_simulation] of
  [test_repository.py] and [demo_interference] of [examples/complete_demo.py].

  - Scalars.  The Python code computes with binary64 floats.  The engines
    are embedded over an abstract scalar type [F] carrying exactly the
    operations the code uses (class [Scalar]); no algebraic law is assumed,
    so every theorem stated for an arbitrary [Scalar] holds for IEEE
    arithmetic as well as for exact arithmetic.  Two instances are given:
    [binary64] (Rocq's primitive floats, executable) and [R_scalar] (the
    real numbers, where rounding is idealised away and order and field
    reasoning is available).
  - Powers.  The code squares in two ways.  [a ** 2] on a NumPy array is
    the element-wise product [a * a] ([sq]).  [x ** 2] on a Python float
    ([self.dx ** 2], [self.dt ** 2], [self.c ** 2], [self.omega0 ** 2],
    [width ** 2]) is the C library's [pow(x, 2.0)], which CPython turns into
    [OverflowError] when the result is out of range and which need not
    round as [x * x] does: it is a primitive of its own (class [FloatPow]),
    whose result is [Ok] or an exception.  Over the reals, and wherever a
    statement is about the bookkeeping of a run and not about its numbers,
    the instance [exact_pow2] is used, in which the power is the product
    and never fails.
  - NumPy / SciPy.  [np.exp], [np.sum] are library primitives (class
    [NumPy]); [np.linspace], [np.gradient], [np.max], slicing and
    broadcasting are modelled after NumPy's documented behaviour;
    [scipy.optimize.curve_fit], [scipy.fft.fft] and [scipy.fft.fft2] are
    oracles.
  - Effects.  Methods mutate [self]; they are embedded in state-passing
    style, and Python exceptions are values of [result]. *)

From Stdlib Require Import ZArith List Lia Reals Lra String Floats.
From stdpp Require Import base list list_numbers strings gmap pretty.

#[local] Open Scope Z_scope.
#[local] Open Scope list_scope.

(** ** Python exceptions *)

Inductive PyError : Type :=
| ZeroDivisionError
| IndexError
| TypeError
| RuntimeError
| OverflowError
| ValueError (msg : string).

Inductive result (A : Type) : Type :=
| Ok (a : A)
| Raise (e : PyError).
Arguments Ok {A} a.
Arguments Raise {A} e.

#[export] Instance result_ret : MRet result := λ A a, Ok a.
#[export] Instance result_bind : MBind result :=
  λ A B f m, match m with Ok a => f a | Raise e => Raise e end.
#[export] Instance result_fmap : FMap result :=
  λ A B f m, match m with Ok a => Ok (f a) | Raise e => Raise e end.

Definition is_ok {A} (m : result A) : bool :=
  match m with Ok _ => true | Raise _ => false end.

(** A Python [for] loop whose body may raise: the loop state is threaded
    through the iterations and the first exception aborts the loop. *)
Fixpoint for_each {St A : Type} (body : St → A → result St) (st : St)
    (xs : list A) : result St :=
  match xs with
  | [] => Ok st
  | a :: xs' => st' ← body st a; for_each body st' xs'
  end.

(** Python's [a % b] on integers: [ZeroDivisionError] for [b = 0], otherwise
    the remainder with the sign of the divisor, which is [Z.modulo]. *)
Definition pymod (a b : Z) : result Z :=
  if b =? 0 then Raise ZeroDivisionError else Ok (a `mod` b).

(** The test of the save stride, [t % save_every == 0], where it is defined. *)
Definition saved (save_every t : Z) : bool := t `mod` save_every =? 0.

(** Python's index normalisation for a sequence of length [n]. *)
Definition py_index (n : nat) (i : Z) : option nat :=
  if (0 <=? i) && (i <? Z.of_nat n) then Some (Z.to_nat i)
  else if (- Z.of_nat n <=? i) && (i <? 0) then Some (Z.to_nat (Z.of_nat n + i))
  else None.

Definition getitem {A} (a : list A) (i : Z) : result A :=
  match py_index (length a) i ≫= (a !!.) with
  | Some v => Ok v
  | None => Raise IndexError
  end.

Definition setitem {A} (a : list A) (i : Z) (v : A) : result (list A) :=
  match py_index (length a) i with
  | Some k => Ok (<[k := v]> a)
  | None => Raise IndexError
  end.

(** ** Scalars *)

Class Scalar (F : Type) : Type := {
  of_int : Z → F;
  fadd : F → F → F;
  fsub : F → F → F;
  fmul : F → F → F;
  fdiv : F → F → F;
  fneg : F → F;
  fabs : F → F;
  fmax : F → F → F;
  fltb : F → F → bool;
  fis0 : F → bool;
  fsqrt : F → F
}.

Declare Scope py_scope.
Delimit Scope py_scope with py.
Infix "⊕" := fadd (at level 50, left associativity) : py_scope.
Infix "⊖" := fsub (at level 50, left associativity) : py_scope.
Infix "⊗" := fmul (at level 40, left associativity) : py_scope.
Infix "⊘" := fdiv (at level 40, left associativity) : py_scope.
#[local] Open Scope py_scope.

(** The library primitives that are not arithmetic. *)
Class NumPy (F : Type) : Type := {
  np_exp : F → F;
  np_sum : list F → F;
  np_pi : F
}.

(** Python's [x ** 2] on a float: the value of [pow(x, 2.0)], or the
    exception it raises ([OverflowError] when the result is out of range). *)
Class FloatPow (F : Type) : Type := {
  pow2 : F → result F
}.

(** Exact arithmetic: the power is the product, and it is always defined. *)
Definition exact_pow2 {F : Type} `{!Scalar F} : FloatPow F :=
  {| pow2 x := Ok (x ⊗ x) |}.

(** The two facts about [<] the stability scan relies on.  They hold of the
    reals and of binary64 (where every comparison with a NaN is false). *)
Class StrictOrderLaws (F : Type) `{!Scalar F} : Prop := {
  fltb_irrefl : ∀ a : F, fltb a a = false;
  fltb_asym : ∀ a b : F, fltb a b = true → fltb b a = false
}.

Section Numeric.
Context {F : Type} `{!Scalar F}.

(** A decimal literal [n / 10^k]; correctly rounded division gives the
    double Python reads for it. *)
Definition decimal (n : Z) (k : nat) : F := of_int n ⊘ of_int (10 ^ Z.of_nat k).

(** [a ** 2] at one element of a NumPy array: [np.square], the product of
    the element with itself. *)
Definition sq (x : F) : F := x ⊗ x.

(** Python's float [a / b]. *)
Definition pydiv (a b : F) : result F :=
  if fis0 b then Raise ZeroDivisionError else Ok (a ⊘ b).

(** Python's [float / int]. *)
Definition pydiv_int (a : F) (n : Z) : result F :=
  if n =? 0 then Raise ZeroDivisionError else Ok (a ⊘ of_int n).

(** Python's builtin [min(a, b)]: the first argument unless the second is
    smaller. *)
Definition pymin (a b : F) : F := if fltb b a then b else a.

(** [np.max] of a one-dimensional array. *)
Definition np_max (a : list F) : result F :=
  match a with
  | [] => Raise (ValueError "zero-size array to reduction operation maximum which has no identity")
  | v :: a' => Ok (foldl fmax v a')
  end.

(** [np.linspace(start, stop, num)] with the default [endpoint=True]. *)
Definition linspace (start stop : F) (num : Z) : result (list F) :=
  if num <? 0
  then Raise (ValueError ("Number of samples, " +:+ pretty num
                          +:+ ", must be non-negative."))
  else
    let div := num - 1 in
    let delta := stop ⊖ start in
    let y := of_int <$> seqZ 0 num in
    let y :=
      if 0 <? div then
        let step := delta ⊘ of_int div in
        if fis0 step then (λ v, v ⊘ of_int div ⊗ delta) <$> y
        else (λ v, v ⊗ step) <$> y
      else (λ v, v ⊗ delta) <$> y in
    let y := (λ v, v ⊕ start) <$> y in
    Ok (if 1 <? num then <[Z.to_nat (num - 1) := stop]> y else y).

(** [scipy.fft.fftfreq(n, d)]: the sample frequencies [m / (n * d)] for
    [m = 0, 1, ..., (n-1)//2, -(n//2), ..., -1]. *)
Definition fftfreq (n : Z) (d : F) : result (list F) :=
  val ← pydiv (of_int 1) (of_int n ⊗ d);
  let N := (n - 1) `div` 2 + 1 in
  Ok ((λ m, of_int m ⊗ val) <$> (seqZ 0 N ++ seqZ (- (n `div` 2)) (n `div` 2))).
End Numeric.

(** ** The two scalar instances *)

Definition Z2float (z : Z) : float :=
  if z <? 0 then PrimFloat.opp (PrimFloat.of_uint63 (Uint63.of_Z (- z)))
  else PrimFloat.of_uint63 (Uint63.of_Z z).

#[export] Instance binary64 : Scalar float := {|
  of_int := Z2float;
  fadd := PrimFloat.add;
  fsub := PrimFloat.sub;
  fmul := PrimFloat.mul;
  fdiv := PrimFloat.div;
  fneg := PrimFloat.opp;
  fabs := PrimFloat.abs;
  fmax a b := if PrimFloat.is_nan a then a
              else if PrimFloat.is_nan b then b
              else if PrimFloat.ltb a b then b else a;
  fltb := PrimFloat.ltb;
  fis0 a := PrimFloat.eqb a PrimFloat.zero;
  fsqrt := PrimFloat.sqrt
|}.

#[export] Instance R_scalar : Scalar R := {|
  of_int := IZR;
  fadd := Rplus;
  fsub := Rminus;
  fmul := Rmult;
  fdiv := Rdiv;
  fneg := Ropp;
  fabs := Rabs;
  fmax := Rmax;
  fltb a b := if Rlt_dec a b then true else false;
  fis0 a := if Req_dec_T a 0%R then true else false;
  fsqrt := R_sqrt.sqrt
|}.

#[export] Instance R_numpy : NumPy R := {|
  np_exp := Rtrigo_def.exp;
  np_sum := foldr Rplus 0%R;
  np_pi := PI
|}.

(** ** The 1D engine: [simulations/wave_1d.py] *)

Module Wave1D.
Section Engine.
Context {F : Type} `{!Scalar F, !NumPy F, !FloatPow F}.

Record VGTSimulation1D : Type := {
    L : F;
    Nx : Z;
    c : F;
    omega0 : F;
    dx : F;
    dt : F;
    pulse_width : F;
    x : list F;
    phi_history : list (list F);
    time_points : list F;
    max_amplitude : list F
}.

(** [__init__] *)
Definition init (L : F) (Nx : Z) (c omega0 dt_factor pulse_width : F)
  : result VGTSimulation1D :=
  dx ← pydiv_int L Nx;
  dt ← pydiv (dt_factor ⊗ dx) c;
  x ← linspace (of_int 0) L Nx;
  Ok {| L := L; Nx := Nx; c := c; omega0 := omega0; dx := dx; dt := dt;
        pulse_width := pulse_width; x := x;
        phi_history := []; time_points := []; max_amplitude := [] |}.

(** The constructor's default arguments. *)
Definition init_default : result VGTSimulation1D :=
  init (of_int 10) 400 (of_int 1) (of_int 2) (decimal 9 1) (decimal 1 1).

(** Assignments to the three storage attributes. *)
Definition with_storage (self : VGTSimulation1D) (ph : list (list F))
    (tp ma : list F) : VGTSimulation1D :=
  {| L := L self; Nx := Nx self; c := c self; omega0 := omega0 self;
     dx := dx self; dt := dt self; pulse_width := pulse_width self;
     x := x self;
     phi_history := ph; time_points := tp; max_amplitude := ma |}.

(** [self.phi_history.append(phi.copy()); self.time_points.append(t)] *)
Definition append_snapshot (self : VGTSimulation1D) (phi : list F) (t : F) :=
  with_storage self (phi_history self ++ [phi]) (time_points self ++ [t])
    (max_amplitude self).

(** [self.max_amplitude.append(m)] *)
Definition append_amplitude (self : VGTSimulation1D) (m : F) :=
  with_storage self (phi_history self) (time_points self)
    (max_amplitude self ++ [m]).

(** [gaussian_pulse(self, center=None, amplitude=1.0)] *)
Definition gaussian_pulse (self : VGTSimulation1D) (center : option F)
    (amplitude : F) : list F :=
  let center := default (L self ⊘ of_int 2) center in
  (λ xi, amplitude ⊗ np_exp (fneg (sq (xi ⊖ center)) ⊘ pulse_width self))
    <$> x self.

(** The body of the inner loop of [simulate] (lines 84-87). *)
Definition interior_update (self : VGTSimulation1D) (phi phi_prev : list F)
    (phi_next : list F) (i : Z) : result (list F) :=
  p_r ← getitem phi (i + 1);
  p_i ← getitem phi i;
  p_l ← getitem phi (i - 1);
  dx2 ← pow2 (dx self);
  let d2phi_dx2 := (p_r ⊖ of_int 2 ⊗ p_i ⊕ p_l) ⊘ dx2 in
  q_i ← getitem phi_prev i;
  dt2 ← pow2 (dt self);
  c2 ← pow2 (c self);
  w2 ← pow2 (omega0 self);
  setitem phi_next i
    (of_int 2 ⊗ p_i ⊖ q_i ⊕ dt2 ⊗ (c2 ⊗ d2phi_dx2 ⊖ w2 ⊗ p_i)).

(** One leapfrog step (lines 80-91): the field at [t + dt] from the fields
    at [t] and [t - dt]. *)
Definition advance (self : VGTSimulation1D) (phi phi_prev : list F)
  : result (list F) :=
  let phi_next := replicate (length phi) (of_int 0) in
  phi_next ← for_each (interior_update self phi phi_prev) phi_next
               (seqZ 1 (Nx self - 2));
  phi_next ← setitem phi_next 0 (of_int 0);
  setitem phi_next (-1) (of_int 0).

(** The local variables of [simulate] together with [self]. *)
Record Frame : Type := {
    obj : VGTSimulation1D;
    phi : list F;
    phi_prev : list F
}.

(** The body of the time loop (lines 80-102). *)
Definition time_step (save_every : Z) (st : Frame) (t : Z) : result Frame :=
  phi_next ← advance (obj st) (phi st) (phi_prev st);
  let phi_prev' := phi st in
  let phi' := phi_next in
  r ← pymod t save_every;
  let self' :=
    if r =? 0 then append_snapshot (obj st) phi' (of_int t ⊗ dt (obj st))
    else obj st in
  m ← np_max (fabs <$> phi');
  Ok {| obj := append_amplitude self' m; phi := phi'; phi_prev := phi_prev' |}.

(** The state in which the time loop is entered (lines 70-76). *)
Definition simulate_init (self : VGTSimulation1D) : result Frame :=
  let phi := gaussian_pulse self None (of_int 1) in
  let phi_prev := phi in
  let self := append_snapshot self phi (of_int 0) in
  m ← np_max (fabs <$> phi);
  Ok {| obj := append_amplitude self m; phi := phi; phi_prev := phi_prev |}.

(** [simulate(self, Nt=300, save_every=10)] *)
Definition simulate (self : VGTSimulation1D) (Nt save_every : Z)
  : result VGTSimulation1D :=
  st ← simulate_init self;
  st ← for_each (time_step save_every) st (seqZ 1 Nt);
  Ok (obj st).

(** The wavenumbers of [verify_dispersion] (line 111):
    [k = fftfreq(self.Nx, self.dx) * 2 * np.pi]. *)
Definition wavenumbers (self : VGTSimulation1D) : result (list F) :=
  k ← fftfreq (Nx self) (dx self);
  Ok (fmap (M:=list) (λ v, v ⊗ of_int 2 ⊗ np_pi) k).

(** [verify_dispersion(self)] (lines 106-116); [fft] is [scipy.fft.fft]. *)
Definition verify_dispersion {C : Type} (fft : list F → result (list C))
    (self : VGTSimulation1D) : result (list F * list C * list F) :=
  phi_final ← getitem (phi_history self) (-1);
  phi_fft ← fft phi_final;
  k ← wavenumbers self;
  c2 ← pow2 (c self);
  w2 ← pow2 (omega0 self);
  let omega_theory := fmap (M:=list) (λ kv, fsqrt (c2 ⊗ sq kv ⊕ w2)) k in
  Ok (k, phi_fft, omega_theory).

(** *** Notions the statements about the 1D engine use *)

(** The four powers an interior update evaluates, [dx ** 2], [dt ** 2],
    [c ** 2] and [omega0 ** 2], in the order of their evaluation. *)
Definition powers (self : VGTSimulation1D) : result (F * F * F * F) :=
  dx2 ← pow2 (dx self);
  dt2 ← pow2 (dt self);
  c2 ← pow2 (c self);
  w2 ← pow2 (omega0 self);
  Ok (dx2, dt2, c2, w2).

(** A step raises nothing: there is no interior index, or the four powers
    are defined. *)
Definition step_defined (self : VGTSimulation1D) : Prop :=
  Nx self ≤ 2 ∨ ∃ p, powers self = Ok p.

(** The value the leapfrog recurrence gives at an interior index [i], the
    four powers being [dx2], [dt2], [c2] and [w2]. *)
Definition stencil_at (dx2 dt2 c2 w2 : F) (cur prev : list F) (i : nat)
  : option F :=
  p_l ← cur !! (i - 1)%nat; p_i ← cur !! i; p_r ← cur !! (i + 1)%nat;
  q_i ← prev !! i;
  Some (of_int 2 ⊗ p_i ⊖ q_i ⊕
        dt2 ⊗ (c2 ⊗ ((p_r ⊖ of_int 2 ⊗ p_i ⊕ p_l) ⊘ dx2) ⊖ w2 ⊗ p_i)).

(** [field[0] == field[N-1] == 0] *)
Definition zero_ends (a : list F) : Prop :=
  a !! 0%nat = Some (of_int 0) ∧ a !! (length a - 1)%nat = Some (of_int 0).

(** What the constructor establishes: at least one grid point, and as many
    coordinates as grid points. *)
Definition grid_ok (self : VGTSimulation1D) : Prop :=
  1 ≤ Nx self ∧ length (x self) = Z.to_nat (Nx self).

Definition frame_ok (st : Frame) : Prop :=
  grid_ok (obj st) ∧
  length (phi st) = Z.to_nat (Nx (obj st)) ∧
  length (phi_prev st) = Z.to_nat (Nx (obj st)) ∧
  step_defined (obj st).

(** An object with the same parameters and empty storage, and an object
    with earlier entries put in front of its storage. *)
Definition clear (self : VGTSimulation1D) : VGTSimulation1D :=
  with_storage self [] [] [].

Definition prepend (ph : list (list F)) (tp ma : list F) (self : VGTSimulation1D)
  : VGTSimulation1D :=
  with_storage self (ph ++ phi_history self) (tp ++ time_points self)
    (ma ++ max_amplitude self).

Definition prepend_frame (ph : list (list F)) (tp ma : list F) (st : Frame)
  : Frame :=
  {| obj := prepend ph tp ma (obj st); phi := phi st; phi_prev := phi_prev st |}.
(** The fields [(phi, phi_prev)] the recurrence reaches in [n] steps from
    the initial pulse, with none of the bookkeeping of [simulate]. *)
Fixpoint fields_after (self : VGTSimulation1D) (n : nat)
  : result (list F * list F) :=
  match n with
  | O => let phi := gaussian_pulse self None (of_int 1) in Ok (phi, phi)
  | S n' =>
      '(phi, phi_prev) ← fields_after self n';
      phi_next ← advance self phi phi_prev;
      Ok (phi_next, phi)
  end.

End Engine.
Arguments VGTSimulation1D F : clear implicits.
Arguments Frame F : clear implicits.
End Wave1D.

(** ** NumPy arrays of rank two

    A rank-two array is its list of rows; an array of shape [(Ny, Nx)] has
    [Ny] rows of length [Nx] ([np.meshgrid]'s default indexing puts [y] on
    axis 0 and [x] on axis 1).  Element-wise operations are only ever applied
    to operands of one shape, so NumPy's broadcasting errors cannot arise. *)

Abbreviation array2 F := (list (list F)).

Definition has_shape {F} (ny nx : nat) (a : array2 F) : Prop :=
  length a = ny ∧ Forall (λ row, length row = nx) a.

(** The cell [a[i, j]], where it exists. *)
Definition cell {A} (a : list (list A)) (i j : nat) : option A := a !! i ≫= (.!! j).

(** Element-wise [f(a)] and [a op b]. *)
Definition arr_map {F} (f : F → F) (a : array2 F) : array2 F :=
  fmap (M:=list) (fmap (M:=list) f) a.
Definition arr_zip {F} (op : F → F → F) (a b : array2 F) : array2 F :=
  zip_with (zip_with op) a b.

(** Python's [a[start:stop]] with either bound possibly omitted or negative. *)
Definition clip_index (n : nat) (i : Z) : nat :=
  Z.to_nat (Z.max 0 (Z.min (Z.of_nat n) (if i <? 0 then Z.of_nat n + i else i))).

Definition slice {A} (start stop : option Z) (a : list A) : list A :=
  let n := length a in
  let lo := from_option (clip_index n) 0%nat start in
  let hi := from_option (clip_index n) n stop in
  take (hi - lo) (drop lo a).

(** [a[r0:r1, c0:c1]] *)
Definition slice2 {A} (r0 r1 c0 c1 : option Z) (a : list (list A)) : list (list A) :=
  slice c0 c1 <$> slice r0 r1 a.

(** [a[1:-1, 1:-1] = v] for [v] of the shape of the interior of [a]. *)
Definition set_interior {A} (v a : list (list A)) : list (list A) :=
  list_inserts 1 (zip_with (list_inserts 1) v (slice (Some 1) (Some (-1)) a)) a.

(** [a[i, :] = v] and [a[:, j] = v] for a scalar [v]. *)
Definition set_row {A} (a : list (list A)) (i : Z) (v : A) : result (list (list A)) :=
  match py_index (length a) i with
  | Some k => Ok (alter (fmap (M:=list) (λ _, v)) k a)
  | None => Raise IndexError
  end.

Fixpoint traverse {A B} (f : A → result B) (xs : list A) : result (list B) :=
  match xs with
  | [] => Ok []
  | a :: xs' => b ← f a; bs ← traverse f xs'; Ok (b :: bs)
  end.

Definition set_col {A} (a : list (list A)) (j : Z) (v : A) : result (list (list A)) :=
  traverse (λ row, setitem row j v) a.

Section Gradient.
Context {F : Type} `{!Scalar F}.

(** [np.gradient(f, h)] along one axis, second-order central differences in
    the interior and first-order one-sided differences at the two ends
    ([edge_order=1]).  [V] is the type of what lies along the axis: scalars
    for a row, whole rows for the columns of an array. *)
Definition gradient_along {V} (vsub : V → V → V) (vdiv : V → F → V) (h : F)
    (f : list V) : result (list V) :=
  if (length f <? 2)%nat
  then Raise (ValueError "Shape of array too small to calculate a numerical gradient, at least (edge_order + 1) elements are required.")
  else
    let out := f in
    let out :=
      list_inserts 1
        (zip_with (λ a b, vdiv (vsub a b) (of_int 2 ⊗ h))
                  (slice (Some 2) None f) (slice None (Some (-2)) f)) out in
    f1 ← getitem f 1; f0 ← getitem f 0;
    out ← setitem out 0 (vdiv (vsub f1 f0) h);
    fn1 ← getitem f (-1); fn2 ← getitem f (-2);
    setitem out (-1) (vdiv (vsub fn1 fn2) h).

(** What the documentation of [np.gradient] promises at position [i]: the
    one-sided difference at either end, the central difference in between. *)
Definition diff_along {V} (vsub : V → V → V) (vdiv : V → F → V) (h : F)
    (f : list V) (i : nat) : option V :=
  if decide (i = 0%nat) then
    a ← f !! 1%nat; b ← f !! 0%nat; Some (vdiv (vsub a b) h)
  else if decide (i = (length f - 1)%nat) then
    a ← f !! (length f - 1)%nat; b ← f !! (length f - 2)%nat;
    Some (vdiv (vsub a b) h)
  else
    a ← f !! (i + 1)%nat; b ← f !! (i - 1)%nat;
    Some (vdiv (vsub a b) (of_int 2 ⊗ h)).

(** [np.gradient(a, h, axis=1)] and [np.gradient(a, h, axis=0)] *)
Definition gradient_axis1 (a : array2 F) (h : F) : result (array2 F) :=
  traverse (gradient_along fsub fdiv h) a.

Definition gradient_axis0 (a : array2 F) (h : F) : result (array2 F) :=
  gradient_along (zip_with fsub) (λ row k, (λ v, v ⊘ k) <$> row) h a.

(** [np.meshgrid(x, y)] *)
Definition meshgrid (x y : list F) : array2 F * array2 F :=
  (replicate (length y) x, (λ yi, replicate (length x) yi) <$> y).
End Gradient.

(** ** Discrete Fourier transforms

    The transforms themselves ([scipy.fft.fft], [fft2]) and [np.abs] of their
    complex values are oracles: the functions that use them take them as
    arguments.  The frequency helpers are modelled after their
    implementation. *)

(** [scipy.fft.fftshift] along one axis: [np.roll] by [n // 2]. *)
Definition fftshift {A} (x : list A) : list A :=
  let n := length x in
  let shift := Nat.div n 2 in
  drop (n - shift) x ++ take (n - shift) x.

(** [fftshift] of a rank-two array shifts both axes. *)
Definition fftshift2 {A} (a : list (list A)) : list (list A) :=
  fftshift (fftshift <$> a).

(** [a.shape] of a rank-two array. *)
Definition shape {A} (a : list (list A)) : nat * nat :=
  (length a, length (default [] (head a))).

(** ** The 2D engine: [simulations/wave_2d.py] *)

Module Wave2D.
Section Engine.
Context {F : Type} `{!Scalar F, !NumPy F, !FloatPow F}.

Record VGTSimulation2D : Type := {
  Lx : F;
  Ly : F;
  Nx : Z;
  Ny : Z;
  c : F;
  omega0 : F;
  dx : F;
  dy : F;
  dt : F;
  x : list F;
  y : list F;
  X : array2 F;
  Y : array2 F;
  phi_history : list (array2 F);
  time_points : list F;
  energy_history : list F
}.

(** [__init__] *)
Definition init (Lx Ly : F) (Nx Ny : Z) (c omega0 dt_factor : F)
  : result VGTSimulation2D :=
  dx ← pydiv_int Lx Nx;
  dy ← pydiv_int Ly Ny;
  dt ← pydiv (dt_factor ⊗ pymin dx dy) c;
  x ← linspace (of_int 0) Lx Nx;
  y ← linspace (of_int 0) Ly Ny;
  let XY := meshgrid x y in
  Ok {| Lx := Lx; Ly := Ly; Nx := Nx; Ny := Ny; c := c; omega0 := omega0;
        dx := dx; dy := dy; dt := dt; x := x; y := y; X := XY.1; Y := XY.2;
        phi_history := []; time_points := []; energy_history := [] |}.

(** Assignments to the three storage attributes. *)
Definition with_storage (self : VGTSimulation2D) (ph : list (array2 F))
    (tp en : list F) : VGTSimulation2D :=
  {| Lx := Lx self; Ly := Ly self; Nx := Nx self; Ny := Ny self; c := c self;
     omega0 := omega0 self; dx := dx self; dy := dy self; dt := dt self;
     x := x self; y := y self; X := X self; Y := Y self;
     phi_history := ph; time_points := tp; energy_history := en |}.

(** [self.phi_history = ph] and [self.time_points = tp] *)
Definition set_phi_history (self : VGTSimulation2D) (ph : list (array2 F)) :=
  with_storage self ph (time_points self) (energy_history self).
Definition set_time_points (self : VGTSimulation2D) (tp : list F) :=
  with_storage self (phi_history self) tp (energy_history self).

(** [self.phi_history.append(phi.copy()); self.time_points.append(t)] *)
Definition append_snapshot (self : VGTSimulation2D) (phi : array2 F) (t : F) :=
  with_storage self (phi_history self ++ [phi]) (time_points self ++ [t])
    (energy_history self).

(** [self.energy_history.append(e)] *)
Definition append_energy (self : VGTSimulation2D) (e : F) :=
  with_storage self (phi_history self) (time_points self)
    (energy_history self ++ [e]).

(** [gaussian_pulse_2d(self, center=None, width=1.0, amplitude=1.0)] *)
Definition gaussian_pulse_2d (self : VGTSimulation2D) (center : option (F * F))
    (width amplitude : F) : result (array2 F) :=
  let center := default (Lx self ⊘ of_int 2, Ly self ⊘ of_int 2) center in
  let r2 := arr_zip fadd (arr_map (λ v, sq (v ⊖ center.1)) (X self))
                         (arr_map (λ v, sq (v ⊖ center.2)) (Y self)) in
  width2 ← pow2 width;
  Ok (arr_map (λ v, amplitude ⊗ np_exp (fneg v ⊘ width2)) r2).

(** [ring_pulse(self, center=None, radius=3.0, width=0.5, amplitude=1.0)] *)
Definition ring_pulse (self : VGTSimulation2D) (center : option (F * F))
    (radius width amplitude : F) : result (array2 F) :=
  let center := default (Lx self ⊘ of_int 2, Ly self ⊘ of_int 2) center in
  let r := arr_map fsqrt
             (arr_zip fadd (arr_map (λ v, sq (v ⊖ center.1)) (X self))
                           (arr_map (λ v, sq (v ⊖ center.2)) (Y self))) in
  width2 ← pow2 width;
  Ok (arr_map (λ v, amplitude ⊗ np_exp (fneg (sq (v ⊖ radius)) ⊘ width2)) r).

(** [laplacian_2d(self, phi)] *)
Definition laplacian_2d (self : VGTSimulation2D) (phi : array2 F)
  : result (array2 F) :=
  let laplacian := arr_map (λ _, of_int 0) phi in
  let mid := slice2 (Some 1) (Some (-1)) (Some 1) (Some (-1)) phi in
  let twice_mid := arr_map (λ v, of_int 2 ⊗ v) mid in
  let along_x :=
    arr_zip fadd
      (arr_zip fsub (slice2 (Some 1) (Some (-1)) (Some 2) None phi) twice_mid)
      (slice2 (Some 1) (Some (-1)) None (Some (-2)) phi) in
  dx2 ← pow2 (dx self);
  let along_y :=
    arr_zip fadd
      (arr_zip fsub (slice2 (Some 2) None (Some 1) (Some (-1)) phi) twice_mid)
      (slice2 None (Some (-2)) (Some 1) (Some (-1)) phi) in
  dy2 ← pow2 (dy self);
  Ok (set_interior
        (arr_zip fadd (arr_map (λ v, v ⊘ dx2) along_x)
                      (arr_map (λ v, v ⊘ dy2) along_y))
        laplacian).

(** One leapfrog step (lines 114-126). *)
Definition advance (self : VGTSimulation2D) (phi phi_prev : array2 F)
  : result (array2 F) :=
  laplacian ← laplacian_2d self phi;
  dt2 ← pow2 (dt self);
  c2 ← pow2 (c self);
  w2 ← pow2 (omega0 self);
  let phi_next :=
    arr_zip fadd
      (arr_zip fsub (arr_map (λ v, of_int 2 ⊗ v) phi) phi_prev)
      (arr_map (λ v, dt2 ⊗ v)
         (arr_zip fsub (arr_map (λ v, c2 ⊗ v) laplacian)
                       (arr_map (λ v, w2 ⊗ v) phi))) in
  phi_next ← set_row phi_next 0 (of_int 0);
  phi_next ← set_row phi_next (-1) (of_int 0);
  phi_next ← set_col phi_next 0 (of_int 0);
  set_col phi_next (-1) (of_int 0).

(** [compute_energy(self, phi, phi_prev)] *)
Definition compute_energy (self : VGTSimulation2D) (phi phi_prev : array2 F)
  : result F :=
  let dphi_dt := arr_map (λ v, v ⊘ dt self) (arr_zip fsub phi phi_prev) in
  let kinetic :=
    decimal 5 1 ⊗ np_sum (concat (arr_map sq dphi_dt)) ⊗ dx self ⊗ dy self in
  grad_x ← gradient_axis1 phi (dx self);
  grad_y ← gradient_axis0 phi (dy self);
  w2 ← pow2 (omega0 self);
  let potential :=
    decimal 5 1 ⊗
    np_sum (concat
      (arr_zip fadd (arr_zip fadd (arr_map sq grad_x) (arr_map sq grad_y))
                    (arr_map (λ v, w2 ⊗ v) (arr_map sq phi))))
    ⊗ dx self ⊗ dy self in
  Ok (kinetic ⊕ potential).

(** The local variables of [simulate] together with [self]. *)
Record Frame : Type := {
  obj : VGTSimulation2D;
  phi : array2 F;
  phi_prev : array2 F
}.

(** The body of the time loop (lines 114-136). *)
Definition time_step (save_every : Z) (st : Frame) (t : Z) : result Frame :=
  phi_next ← advance (obj st) (phi st) (phi_prev st);
  let phi_prev' := phi st in
  let phi' := phi_next in
  r ← pymod t save_every;
  if r =? 0 then
    let self' := append_snapshot (obj st) phi' (of_int t ⊗ dt (obj st)) in
    e ← compute_energy self' phi' phi_prev';
    Ok {| obj := append_energy self' e; phi := phi'; phi_prev := phi_prev' |}
  else Ok {| obj := obj st; phi := phi'; phi_prev := phi_prev' |}.

(** The choice of the initial field (lines 98-103). *)
Definition initial_field (self : VGTSimulation2D) (initial_type : string)
  : result (array2 F) :=
  if String.eqb initial_type "gaussian"
  then gaussian_pulse_2d self None (of_int 1) (of_int 1)
  else if String.eqb initial_type "ring"
  then ring_pulse self None (of_int 3) (decimal 5 1) (of_int 1)
  else Raise (ValueError "Unknown initial_type").

(** The state in which the time loop is entered (lines 98-110). *)
Definition simulate_init (self : VGTSimulation2D) (initial_type : string)
  : result Frame :=
  phi ← initial_field self initial_type;
  let phi_prev := phi in
  let self := append_snapshot self phi (of_int 0) in
  e ← compute_energy self phi phi_prev;
  Ok {| obj := append_energy self e; phi := phi; phi_prev := phi_prev |}.

(** [simulate(self, Nt=200, save_every=10, initial_type='gaussian')] *)
Definition simulate (self : VGTSimulation2D) (Nt save_every : Z)
    (initial_type : string) : result VGTSimulation2D :=
  st ← simulate_init self initial_type;
  st ← for_each (time_step save_every) st (seqZ 1 Nt);
  Ok (obj st).

(** [demonstrate_interference()], up to the plotting of its last lines. *)
Definition interference_sources (sim : VGTSimulation2D) : result (array2 F) :=
  phi1 ← gaussian_pulse_2d sim (Some (of_int 10, of_int 15)) (of_int 1)
           (decimal 7 1);
  phi2 ← gaussian_pulse_2d sim (Some (of_int 20, of_int 15)) (of_int 1)
           (decimal 7 1);
  Ok (arr_zip fadd phi1 phi2).

Definition demonstrate_interference : result VGTSimulation2D :=
  sim ← init (of_int 30) (of_int 30) 300 300 (of_int 1) (decimal 15 1)
          (decimal 5 1);
  sources ← interference_sources sim;
  let sim := set_phi_history sim [sources] in
  let sim := set_time_points sim [of_int 0] in
  simulate sim 150 5 "gaussian".

(** *** Notions the statements about the 2D engine use *)

(** All four edges of an array of shape [(ny, nx)] are zero. *)
Definition zero_edges (ny nx : nat) (a : array2 F) : Prop :=
  ∀ i j, (i < ny)%nat → (j < nx)%nat →
    i = 0%nat ∨ i = (ny - 1)%nat ∨ j = 0%nat ∨ j = (nx - 1)%nat →
    cell a i j = Some (of_int 0).

(** Grids on which a run goes through: the meshes have the grid shape, and
    both axes have the two points [np.gradient] needs. *)
Definition grid_ok (self : VGTSimulation2D) : Prop :=
  2 ≤ Nx self ∧ 2 ≤ Ny self ∧
  has_shape (Z.to_nat (Ny self)) (Z.to_nat (Nx self)) (X self) ∧
  has_shape (Z.to_nat (Ny self)) (Z.to_nat (Nx self)) (Y self).

(** The five powers a step evaluates, [dx ** 2] and [dy ** 2] in the
    Laplacian, then [dt ** 2], [c ** 2] and [omega0 ** 2], in the order of
    their evaluation. *)
Definition powers (self : VGTSimulation2D) : result (F * F * F * F * F) :=
  dx2 ← pow2 (dx self);
  dy2 ← pow2 (dy self);
  dt2 ← pow2 (dt self);
  c2 ← pow2 (c self);
  w2 ← pow2 (omega0 self);
  Ok (dx2, dy2, dt2, c2, w2).

Definition frame_ok (st : Frame) : Prop :=
  grid_ok (obj st) ∧
  has_shape (Z.to_nat (Ny (obj st))) (Z.to_nat (Nx (obj st))) (phi st) ∧
  has_shape (Z.to_nat (Ny (obj st))) (Z.to_nat (Nx (obj st))) (phi_prev st) ∧
  ∃ p, powers (obj st) = Ok p.

Definition clear (self : VGTSimulation2D) : VGTSimulation2D :=
  with_storage self [] [] [].

Definition prepend (ph : list (array2 F)) (tp en : list F) (self : VGTSimulation2D)
  : VGTSimulation2D :=
  with_storage self (ph ++ phi_history self) (tp ++ time_points self)
    (en ++ energy_history self).

Definition prepend_frame (ph : list (array2 F)) (tp en : list F) (st : Frame)
  : Frame :=
  {| obj := prepend ph tp en (obj st); phi := phi st; phi_prev := phi_prev st |}.

(** [e] is the energy computed from the snapshot [phi] (and the field one
    step before it). *)
Definition energy_of (self : VGTSimulation2D) (e : F) (phi : array2 F) : Prop :=
  ∃ prev, compute_energy self phi prev = Ok e.

(** *** The energy functional as the specification writes it

    [w2] stands for [ω₀²]. *)

(** The field value at cell [(i, j)]. *)
Definition at2 (a : array2 F) (i j : nat) : F := default (of_int 0) (cell a i j).

(** The difference quotient of [n] samples [f 0, ..., f (n-1)] of spacing [h]
    at position [i]: centered in the interior, one-sided at the two ends. *)
Definition difference_quotient (h : F) (n : nat) (f : nat → F) (i : nat) : F :=
  if decide (i = 0%nat) then (f 1%nat ⊖ f 0%nat) ⊘ h
  else if decide (i = (n - 1)%nat) then (f (n - 1)%nat ⊖ f (n - 2)%nat) ⊘ h
  else (f (i + 1)%nat ⊖ f (i - 1)%nat) ⊘ (of_int 2 ⊗ h).

(** The sum of [g i j] over the cells of the grid, in row-major order. *)
Definition sum_cells (ny nx : nat) (g : nat → nat → F) : F :=
  np_sum (concat ((λ i, g i <$> seq 0 nx) <$> seq 0 ny)).

Definition energy_spec (self : VGTSimulation2D) (w2 : F) (ny nx : nat)
    (cur prev : array2 F) : F :=
  let gradient_x i j := difference_quotient (dx self) nx (λ k, at2 cur i k) j in
  let gradient_y i j := difference_quotient (dy self) ny (λ k, at2 cur k j) i in
  let kinetic :=
    decimal 5 1 ⊗
    sum_cells ny nx (λ i j, sq ((at2 cur i j ⊖ at2 prev i j) ⊘ dt self))
    ⊗ dx self ⊗ dy self in
  let potential :=
    decimal 5 1 ⊗
    sum_cells ny nx (λ i j, sq (gradient_x i j) ⊕ sq (gradient_y i j)
                            ⊕ w2 ⊗ sq (at2 cur i j))
    ⊗ dx self ⊗ dy self in
  kinetic ⊕ potential.
(** The fields [(phi, phi_prev)] the recurrence reaches in [n] steps from
    the initial field, with none of the bookkeeping of [simulate]. *)
Fixpoint fields_after (self : VGTSimulation2D) (initial_type : string) (n : nat)
  : result (array2 F * array2 F) :=
  match n with
  | O => phi ← initial_field self initial_type; Ok (phi, phi)
  | S n' =>
      '(phi, phi_prev) ← fields_after self initial_type n';
      phi_next ← advance self phi phi_prev;
      Ok (phi_next, phi)
  end.

End Engine.
Arguments VGTSimulation2D F : clear implicits.
Arguments Frame F : clear implicits.
End Wave2D.

(** ** The analyzer: [analysis/dispersion.py], [analyze_stability]

    What [analyze_stability] draws is embedded as data: the list of
    [ax.plot] calls of a panel.  Colours, axis labels and legends are left
    out, and so is the fourth panel, which plots constants and reads no
    data. *)

Module Dispersion.

(** The values a simulation-data dictionary holds: Python floats and NumPy
    arrays of rank one. *)
Inductive PyValue (F : Type) : Type :=
| PyFloat (v : F)
| PyArray (a : list F).
Arguments PyFloat {F} v.
Arguments PyArray {F} a.

(** Legend labels: a fixed text, or the f-string ['Fit: τ = {popt[1]:.2f}']. *)
Inductive Label (F : Type) : Type :=
| Text (s : string)
| FitTau (tau : F).
Arguments Text {F} s.
Arguments FitTau {F} tau.

(** [ax.plot(xs, ys, fmt, label=...)] *)
Record Artist (F : Type) : Type := Plot {
  xdata : list F;
  ydata : list F;
  fmt : string;
  label : Label F
}.
Arguments Plot {F} xdata ydata fmt label.

Section Analyzer.
Context {F : Type} `{!Scalar F, !NumPy F}.

(** [scipy.optimize.curve_fit(f, xdata, ydata, p0)]: the fitted parameters,
    or the exception it raises ([RuntimeError] when the least-squares
    iteration does not converge). *)
Variable curve_fit :
  (F → F → F → F → F) → list F → list F → F * F * F → result (F * F * F).

(** [float(a)] of a NumPy array [a] of rank one.  It raises [TypeError]
    unless [a] has exactly one element, and what it does with one element
    depends on the release of NumPy (the element, with a deprecation
    warning, or [TypeError]). *)
Variable float_of_array : list F → result F.

(** What the loop of lines 237-253 draws in the frequency panel, given the
    data and the spacing [dx]: the body of that loop is one [try] whose
    [except] skips the snapshot, so the loop itself raises nothing. *)
Variable frequency_curves : gmap string (PyValue F) → F → list (Artist F).

(** [1.0 / np.sqrt(2)], the 2D stability limit. *)
Definition stability_limit : F := of_int 1 ⊘ fsqrt (of_int 2).

(** Lines 174-175: [stable = dt_f < 1.0 / np.sqrt(2)], recorded as 1 or 0. *)
Definition classify (dt_f : F) : Z :=
  let stable := fltb dt_f stability_limit in
  if stable then 1 else 0.

(** Lines 169-175: the scanned factors and their classification. *)
Definition cfl_scan : result (list F * list Z) :=
  dt_factors ← linspace (decimal 1 1) (of_int 2) 20;
  Ok (dt_factors, foldl (λ stability dt_f, stability ++ [classify dt_f]) [] dt_factors).

(** [exp_decay(t, A, tau, offset)] *)
Definition exp_decay (t A tau offset : F) : F :=
  A ⊗ np_exp (fneg t ⊘ tau) ⊕ offset.

(** [float(v)] *)
Definition to_float (v : PyValue F) : result F :=
  match v with
  | PyFloat v => Ok v
  | PyArray a => float_of_array a
  end.

(** Lines 191-198: the amplitude series and its time axis. *)
Definition amplitude_series (data : gmap string (PyValue F)) (ma : PyValue F)
  : result (list F * list F) :=
  match ma with
  | PyArray amp =>
      dt ← match data !! "dt" with
           | Some v => to_float v
           | None => Ok (decimal 1 2)
           end;
      Ok (amp, (λ k, of_int k ⊗ dt) <$> seqZ 0 (Z.of_nat (length amp)))
  | PyFloat v => Ok ([v], [of_int 0])
  end.

(** Lines 204-210, the [try] block up to the point where it can no longer
    fail: the initial guess and the fit. *)
Definition fit_decay (time amp : list F) : result (F * F * F) :=
  a0 ← getitem amp 0;
  tn ← getitem time (-1);
  an ← getitem amp (-1);
  curve_fit exp_decay time amp (a0, tn ⊘ of_int 2, an).

(** Lines 204-212: [try: ... except: ...]. *)
Definition plot_decay (time amp : list F) : list (Artist F) :=
  match fit_decay time amp with
  | Ok (A, tau, offset) =>
      [ Plot time amp "b." (Text "Simulation");
        Plot time ((λ t, exp_decay t A tau offset) <$> time) "r-" (FitTau tau) ]
  | Raise _ =>
      [ Plot time amp "b-" (Text "Simulation") ]
  end.

(** Lines 188-218: the amplitude-decay panel. *)
Definition amplitude_panel (data : gmap string (PyValue F))
  : result (list (Artist F)) :=
  match data !! "max_amplitude" with
  | Some ma =>
      '(amp, time) ← amplitude_series data ma;
      Ok (plot_decay time amp)
  | None => Ok []
  end.

(** Lines 220-264: the frequency-content panel, drawn when the data has the
    key ['phi_history'].  A Python float has neither [shape] nor [len]; an
    array of rank one counts as one snapshot, so the branch for no snapshot
    is not taken; [float(self.data['dx'])] is evaluated outside any [try]. *)
Definition frequency_content (data : gmap string (PyValue F))
  : result (list (Artist F)) :=
  match data !! "phi_history" with
  | None => Ok []
  | Some (PyFloat _) => Raise TypeError
  | Some (PyArray _) =>
      dx ← match data !! "dx" with
           | Some v => to_float v
           | None => Ok (decimal 1 1)
           end;
      Ok (frequency_curves data dx)
  end.

(** The figure [analyze_stability] returns. *)
Record Figure : Type := {
  cfl_panel : list F * list Z;
  decay_panel : list (Artist F);
  frequency_panel : list (Artist F)
}.

(** [analyze_stability(self)]; [data] is [self.data], which is [None] when
    the analyzer was constructed without data. *)
Definition analyze_stability (data : option (gmap string (PyValue F)))
  : result Figure :=
  cfl ← cfl_scan;
  data ← match data with Some d => Ok d | None => Raise TypeError end;
  decay ← amplitude_panel data;
  frequency ← frequency_content data;
  Ok {| cfl_panel := cfl; decay_panel := decay; frequency_panel := frequency |}.
End Analyzer.
Section Spectra.
Context {F : Type} `{!Scalar F, !NumPy F, !FloatPow F} {C : Type}.

(** [np.abs] of a complex number. *)
Variable cabs : C → F.

(** [verify_1d_dispersion(self, phi_data, dx, c, omega0)] (lines 32-45);
    [fft] is [scipy.fft.fft]. *)
Definition verify_1d_dispersion (fft : list F → result (list C))
    (phi_data : list F) (dx c omega0 : F) : result (list F * list F * list F) :=
  phi_fft ← fft phi_data;
  k ← fftfreq (Z.of_nat (length phi_data)) dx;
  let k := fmap (M:=list) (λ v, v ⊗ of_int 2 ⊗ np_pi) k in
  let half := Some (Z.of_nat (length k) `div` 2) in
  let k_pos := slice None half k in
  let phi_fft_pos := cabs <$> slice None half phi_fft in
  c2 ← pow2 c;
  w2 ← pow2 omega0;
  let omega_theory := fmap (M:=list) (λ kv, fsqrt (c2 ⊗ sq kv ⊕ w2)) k_pos in
  Ok (k_pos, phi_fft_pos, omega_theory).

(** [analyze_2d_spectrum(self, phi_2d, dx, dy, c, omega0)] (lines 47-61);
    [fft2] is [scipy.fft.fft2]. *)
Definition analyze_2d_spectrum (fft2 : array2 F → result (list (list C)))
    (phi_2d : array2 F) (dx dy c omega0 : F)
  : result (array2 F * array2 F * array2 F * array2 F) :=
  phi_fft ← fft2 phi_2d;
  let phi_fft := fftshift2 phi_fft in
  kx ← fftfreq (Z.of_nat (shape phi_2d).2) dx;
  let kx := fmap (M:=list) (λ v, v ⊗ of_int 2 ⊗ np_pi) (fftshift kx) in
  ky ← fftfreq (Z.of_nat (shape phi_2d).1) dy;
  let ky := fmap (M:=list) (λ v, v ⊗ of_int 2 ⊗ np_pi) (fftshift ky) in
  let KXY := meshgrid kx ky in
  let K := arr_map fsqrt (arr_zip fadd (arr_map sq KXY.1) (arr_map sq KXY.2)) in
  c2 ← pow2 c;
  w2 ← pow2 omega0;
  let omega_theory := arr_map (λ kv, fsqrt (c2 ⊗ sq kv ⊕ w2)) K in
  Ok (KXY.1, KXY.2, fmap (M:=list) (fmap (M:=list) cabs) phi_fft, omega_theory).
End Spectra.

End Dispersion.

(** ** The callers: [test_repository.py] and [examples/complete_demo.py] *)

Module TestRepository.
Section Tests.
Context {F : Type} `{!Scalar F, !NumPy F, !FloatPow F}.


End Tests.
End TestRepository.

Module CompleteDemo.
Section Demos.
Context {F : Type} `{!Scalar F, !NumPy F, !FloatPow F}.

(** One panel of the figure of [demo_interference]: the field drawn and the
    time of its title. *)
Record Panel : Type := { field : array2 F; time : F }.

(** Lines 127-131: the object and the sum of its two sources. *)
Definition two_sources (sim : Wave2D.VGTSimulation2D F) : result (array2 F) :=
  phi1 ← Wave2D.gaussian_pulse_2d sim (Some (of_int 10, of_int 15)) (of_int 1)
           (decimal 7 1);
  phi2 ← Wave2D.gaussian_pulse_2d sim (Some (of_int 20, of_int 15)) (of_int 1)
           (decimal 7 1);
  Ok (arr_zip fadd phi1 phi2).

(** [demo_interference()] (lines 123-158): the four panels it draws. *)
Definition demo_interference : result (list Panel) :=
  sim ← Wave2D.init (of_int 30) (of_int 30) 200 200 (of_int 1) (decimal 15 1)
          (decimal 5 1);
  sources ← two_sources sim;
  let sim := Wave2D.set_phi_history sim [sources] in
  let sim := Wave2D.set_time_points sim [of_int 0] in
  sim ← Wave2D.simulate sim 120 10 "gaussian";
  let n := Z.of_nat (length (Wave2D.phi_history sim)) in
  let times_to_plot := [0; n `div` 3; (2 * n) `div` 3; -1] in
  traverse (λ idx,
      phi ← getitem (Wave2D.phi_history sim) idx;
      t ← getitem (Wave2D.time_points sim) idx;
      Ok {| field := phi; time := t |})
    times_to_plot.
End Demos.
Arguments Panel F : clear implicits.
End CompleteDemo.

(** ** Concrete inputs

    The objects and data the theorems below are instantiated at.  They are
    over the reals, where the powers are exact. *)

Section RealInputs.
#[local] Open Scope R_scope.
#[local] Existing Instance exact_pow2.

(** A 1D object of five grid points with [dx = 2], [dt = 9/5], [c = 1],
    [ω₀ = 2]. *)
Definition five_point_grid : Wave1D.VGTSimulation1D R :=
  {| Wave1D.L := 10; Wave1D.Nx := 5; Wave1D.c := 1; Wave1D.omega0 := 2;
     Wave1D.dx := 2; Wave1D.dt := 9 / 5; Wave1D.pulse_width := 1 / 10;
     Wave1D.x := [0; 5 / 2; 5; 15 / 2; 10];
     Wave1D.phi_history := []; Wave1D.time_points := [];
     Wave1D.max_amplitude := [] |}.

(** A 1D object of three grid points that has already stored one snapshot,
    and one of two grid points. *)
Definition three_point_grid : Wave1D.VGTSimulation1D R :=
  {| Wave1D.L := 10; Wave1D.Nx := 3; Wave1D.c := 1; Wave1D.omega0 := 2;
     Wave1D.dx := 10 / 3; Wave1D.dt := 3; Wave1D.pulse_width := 1 / 10;
     Wave1D.x := [0; 5; 10];
     Wave1D.phi_history := [[1; 1; 1]]; Wave1D.time_points := [0];
     Wave1D.max_amplitude := [1] |}.

Definition two_point_grid : Wave1D.VGTSimulation1D R :=
  {| Wave1D.L := 10; Wave1D.Nx := 2; Wave1D.c := 1; Wave1D.omega0 := 2;
     Wave1D.dx := 5; Wave1D.dt := 9 / 2; Wave1D.pulse_width := 1 / 10;
     Wave1D.x := [0; 10];
     Wave1D.phi_history := []; Wave1D.time_points := [];
     Wave1D.max_amplitude := [] |}.

(** 2D objects on grids of two by two, three by three and three by one
    points. *)
Definition two_by_two_grid : Wave2D.VGTSimulation2D R :=
  {| Wave2D.Lx := 20; Wave2D.Ly := 20; Wave2D.Nx := 2; Wave2D.Ny := 2;
     Wave2D.c := 1; Wave2D.omega0 := 2;
     Wave2D.dx := 10; Wave2D.dy := 10; Wave2D.dt := 5;
     Wave2D.x := [0; 20]; Wave2D.y := [0; 20];
     Wave2D.X := [[0; 20]; [0; 20]]; Wave2D.Y := [[0; 0]; [20; 20]];
     Wave2D.phi_history := []; Wave2D.time_points := [];
     Wave2D.energy_history := [] |}.

Definition three_by_three_grid : Wave2D.VGTSimulation2D R :=
  {| Wave2D.Lx := 3; Wave2D.Ly := 3; Wave2D.Nx := 3; Wave2D.Ny := 3;
     Wave2D.c := 1; Wave2D.omega0 := 2;
     Wave2D.dx := 1; Wave2D.dy := 1; Wave2D.dt := 1 / 2;
     Wave2D.x := [0; 3 / 2; 3]; Wave2D.y := [0; 3 / 2; 3];
     Wave2D.X := [[0; 3 / 2; 3]; [0; 3 / 2; 3]; [0; 3 / 2; 3]];
     Wave2D.Y := [[0; 0; 0]; [3 / 2; 3 / 2; 3 / 2]; [3; 3; 3]];
     Wave2D.phi_history := []; Wave2D.time_points := [];
     Wave2D.energy_history := [] |}.

Definition three_by_one_grid : Wave2D.VGTSimulation2D R :=
  {| Wave2D.Lx := 3; Wave2D.Ly := 3; Wave2D.Nx := 3; Wave2D.Ny := 1;
     Wave2D.c := 1; Wave2D.omega0 := 2;
     Wave2D.dx := 1; Wave2D.dy := 3; Wave2D.dt := 1 / 2;
     Wave2D.x := [0; 3 / 2; 3]; Wave2D.y := [0];
     Wave2D.X := [[0; 3 / 2; 3]]; Wave2D.Y := [[0; 0; 0]];
     Wave2D.phi_history := []; Wave2D.time_points := [];
     Wave2D.energy_history := [] |}.




(** Fields of three by three cells: a bump at the centre, a ramp, and the
    zero field. *)
Definition centre_bump : array2 R := [[0; 0; 0]; [0; 1; 0]; [0; 0; 0]].
Definition ramp : array2 R := [[1; 2; 4]; [3; 5; 8]; [6; 9; 13]].
Definition flat : array2 R := [[0; 0; 0]; [0; 0; 0]; [0; 0; 0]].

(** Two fits that fail, one by not converging and one on a fault of another
    kind, and simulation data with four samples, and with none, of the
    amplitude. *)
Definition never_converges
    (f : R → R → R → R → R) (xdata ydata : list R) (p0 : R * R * R)
  : result (R * R * R) :=
  Raise RuntimeError.

Definition faulty_fit
    (f : R → R → R → R → R) (xdata ydata : list R) (p0 : R * R * R)
  : result (R * R * R) :=
  Raise TypeError.

Definition four_samples : gmap string (Dispersion.PyValue R) :=
  {[ "max_amplitude" := Dispersion.PyArray [1; 1 / 2; 1 / 4; 1 / 8] ]}.



(** Stand-ins for the oracles of the analyzer: a conversion that refuses
    every array, and a frequency panel that stays empty. *)
Definition refuse_arrays (a : list R) : result R := Raise TypeError.

Definition no_curves (data : gmap string (Dispersion.PyValue R)) (dx : R)
  : list (Dispersion.Artist R) := [].

End RealInputs.

(** A stand-in for the transforms, which returns its samples. *)
Definition samples_as_spectrum {A} (x : A) : result A := Ok x.

(** * Properties *)

(** ** Fallible computations and loops *)

Lemma bind_Ok {A B} (m : result A) (f : A → result B) b :
  m ≫= f = Ok b ↔ ∃ a, m = Ok a ∧ f a = Ok b.
Proof.
  destruct m as [a|e]; simpl; split.
  - eauto.
  - by intros (a' & [= ->] & ?).
  - done.
  - by intros (? & ? & ?).
Qed.

Lemma for_each_fmap {St St' A} (g : St → St') (body : St → A → result St)
    (body' : St' → A → result St') st xs :
  (∀ st a, body' (g st) a = g <$> body st a) →
  for_each body' (g st) xs = g <$> for_each body st xs.
Proof.
  intros Hg. revert st. induction xs as [|a xs IH]; intros st; simpl; [done|].
  rewrite Hg. destruct (body st a) as [st1|e]; simpl; [apply IH | done].
Qed.

(** Loop invariants: [Inv k st] is what holds of the state when [k]
    iterations are done. *)
Lemma for_each_invariant {St A} (body : St → A → result St)
    (Inv : nat → St → Prop) xs st :
  Inv 0%nat st →
  (∀ k a st, xs !! k = Some a → Inv k st →
             ∃ st', body st a = Ok st' ∧ Inv (S k) st') →
  ∃ st', for_each body st xs = Ok st' ∧ Inv (length xs) st'.
Proof.
  revert Inv st. induction xs as [|a xs IH]; intros Inv st H0 Hstep; simpl.
  - eauto.
  - destruct (Hstep 0%nat a st eq_refl H0) as (st1 & -> & H1). simpl.
    apply (IH (λ k, Inv (S k))); [done|].
    intros k b st2 Hk. apply (Hstep (S k)). done.
Qed.


Lemma traverse_ok {B C} (f : B → result C) (g : B → C) (xs : list B) :
  Forall (λ x, f x = Ok (g x)) xs → traverse f xs = Ok (g <$> xs).
Proof. induction 1 as [|x xs Hx _ IH]; simpl; [done|]. by rewrite Hx, IH. Qed.

Lemma traverse_total {B C} (f : B → result C) (xs : list B) :
  Forall (λ x, ∃ y, f x = Ok y) xs →
  ∃ ys, traverse f xs = Ok ys ∧ Forall2 (λ x y, f x = Ok y) xs ys.
Proof.
  induction 1 as [|x xs [y Hy] _ (ys & IH & HF)]; simpl; [by eauto|].
  rewrite Hy, IH. simpl. eauto.
Qed.

Lemma pymod_ok a b : b ≠ 0 → pymod a b = Ok (a `mod` b).
Proof. intros Hb. unfold pymod. by destruct (Z.eqb_spec b 0). Qed.

(** ** Indexing *)

Lemma py_index_nonneg n i :
  0 ≤ i < Z.of_nat n → py_index n i = Some (Z.to_nat i).
Proof.
  intros [? ?]. unfold py_index.
  destruct (Z.leb_spec 0 i); [|lia]. destruct (Z.ltb_spec i (Z.of_nat n)); [done|lia].
Qed.

Lemma py_index_last n : (0 < n)%nat → py_index n (-1) = Some (n - 1)%nat.
Proof.
  intros ?. unfold py_index. simpl.
  destruct (Z.leb_spec (- Z.of_nat n) (-1)); [|lia]. simpl. f_equal. lia.
Qed.

Lemma getitem_lookup {A} (a : list A) (k : nat) v :
  a !! k = Some v → getitem a (Z.of_nat k) = Ok v.
Proof.
  intros Hk. unfold getitem.
  rewrite py_index_nonneg by (apply lookup_lt_Some in Hk; lia).
  simpl. by rewrite Nat2Z.id, Hk.
Qed.

Lemma getitem_pos {A} (a : list A) (i : Z) v :
  0 ≤ i → a !! Z.to_nat i = Some v → getitem a i = Ok v.
Proof.
  intros Hi Hv. rewrite <- (Z2Nat.id i) by done. by apply getitem_lookup.
Qed.

Lemma getitem_neg {A} (a : list A) (i : Z) v :
  - Z.of_nat (length a) ≤ i < 0 →
  a !! (length a - Z.to_nat (- i))%nat = Some v →
  getitem a i = Ok v.
Proof.
  intros Hk Hv. unfold getitem, py_index.
  destruct (Z.leb_spec 0 i); [lia|]. simpl.
  destruct (Z.leb_spec (- Z.of_nat (length a)) i); [|lia].
  destruct (Z.ltb_spec i 0); [|lia]. simpl.
  replace (Z.to_nat _) with (length a - Z.to_nat (- i))%nat by lia. by rewrite Hv.
Qed.

Lemma setitem_nonneg {A} (a : list A) (k : nat) v :
  (k < length a)%nat → setitem a (Z.of_nat k) v = Ok (<[k := v]> a).
Proof.
  intros Hk. unfold setitem. rewrite py_index_nonneg by lia. by rewrite Nat2Z.id.
Qed.

Lemma setitem_last {A} (a : list A) v :
  (0 < length a)%nat → setitem a (-1) v = Ok (<[(length a - 1)%nat := v]> a).
Proof. intros Hk. unfold setitem. by rewrite py_index_last. Qed.

Lemma slice_from {A} (a : list A) (k : nat) :
  slice (Some (Z.of_nat k)) None a = drop k a.
Proof.
  unfold slice. simpl. unfold clip_index.
  destruct (Z.ltb_spec (Z.of_nat k) 0); [lia|].
  destruct (decide (k ≤ length a)%nat).
  - replace (Z.to_nat _) with k by lia. rewrite take_ge; [done|]. rewrite length_drop. lia.
  - replace (Z.to_nat _) with (length a) by lia.
    rewrite !drop_ge by lia. by rewrite take_nil.
Qed.

Lemma slice_until_neg {A} (a : list A) (k : nat) :
  (1 ≤ k)%nat → slice None (Some (- Z.of_nat k)) a = take (length a - k) a.
Proof.
  intros Hk. unfold slice. simpl. rewrite drop_0. unfold clip_index. f_equal.
  destruct (Z.ltb_spec (- Z.of_nat k) 0); lia.
Qed.

(** ** NumPy functions *)

Section NumericFacts.
Context {F : Type} `{!Scalar F}.

Lemma np_max_ok (a : list F) : (0 < length a)%nat → ∃ m, np_max a = Ok m.
Proof. destruct a; simpl; [lia | eauto]. Qed.

Lemma length_linspace (start stop : F) num a :
  linspace start stop num = Ok a → 0 ≤ num ∧ length a = Z.to_nat num.
Proof.
  unfold linspace. destruct (Z.ltb_spec num 0); [done|]. intros [= <-]. split; [done|].
  assert (∀ f g : F → F,
            length (g <$> (f <$> (of_int <$> seqZ 0 num))) = Z.to_nat num) as Hl.
  { intros. by rewrite !length_fmap, length_seqZ. }
  destruct (1 <? num); [rewrite length_insert|]; repeat (destruct (_ : bool)); apply Hl.
Qed.

Lemma gradient_along_short {V} (vsub : V → V → V) (vdiv : V → F → V) h (f : list V) :
  (length f < 2)%nat →
  gradient_along vsub vdiv h f =
    Raise (ValueError "Shape of array too small to calculate a numerical gradient, at least (edge_order + 1) elements are required.").
Proof. intros Hn. unfold gradient_along. by destruct (Nat.ltb_spec (length f) 2); [|lia]. Qed.

Lemma gradient_along_spec {V} (vsub : V → V → V) (vdiv : V → F → V) h (f : list V) :
  (2 ≤ length f)%nat →
  ∃ out, gradient_along vsub vdiv h f = Ok out ∧ length out = length f ∧
         ∀ i, (i < length f)%nat → out !! i = diff_along vsub vdiv h f i.
Proof.
  intros Hn. unfold gradient_along.
  destruct (Nat.ltb_spec (length f) 2); [lia|].
  destruct (lookup_lt_is_Some_2 f 0) as [f0 H0]; [lia|].
  destruct (lookup_lt_is_Some_2 f 1) as [f1 H1]; [lia|].
  destruct (lookup_lt_is_Some_2 f (length f - 1)) as [fn1 Hn1]; [lia|].
  destruct (lookup_lt_is_Some_2 f (length f - 2)) as [fn2 Hn2]; [lia|].
  rewrite (getitem_pos f 1 f1), (getitem_pos f 0 f0) by done. simpl.
  rewrite (setitem_nonneg _ 0) by (rewrite length_inserts; lia). simpl.
  rewrite (getitem_neg f (-1) fn1), (getitem_neg f (-2) fn2) by (done || lia). simpl.
  rewrite setitem_last by (rewrite length_insert, length_inserts; lia).
  rewrite length_insert, length_inserts.
  eexists; split; [done|]. split; [by rewrite !length_insert, length_inserts|].
  intros i Hi. unfold diff_along.
  destruct (decide (i = 0%nat)) as [->|Hi0].
  - rewrite list_lookup_insert_ne by lia.
    rewrite list_lookup_insert_eq by (rewrite length_inserts; lia).
    by rewrite H1, H0.
  - destruct (decide (i = (length f - 1)%nat)) as [->|Hil].
    + rewrite list_lookup_insert_eq by (rewrite length_insert, length_inserts; lia).
      by rewrite Hn1, Hn2.
    + rewrite !list_lookup_insert_ne by lia.
      change 2 with (Z.of_nat 2). rewrite slice_from.
      change (-2) with (- Z.of_nat 2). rewrite slice_until_neg by lia.
      rewrite list_lookup_inserts
        by (rewrite ?length_zip_with, ?length_drop, ?length_take; lia).
      rewrite lookup_zip_with, lookup_drop, lookup_take_lt by lia.
      replace (2 + (i - 1))%nat with (i + 1)%nat by lia. done.
Qed.
End NumericFacts.

(** ** Arrays of rank two *)

Section ArrayFacts.
Context {A : Type}.
Implicit Types a b : list (list A).

Lemma has_shape_lookup ny nx a i row :
  has_shape ny nx a → a !! i = Some row → length row = nx.
Proof. intros [_ Hrows] Hi. by eapply (Forall_lookup_1 _ _ _ _ Hrows Hi). Qed.

Lemma has_shape_fmap ny nx a (g : list A → list A) :
  (∀ row, length (g row) = length row) →
  has_shape ny nx a → has_shape ny nx (g <$> a).
Proof.
  intros Hg [Hlen Hrows]. split; [by rewrite length_fmap|].
  apply Forall_fmap. eapply Forall_impl; [done|]. intros row Hr. simpl. by rewrite Hg.
Qed.

Lemma has_shape_arr_map ny nx (f : A → A) a :
  has_shape ny nx a → has_shape ny nx (arr_map f a).
Proof. apply has_shape_fmap. intros. by rewrite length_fmap. Qed.

Lemma has_shape_arr_zip ny nx (op : A → A → A) a b :
  has_shape ny nx a → has_shape ny nx b → has_shape ny nx (arr_zip op a b).
Proof.
  intros [Hla Ha] [Hlb Hb]. split.
  - unfold arr_zip. rewrite length_zip_with. lia.
  - apply Forall_lookup_2. intros i row Hi. unfold arr_zip in Hi.
    apply lookup_zip_with_Some in Hi as (ra & rb & -> & Hra & Hrb).
    rewrite length_zip_with.
    rewrite (Forall_lookup_1 _ _ _ _ Ha Hra), (Forall_lookup_1 _ _ _ _ Hb Hrb). lia.
Qed.

Lemma has_shape_alter ny nx a k (g : list A → list A) :
  (∀ row, length (g row) = length row) →
  has_shape ny nx a → has_shape ny nx (alter g k a).
Proof.
  intros Hg [Hlen Hrows]. split; [by rewrite length_alter|].
  apply Forall_lookup_2. intros i row. rewrite list_lookup_alter.
  case_decide as Hik.
  - subst i. destruct (a !! k) as [r|] eqn:Hr; simpl; [|done]. intros [= <-].
    rewrite Hg. by eapply (Forall_lookup_1 _ _ _ _ Hrows Hr).
  - intros Hr. by eapply (Forall_lookup_1 _ _ _ _ Hrows Hr).
Qed.

Lemma has_shape_set_interior ny nx v a :
  has_shape ny nx a → has_shape ny nx (set_interior v a).
Proof.
  intros [Hlen Hrows]. unfold set_interior. split; [by rewrite length_inserts|].
  apply Forall_lookup_2. intros i row Hi.
  apply list_lookup_inserts_Some in Hi as [[_ Hi]|(_ & _ & Hi)].
  - by eapply (Forall_lookup_1 _ _ _ _ Hrows Hi).
  - apply lookup_zip_with_Some in Hi as (vr & ar & -> & _ & Har).
    rewrite length_inserts. unfold slice in Har. apply lookup_take_Some in Har as [Har _].
    rewrite lookup_drop in Har. by eapply (Forall_lookup_1 _ _ _ _ Hrows Har).
Qed.

Lemma set_row_spec ny nx a (i : Z) (k : nat) v :
  has_shape ny nx a → py_index ny i = Some k →
  ∃ a', set_row a i v = Ok a' ∧ has_shape ny nx a' ∧
    ∀ r j, cell a' r j = if decide (r = k) then (λ _, v) <$> cell a r j else cell a r j.
Proof.
  intros Hs Hk. unfold set_row. rewrite (proj1 Hs), Hk. eexists; split; [done|]. split.
  - apply has_shape_alter; [|done]. intros. by rewrite length_fmap.
  - intros r j. unfold cell. destruct (decide (r = k)) as [->|Hne].
    + rewrite list_lookup_alter_eq. destruct (a !! k); simpl; [|done].
      by rewrite list_lookup_fmap.
    + by rewrite list_lookup_alter_ne.
Qed.

Lemma set_col_spec ny nx a (j : Z) (k : nat) v :
  has_shape ny nx a → py_index nx j = Some k →
  ∃ a', set_col a j v = Ok a' ∧ has_shape ny nx a' ∧
    ∀ r i, cell a' r i = if decide (i = k) then (λ _, v) <$> cell a r i else cell a r i.
Proof.
  intros Hs Hk. unfold set_col.
  rewrite (traverse_ok _ (λ row, <[k := v]> row)).
  - eexists; split; [done|]. split.
    + apply has_shape_fmap; [|done]. intros. by rewrite length_insert.
    + intros r i. unfold cell. rewrite list_lookup_fmap.
      destruct (a !! r) as [row|]; simpl; [|by case_decide].
      destruct (decide (i = k)) as [->|Hne].
      * destruct (decide (k < length row)%nat) as [Hlt|Hge].
        -- rewrite list_lookup_insert_eq by done.
           destruct (lookup_lt_is_Some_2 row k Hlt) as [w ->]. done.
        -- rewrite list_insert_ge by lia. rewrite lookup_ge_None_2 by lia. done.
      * by rewrite list_lookup_insert_ne.
  - destruct Hs as [_ Hrows]. eapply Forall_impl; [done|]. intros row Hr. simpl in *.
    unfold setitem. by rewrite Hr, Hk.
Qed.

Lemma cell_is_Some ny nx a i j :
  has_shape ny nx a → (i < ny)%nat → (j < nx)%nat → is_Some (cell a i j).
Proof.
  intros Hs Hi Hj. unfold cell.
  destruct (lookup_lt_is_Some_2 a i) as [row Hr]; [by rewrite (proj1 Hs)|].
  rewrite Hr. simpl. apply lookup_lt_is_Some_2.
  by rewrite (has_shape_lookup _ _ _ _ _ Hs Hr).
Qed.

Lemma cell_arr_map (f : A → A) (a : list (list A)) i j :
  cell (arr_map f a) i j = f <$> cell a i j.
Proof.
  unfold cell, arr_map. rewrite list_lookup_fmap.
  destruct (a !! i); simpl; [|done]. by rewrite list_lookup_fmap.
Qed.

Lemma cell_arr_zip (op : A → A → A) (a b : list (list A)) i j :
  cell (arr_zip op a b) i j = (x ← cell a i j; y ← cell b i j; Some (op x y)).
Proof.
  unfold cell, arr_zip. rewrite lookup_zip_with.
  destruct (a !! i) as [ra|]; simpl; [|done].
  destruct (b !! i) as [rb|]; simpl.
  - by rewrite lookup_zip_with.
  - by destruct (ra !! j).
Qed.

(** An array is the row-major table of its cells. *)
Lemma array_tabulate ny nx (a : list (list A)) (g : nat → nat → A) :
  has_shape ny nx a →
  (∀ i j, (i < ny)%nat → (j < nx)%nat → cell a i j = Some (g i j)) →
  a = (λ i, g i <$> seq 0 nx) <$> seq 0 ny.
Proof.
  intros Hs Hc. apply list_eq. intros i. rewrite list_lookup_fmap.
  destruct (decide (i < ny)%nat) as [Hi|Hi].
  - rewrite lookup_seq_lt by done. simpl.
    destruct (lookup_lt_is_Some_2 a i) as [row Hr]; [by rewrite (proj1 Hs)|].
    rewrite Hr. f_equal. apply list_eq. intros j. rewrite list_lookup_fmap.
    pose proof (has_shape_lookup _ _ _ _ _ Hs Hr) as Hlen.
    destruct (decide (j < nx)%nat) as [Hj|Hj].
    + rewrite lookup_seq_lt by done. simpl. specialize (Hc i j Hi Hj).
      unfold cell in Hc. by rewrite Hr in Hc.
    + rewrite lookup_seq_ge by lia. apply lookup_ge_None_2. lia.
  - rewrite lookup_seq_ge by lia. apply lookup_ge_None_2. rewrite (proj1 Hs). lia.
Qed.
End ArrayFacts.

(** ** The 1D engine *)

Section Wave1DFacts.
Import Wave1D.
Context {F : Type} `{!Scalar F, !NumPy F, !FloatPow F}.

Lemma powers1d_inv (self : VGTSimulation1D F) dx2 dt2 c2 w2 :
  powers self = Ok (dx2, dt2, c2, w2) ↔
  pow2 (dx self) = Ok dx2 ∧ pow2 (dt self) = Ok dt2 ∧
  pow2 (c self) = Ok c2 ∧ pow2 (omega0 self) = Ok w2.
Proof.
  unfold powers. split.
  - destruct (pow2 (dx self)); [simpl|done]. destruct (pow2 (dt self)); [simpl|done].
    destruct (pow2 (c self)); [simpl|done]. destruct (pow2 (omega0 self)); [simpl|done].
    by intros [= -> -> -> ->].
  - by intros (-> & -> & -> & ->).
Qed.

(** With its four fields in range, an interior update is the four powers
    followed by the assignment. *)
Lemma interior_update_powers self cur prev next (i : nat) :
  (1 ≤ i)%nat → (i + 1 < length cur)%nat → length prev = length cur → length next = length cur →
  interior_update self cur prev next (Z.of_nat i) =
    '(dx2, dt2, c2, w2) ← powers self;
    v ← match stencil_at dx2 dt2 c2 w2 cur prev i with
        | Some v => Ok v
        | None => Raise IndexError
        end;
    Ok (<[i := v]> next).
Proof.
  intros Hi1 Hi2 Hp Hn.
  destruct (lookup_lt_is_Some_2 cur (i - 1)) as [p_l Hl]; [lia|].
  destruct (lookup_lt_is_Some_2 cur i) as [p_i Hc]; [lia|].
  destruct (lookup_lt_is_Some_2 cur (i + 1)) as [p_r Hr]; [lia|].
  destruct (lookup_lt_is_Some_2 prev i) as [q_i Hq]; [lia|].
  unfold interior_update, powers, stencil_at. rewrite Hl, Hc, Hr, Hq.
  replace (Z.of_nat i + 1) with (Z.of_nat (i + 1)) by lia.
  replace (Z.of_nat i - 1) with (Z.of_nat (i - 1)) by lia.
  rewrite (getitem_lookup _ _ _ Hr), (getitem_lookup _ _ _ Hc), (getitem_lookup _ _ _ Hl).
  simpl. destruct (pow2 (dx self)); [simpl|done].
  rewrite (getitem_lookup _ _ _ Hq). simpl.
  destruct (pow2 (dt self)); [simpl|done]. destruct (pow2 (c self)); [simpl|done].
  destruct (pow2 (omega0 self)); [simpl|done].
  rewrite setitem_nonneg by lia. done.
Qed.

Lemma interior_update_spec self cur prev next (i : nat) dx2 dt2 c2 w2 :
  powers self = Ok (dx2, dt2, c2, w2) →
  (1 ≤ i)%nat → (i + 1 < length cur)%nat → length prev = length cur → length next = length cur →
  ∃ v, stencil_at dx2 dt2 c2 w2 cur prev i = Some v ∧
       interior_update self cur prev next (Z.of_nat i) = Ok (<[i := v]> next).
Proof.
  intros Hpow Hi1 Hi2 Hp Hn.
  rewrite interior_update_powers, Hpow by done. simpl.
  destruct (lookup_lt_is_Some_2 cur (i - 1)) as [p_l Hl]; [lia|].
  destruct (lookup_lt_is_Some_2 cur i) as [p_i Hc]; [lia|].
  destruct (lookup_lt_is_Some_2 cur (i + 1)) as [p_r Hr]; [lia|].
  destruct (lookup_lt_is_Some_2 prev i) as [q_i Hq]; [lia|].
  unfold stencil_at. rewrite Hl, Hc, Hr, Hq. simpl. by eexists.
Qed.


Lemma advance1d_total (self : VGTSimulation1D F) (cur prev : list F) (N : nat) :
  (1 ≤ N)%nat → length cur = N → length prev = N → Nx self = Z.of_nat N →
  step_defined self →
  ∃ next, advance self cur prev = Ok next ∧ length next = N ∧
    (∀ dx2 dt2 c2 w2, powers self = Ok (dx2, dt2, c2, w2) →
     ∀ i, (1 ≤ i)%nat → (i + 1 < N)%nat →
          is_Some (next !! i) ∧ next !! i = stencil_at dx2 dt2 c2 w2 cur prev i) ∧
    zero_ends next.
Proof.
  intros HN Hc Hp HNx Hdef. unfold advance. rewrite HNx.
  set (zeros := replicate (length cur) (of_int 0)).
  destruct (for_each_invariant (interior_update self cur prev)
    (λ k next, length next = N ∧
       (∀ dx2 dt2 c2 w2, powers self = Ok (dx2, dt2, c2, w2) →
        ∀ i, (1 ≤ i < 1 + k)%nat →
             is_Some (next !! i) ∧ next !! i = stencil_at dx2 dt2 c2 w2 cur prev i) ∧
       (∀ i, (i < N)%nat → ¬ (1 ≤ i < 1 + k)%nat → next !! i = Some (of_int 0)))
    (seqZ 1 (Z.of_nat N - 2)) zeros) as (next & Hloop & Hlen & Hint & Hout).
  - split; [|split].
    + unfold zeros. by rewrite length_replicate.
    + intros ? ? ? ? _ i ?. lia.
    + intros i ? _. unfold zeros. apply lookup_replicate_2. lia.
  - intros k a next Hk (Hlen & Hint & Hout).
    apply lookup_seqZ in Hk as [-> Hk].
    replace (1 + Z.of_nat k) with (Z.of_nat (1 + k)) by lia.
    destruct Hdef as [Hsmall | [[[[dx2 dt2] c2] w2] Hpow]]; [lia|].
    destruct (interior_update_spec self cur prev next (1 + k) _ _ _ _ Hpow)
      as (v & Hv & ->); try lia.
    eexists; split; [done|]. split; [|split].
    + by rewrite length_insert.
    + intros dx2' dt2' c2' w2' Hpow' i Hi.
      rewrite Hpow in Hpow'. injection Hpow' as <- <- <- <-.
      destruct (decide (i = 1 + k)%nat) as [->|Hne].
      * rewrite list_lookup_insert_eq by lia. rewrite Hv. eauto.
      * rewrite list_lookup_insert_ne by lia. apply (Hint _ _ _ _ Hpow). lia.
    + intros i Hi Hni. rewrite list_lookup_insert_ne by lia. apply Hout; lia.
  - rewrite Hloop. simpl. rewrite length_seqZ in *.
    replace (0:Z) with (Z.of_nat 0) by done. rewrite setitem_nonneg by lia. simpl.
    rewrite setitem_last by (rewrite length_insert; lia). rewrite length_insert, Hlen.
    eexists; split; [done|]. split; [by rewrite !length_insert|]. split.
    + intros dx2 dt2 c2 w2 Hpow i Hi1 Hi2. rewrite !list_lookup_insert_ne by lia.
      apply (Hint _ _ _ _ Hpow). lia.
    + unfold zero_ends. rewrite !length_insert, Hlen. split.
      * destruct (decide (N - 1 = 0)%nat) as [->|].
        -- apply list_lookup_insert_eq. rewrite length_insert. lia.
        -- rewrite list_lookup_insert_ne by lia. apply list_lookup_insert_eq. lia.
      * apply list_lookup_insert_eq. rewrite length_insert. lia.
Qed.

Lemma init1d_grid_ok L Nx c omega0 dt_factor pulse_width self :
  init L Nx c omega0 dt_factor pulse_width = Ok self →
  grid_ok self ∧ Wave1D.Nx self = Nx ∧
  phi_history self = [] ∧ time_points self = [] ∧ max_amplitude self = [].
Proof.
  unfold init, pydiv_int. destruct (Z.eqb_spec Nx 0) as [|HNx]; [done|]. simpl.
  destruct (pydiv _ _) as [dt|]; [simpl|done].
  destruct (linspace _ _ _) as [xs|] eqn:Hx; [simpl|done].
  intros [= <-]. simpl. apply length_linspace in Hx as [? ?].
  unfold grid_ok. simpl. repeat split; try done. lia.
Qed.

Lemma init1d_total L Nx c omega0 dt_factor pulse_width :
  1 ≤ Nx → fis0 c = false →
  ∃ self, init L Nx c omega0 dt_factor pulse_width = Ok self.
Proof.
  intros HNx Hc. unfold init, pydiv_int, pydiv, linspace.
  destruct (Z.eqb_spec Nx 0); [lia|]. simpl. rewrite Hc. simpl.
  destruct (Z.ltb_spec Nx 0); [lia|]. simpl. eauto.
Qed.

Lemma simulate1d_init_total (self : VGTSimulation1D F) :
  grid_ok self → step_defined self →
  ∃ st m, simulate_init self = Ok st ∧ frame_ok st ∧
    phi st = gaussian_pulse self None (of_int 1) ∧
    obj st = with_storage self (phi_history self ++ [phi st])
               (time_points self ++ [of_int 0]) (max_amplitude self ++ [m]).
Proof.
  intros [HNx Hx] Hdef. unfold simulate_init.
  destruct (np_max_ok (fabs <$> gaussian_pulse self None (of_int 1))) as [m ->].
  { unfold gaussian_pulse. rewrite !length_fmap. lia. }
  simpl. eexists _, m. split; [done|]. split; [|done].
  split; [done|]. simpl. unfold gaussian_pulse. by rewrite !length_fmap.
Qed.







Lemma clear1d_dims (s s' : VGTSimulation1D F) :
  clear s = clear s' → Nx s = Nx s' ∧ dt s = dt s'.
Proof. intros H. split; [exact (f_equal Nx H) | exact (f_equal dt H)]. Qed.

Lemma time_step1d_spec se (st : Frame F) t :
  se ≠ 0 → frame_ok st →
  ∃ next m, advance (obj st) (phi st) (phi_prev st) = Ok next ∧
    length next = Z.to_nat (Nx (obj st)) ∧ zero_ends next ∧
    np_max (fabs <$> next) = Ok m ∧
    time_step se st t =
      Ok {| obj := with_storage (obj st)
                     (phi_history (obj st) ++ (if saved se t then [next] else []))
                     (time_points (obj st) ++
                        (if saved se t then [of_int t ⊗ dt (obj st)] else []))
                     (max_amplitude (obj st) ++ [m]);
            phi := next; phi_prev := phi st |}.
Proof.
  intros Hse ((HNx & Hx) & Hphi & Hprev & Hdef).
  destruct (advance1d_total (obj st) (phi st) (phi_prev st) (Z.to_nat (Nx (obj st))))
    as (next & Hadv & Hlen & _ & Hz); try done; try lia.
  destruct (np_max_ok (fabs <$> next)) as [m Hm]; [rewrite length_fmap; lia|].
  exists next, m. split_and!; try done.
  unfold time_step, saved. rewrite Hadv. simpl. rewrite pymod_ok by done. simpl.
  rewrite Hm. simpl. do 2 f_equal.
  destruct (_ =? 0); unfold append_amplitude, append_snapshot, with_storage; simpl;
    by rewrite ?app_nil_r.
Qed.

Lemma time_loop1d_spec se (st0 : Frame F) ts :
  se ≠ 0 → frame_ok st0 →
  ∃ st snaps tps amps,
    for_each (time_step se) st0 ts = Ok st ∧
    frame_ok st ∧ clear (obj st) = clear (obj st0) ∧
    phi_history (obj st) = phi_history (obj st0) ++ snaps ∧
    time_points (obj st) = time_points (obj st0) ++ tps ∧
    max_amplitude (obj st) = max_amplitude (obj st0) ++ amps ∧
    tps = (λ t, of_int t ⊗ dt (obj st0)) <$> filter (λ t, saved se t = true) ts ∧
    length snaps = length tps ∧
    length amps = length ts ∧
    Forall zero_ends snaps ∧
    (ts ≠ [] → zero_ends (phi st)).
Proof.
  intros Hse Hok0.
  destruct (for_each_invariant (time_step se)
    (λ k st, ∃ snaps tps amps,
       frame_ok st ∧ clear (obj st) = clear (obj st0) ∧
       phi_history (obj st) = phi_history (obj st0) ++ snaps ∧
       time_points (obj st) = time_points (obj st0) ++ tps ∧
       max_amplitude (obj st) = max_amplitude (obj st0) ++ amps ∧
       tps = (λ t, of_int t ⊗ dt (obj st0)) <$> filter (λ t, saved se t = true) (take k ts) ∧
       length snaps = length tps ∧
       length amps = k ∧
       Forall zero_ends snaps ∧
       (k ≠ 0%nat → zero_ends (phi st)))
    ts st0) as (st & Hrun & snaps & tps & amps & H).
  - exists [], [], []. rewrite !app_nil_r. split_and!; try done; constructor.
  - intros k t st Hk (snaps & tps & amps & Hok & Hcl & Hph & Htp & Hma & Htps & Hlen & Hla & Hze & _).
    destruct (clear1d_dims _ _ Hcl) as (HNx & Hdt).
    destruct (time_step1d_spec se st t Hse Hok) as (next & m & _ & Hl & Hz & _ & ->).
    eexists; split; [done|].
    rewrite (take_S_r _ _ _ Hk), filter_app. simpl.
    destruct Hok as (Hg & Hphi & Hprev & Hdef).
    assert (frame_ok {| obj := with_storage (obj st)
                     (phi_history (obj st) ++ (if saved se t then [next] else []))
                     (time_points (obj st) ++
                        (if saved se t then [of_int t ⊗ dt (obj st)] else []))
                     (max_amplitude (obj st) ++ [m]);
            phi := next; phi_prev := phi st |}) as Hok' by done.
    destruct (saved se t) eqn:Hsv.
    + exists (snaps ++ [next]), (tps ++ [of_int t ⊗ dt (obj st0)]), (amps ++ [m]).
      rewrite Hph, Htp, Hma, Hdt, <- !app_assoc.
      rewrite (filter_cons_True _ t []) by done. rewrite filter_nil, fmap_app, <- Htps. simpl.
      split_and!; try done.
      * rewrite !length_app, Hlen. done.
      * rewrite length_app, Hla. simpl. lia.
      * apply Forall_app. split; [done|]. by constructor.
    + exists snaps, tps, (amps ++ [m]).
      rewrite Hph, Htp, Hma, <- !app_assoc, !app_nil_r.
      rewrite (filter_cons_False _ t []) by (by rewrite Hsv). rewrite filter_nil, app_nil_r.
      split_and!; try done. rewrite length_app, Hla. simpl. lia.
  - exists st, snaps, tps, amps. rewrite take_ge in H by done.
    destruct H as (? & ? & ? & ? & ? & ? & ? & ? & ? & Hz). split_and!; try done.
    intros Hne. apply Hz. destruct ts; [done|]. simpl. lia.
Qed.

Lemma simulate1d_spec (self : VGTSimulation1D F) Nt se :
  se ≠ 0 → grid_ok self → step_defined self →
  ∃ r snaps tps amps,
    simulate self Nt se = Ok r ∧ clear r = clear self ∧
    phi_history r = phi_history self ++ gaussian_pulse self None (of_int 1) :: snaps ∧
    time_points r = time_points self ++ of_int 0 :: tps ∧
    max_amplitude r = max_amplitude self ++ amps ∧
    length snaps = length (filter (λ t, saved se t = true) (seqZ 1 Nt)) ∧
    length tps = length snaps ∧
    length amps = S (Z.to_nat Nt) ∧
    Forall zero_ends snaps.
Proof.
  intros Hse Hg Hdef.
  destruct (simulate1d_init_total self Hg Hdef) as (st0 & m & Hinit & Hok & Hphi0 & Hobj).
  unfold simulate. rewrite Hinit. simpl.
  destruct (time_loop1d_spec se st0 (seqZ 1 Nt) Hse Hok) as
    (st & snaps & tps & amps & -> & _ & Hcl & Hph & Htp & Hma & Htps & Hlen & Hla & Hze & _).
  simpl. exists (obj st), snaps, tps, (m :: amps).
  rewrite Hph, Htp, Hma, Hobj. simpl. rewrite Hphi0, <- !app_assoc. simpl.
  split_and!; try done.
  - by rewrite Hcl, Hobj.
  - by rewrite Hlen, Htps, length_fmap.
  - by rewrite Hla, length_seqZ.
Qed.
End Wave1DFacts.

(** With exact powers every step is defined. *)
Lemma exact_step_defined {F : Type} `{!Scalar F}
    (self : Wave1D.VGTSimulation1D F) :
  Wave1D.step_defined (FloatPow0 := exact_pow2) self.
Proof. right. by eexists. Qed.

(** ** The 2D engine *)

Section Wave2DFacts.
Import Wave2D.
Context {F : Type} `{!Scalar F, !NumPy F, !FloatPow F}.

Lemma powers2d_inv (self : VGTSimulation2D F) dx2 dy2 dt2 c2 w2 :
  powers self = Ok (dx2, dy2, dt2, c2, w2) ↔
  pow2 (dx self) = Ok dx2 ∧ pow2 (dy self) = Ok dy2 ∧ pow2 (dt self) = Ok dt2 ∧
  pow2 (c self) = Ok c2 ∧ pow2 (omega0 self) = Ok w2.
Proof.
  unfold powers. split.
  - destruct (pow2 (dx self)); [simpl|done]. destruct (pow2 (dy self)); [simpl|done].
    destruct (pow2 (dt self)); [simpl|done]. destruct (pow2 (c self)); [simpl|done].
    destruct (pow2 (omega0 self)); [simpl|done]. by intros [= -> -> -> -> ->].
  - by intros (-> & -> & -> & -> & ->).
Qed.

Lemma powers2d_omega0 (self : VGTSimulation2D F) p :
  powers self = Ok p → ∃ w2, pow2 (omega0 self) = Ok w2.
Proof.
  destruct p as [[[[dx2 dy2] dt2] c2] w2]. intros Hp.
  apply powers2d_inv in Hp as (_ & _ & _ & _ & Hw). eauto.
Qed.

Lemma powers2d_clear (s s' : VGTSimulation2D F) :
  clear s = clear s' → powers s = powers s'.
Proof. intros H. change (powers (clear s) = powers (clear s')). by rewrite H. Qed.

Lemma has_shape_laplacian_2d ny nx self (phi lap : array2 F) :
  laplacian_2d self phi = Ok lap → has_shape ny nx phi → has_shape ny nx lap.
Proof.
  unfold laplacian_2d. destruct (pow2 (dx self)); [simpl|done].
  destruct (pow2 (dy self)); [simpl|done]. intros [= <-] Hs.
  by apply has_shape_set_interior, has_shape_arr_map.
Qed.


Lemma laplacian_2d_total self (phi : array2 F) p :
  powers self = Ok p → ∃ lap, laplacian_2d self phi = Ok lap.
Proof.
  destruct p as [[[[dx2 dy2] dt2] c2] w2]. intros Hp.
  apply powers2d_inv in Hp as (Hdx & Hdy & _). unfold laplacian_2d.
  rewrite Hdx. simpl. rewrite Hdy. simpl. eauto.
Qed.

Lemma advance2d_total ny nx self (phi phi_prev : array2 F) p :
  (1 ≤ ny)%nat → (1 ≤ nx)%nat →
  has_shape ny nx phi → has_shape ny nx phi_prev →
  powers self = Ok p →
  ∃ next, advance self phi phi_prev = Ok next ∧ has_shape ny nx next ∧
          zero_edges ny nx next.
Proof.
  intros Hny Hnx Hphi Hprev Hp. unfold advance.
  destruct (laplacian_2d_total self phi p Hp) as [lap Hlap]. rewrite Hlap. simpl.
  destruct p as [[[[dx2 dy2] dt2] c2] w2].
  apply powers2d_inv in Hp as (_ & _ & -> & -> & ->). simpl.
  match goal with |- context [set_row ?b 0 _] => set (base := b) end.
  assert (has_shape ny nx base) as Hbase.
  { unfold base. repeat first [apply has_shape_arr_zip | apply has_shape_arr_map
      | by eapply has_shape_laplacian_2d | done]. }
  destruct (set_row_spec ny nx base 0 0%nat (of_int 0) Hbase) as (a1 & -> & Hs1 & Hc1).
  { apply (py_index_nonneg ny 0). lia. }
  simpl.
  destruct (set_row_spec ny nx a1 (-1) (ny - 1)%nat (of_int 0) Hs1) as (a2 & -> & Hs2 & Hc2).
  { by apply py_index_last. }
  simpl.
  destruct (set_col_spec ny nx a2 0 0%nat (of_int 0) Hs2) as (a3 & -> & Hs3 & Hc3).
  { apply (py_index_nonneg nx 0). lia. }
  simpl.
  destruct (set_col_spec ny nx a3 (-1) (nx - 1)%nat (of_int 0) Hs3) as (a4 & -> & Hs4 & Hc4).
  { by apply py_index_last. }
  eexists; split; [done|]. split; [done|].
  intros i j Hi Hj Hedge. rewrite Hc4, Hc3, Hc2, Hc1.
  destruct (cell_is_Some ny nx base i j Hbase Hi Hj) as [v ->].
  repeat case_decide; simpl; try done. lia.
Qed.

Lemma cell_at2 ny nx (a : array2 F) i j :
  has_shape ny nx a → (i < ny)%nat → (j < nx)%nat → cell a i j = Some (at2 a i j).
Proof.
  intros Hs Hi Hj. unfold at2.
  by destruct (cell_is_Some ny nx a i j Hs Hi Hj) as [v ->].
Qed.

Lemma gradient_axis1_spec ny nx (a : array2 F) h :
  has_shape ny nx a → (2 ≤ nx)%nat →
  ∃ g, gradient_axis1 a h = Ok g ∧ has_shape ny nx g ∧
    ∀ i j, (i < ny)%nat → (j < nx)%nat →
      cell g i j = Some (difference_quotient h nx (λ k, at2 a i k) j).
Proof.
  intros Hs Hnx. unfold gradient_axis1.
  destruct (traverse_total (gradient_along fsub fdiv h) a) as (g & Hg & HF).
  { apply Forall_forall. intros row Hrow.
    apply list_elem_of_lookup in Hrow as [i Hi].
    destruct (gradient_along_spec fsub fdiv h row) as (out & ? & _); [|by eauto].
    by rewrite (has_shape_lookup _ _ _ _ _ Hs Hi). }
  exists g. split; [done|].
  assert (length g = ny) as Hlg by (by rewrite <- (Forall2_length _ _ _ HF), (proj1 Hs)).
  assert (∀ i row, a !! i = Some row → ∃ out, g !! i = Some out ∧ length out = nx ∧
            ∀ j, (j < nx)%nat → out !! j = diff_along fsub fdiv h row j) as Hrows.
  { intros i row Hi.
    destruct (Forall2_lookup_l _ _ _ _ _ HF Hi) as (out & Ho & Hgo).
    pose proof (has_shape_lookup _ _ _ _ _ Hs Hi) as Hlen.
    destruct (gradient_along_spec fsub fdiv h row) as (out' & Ho' & Hl' & Hsp); [lia|].
    rewrite Hgo in Ho'. injection Ho' as <-.
    exists out. split; [done|]. split; [lia|]. intros j Hj. apply Hsp. lia. }
  split.
  - split; [done|]. apply Forall_lookup_2. intros i out Hi.
    destruct (lookup_lt_is_Some_2 a i) as [row Hr].
    { rewrite (proj1 Hs), <- Hlg. by eapply lookup_lt_Some. }
    destruct (Hrows i row Hr) as (out' & Ho' & Hl & _). congruence.
  - intros i j Hi Hj.
    destruct (lookup_lt_is_Some_2 a i) as [row Hr]; [by rewrite (proj1 Hs)|].
    destruct (Hrows i row Hr) as (out & Ho & Hl & Hsp).
    pose proof (has_shape_lookup _ _ _ _ _ Hs Hr) as Hlen.
    unfold cell at 1. rewrite Ho. simpl. rewrite (Hsp j Hj).
    assert (∀ k, (k < nx)%nat → row !! k = Some (at2 a i k)) as Hat.
    { intros k Hk. rewrite <- (cell_at2 ny nx a i k Hs Hi Hk). unfold cell. by rewrite Hr. }
    unfold diff_along, difference_quotient. rewrite Hlen.
    repeat case_decide; rewrite !Hat by lia; done.
Qed.

Lemma gradient_axis0_spec ny nx (a : array2 F) h :
  has_shape ny nx a → (2 ≤ ny)%nat →
  ∃ g, gradient_axis0 a h = Ok g ∧ has_shape ny nx g ∧
    ∀ i j, (i < ny)%nat → (j < nx)%nat →
      cell g i j = Some (difference_quotient h ny (λ k, at2 a k j) i).
Proof.
  intros Hs Hny. unfold gradient_axis0.
  destruct (gradient_along_spec (zip_with fsub) (λ row k, (λ v, v ⊘ k) <$> row) h a)
    as (g & -> & Hlg & Hsp); [rewrite (proj1 Hs); lia|].
  rewrite (proj1 Hs) in *. exists g. split; [done|].
  assert (∀ k, (k < ny)%nat → ∃ row, a !! k = Some row ∧ length row = nx ∧
             ∀ j, (j < nx)%nat → row !! j = Some (at2 a k j)) as Hat.
  { intros k Hk. destruct (lookup_lt_is_Some_2 a k) as [row Hr]; [by rewrite (proj1 Hs)|].
    exists row. split; [done|]. split; [by eapply has_shape_lookup|].
    intros j Hj. rewrite <- (cell_at2 ny nx a k j Hs Hk Hj). unfold cell. by rewrite Hr. }
  assert (∀ i, (i < ny)%nat → ∃ out, g !! i = Some out ∧ length out = nx ∧
      ∀ j, (j < nx)%nat → out !! j = Some (difference_quotient h ny (λ k, at2 a k j) i))
    as Hrows.
  { intros i Hi. specialize (Hsp i Hi). unfold diff_along in Hsp.
    rewrite (proj1 Hs) in Hsp. unfold difference_quotient.
    destruct (decide (i = 0%nat)); [|destruct (decide (i = (ny - 1)%nat))].
    all: match type of Hsp with
         | _ = mbind _ (_ !! ?p) =>
             destruct (Hat p) as (ra & Hra & Hla & Hca); [lia|];
             rewrite Hra in Hsp; simpl in Hsp
         end.
    all: match type of Hsp with
         | _ = mbind _ (_ !! ?q) =>
             destruct (Hat q) as (rb & Hrb & Hlb & Hcb); [lia|];
             rewrite Hrb in Hsp; simpl in Hsp
         end.
    all: eexists; split; [exact Hsp|]; split;
         [rewrite length_fmap, length_zip_with; lia|].
    all: intros j Hj; rewrite list_lookup_fmap, lookup_zip_with, Hca, Hcb by done; done. }
  split.
  - split; [done|]. apply Forall_lookup_2. intros i out Hi.
    destruct (Hrows i) as (out' & Ho' & Hl & _); [rewrite <- Hlg; by eapply lookup_lt_Some|].
    congruence.
  - intros i j Hi Hj. destruct (Hrows i Hi) as (out & Ho & _ & Hc).
    unfold cell. rewrite Ho. simpl. by apply Hc.
Qed.

Lemma compute_energy_refines (self : VGTSimulation2D F) ny nx (cur prev : array2 F) w2 :
  has_shape ny nx cur → has_shape ny nx prev → (2 ≤ ny)%nat → (2 ≤ nx)%nat →
  pow2 (omega0 self) = Ok w2 →
  compute_energy self cur prev = Ok (energy_spec self w2 ny nx cur prev).
Proof.
  intros Hc Hp Hny Hnx Hw. unfold compute_energy.
  destruct (gradient_axis1_spec ny nx cur (dx self) Hc Hnx) as (gx & -> & Hsx & Hgx).
  destruct (gradient_axis0_spec ny nx cur (dy self) Hc Hny) as (gy & -> & Hsy & Hgy).
  simpl. rewrite Hw. simpl. unfold energy_spec, sum_cells.
  rewrite (array_tabulate ny nx
             (arr_map sq (arr_map (λ v, v ⊘ dt self) (arr_zip fsub cur prev)))
             (λ i j, sq ((at2 cur i j ⊖ at2 prev i j) ⊘ dt self))).
  2: by repeat first [apply has_shape_arr_zip | apply has_shape_arr_map].
  2: { intros i j Hi Hj. rewrite !cell_arr_map, cell_arr_zip.
       by rewrite (cell_at2 ny nx cur), (cell_at2 ny nx prev). }
  rewrite (array_tabulate ny nx
             (arr_zip fadd (arr_zip fadd (arr_map sq gx) (arr_map sq gy))
                (arr_map (λ v, w2 ⊗ v) (arr_map sq cur)))
             (λ i j,
                sq (difference_quotient (dx self) nx (λ k, at2 cur i k) j)
                ⊕ sq (difference_quotient (dy self) ny (λ k, at2 cur k j) i)
                ⊕ w2 ⊗ sq (at2 cur i j))).
  2: by repeat first [apply has_shape_arr_zip | apply has_shape_arr_map].
  2: { intros i j Hi Hj. rewrite !cell_arr_zip, !cell_arr_map.
       by rewrite Hgx, Hgy, (cell_at2 ny nx cur). }
  done.
Qed.

Lemma compute_energy_total self (phi phi_prev : array2 F) ny nx w2 :
  (2 ≤ ny)%nat → (2 ≤ nx)%nat →
  has_shape ny nx phi → has_shape ny nx phi_prev →
  pow2 (omega0 self) = Ok w2 →
  ∃ e, compute_energy self phi phi_prev = Ok e.
Proof. intros. eexists. by eapply compute_energy_refines. Qed.

(** With a single point along an axis [np.gradient] refuses the array, and
    it is called before [omega0 ** 2] is evaluated. *)
Lemma compute_energy_one_point self (phi phi_prev : array2 F) ny nx :
  (1 ≤ ny)%nat → (1 ≤ nx)%nat → (ny = 1 ∨ nx = 1)%nat →
  has_shape ny nx phi →
  compute_energy self phi phi_prev =
    Raise (ValueError "Shape of array too small to calculate a numerical gradient, at least (edge_order + 1) elements are required.").
Proof.
  intros Hny Hnx Hone Hs. unfold compute_energy.
  destruct (decide (nx = 1%nat)) as [->|Hnx1].
  - unfold gradient_axis1. destruct phi as [|row phi]; [destruct Hs; simpl in *; lia|].
    pose proof (has_shape_lookup _ _ (row :: phi) 0 row Hs eq_refl) as Hrow.
    cbn [traverse]. by rewrite gradient_along_short by lia.
  - destruct (gradient_axis1_spec ny nx phi (dx self) Hs ltac:(lia)) as (gx & -> & _).
    simpl. unfold gradient_axis0. rewrite gradient_along_short; [done|].
    rewrite (proj1 Hs). lia.
Qed.

(** The effect of one iteration of the time loop. *)
Lemma time_step2d_spec se (st : Frame F) t :
  se ≠ 0 → frame_ok st →
  ∃ next, advance (obj st) (phi st) (phi_prev st) = Ok next ∧
    has_shape (Z.to_nat (Ny (obj st))) (Z.to_nat (Nx (obj st))) next ∧
    zero_edges (Z.to_nat (Ny (obj st))) (Z.to_nat (Nx (obj st))) next ∧
    if saved se t then
      ∃ e, compute_energy (obj st) next (phi st) = Ok e ∧
        time_step se st t =
          Ok {| obj := with_storage (obj st) (phi_history (obj st) ++ [next])
                         (time_points (obj st) ++ [of_int t ⊗ dt (obj st)])
                         (energy_history (obj st) ++ [e]);
                phi := next; phi_prev := phi st |}
    else time_step se st t = Ok {| obj := obj st; phi := next; phi_prev := phi st |}.
Proof.
  intros Hse ((HNx & HNy & HX & HY) & Hphi & Hprev & p & Hp).
  destruct (advance2d_total (Z.to_nat (Ny (obj st))) (Z.to_nat (Nx (obj st)))
              (obj st) (phi st) (phi_prev st) p) as (next & Hadv & Hs & Hz);
    try done; try lia.
  exists next. split; [done|]. split; [done|]. split; [done|].
  unfold time_step, saved. rewrite Hadv. simpl. rewrite pymod_ok by done. simpl.
  destruct (_ =? 0); [|done].
  destruct (powers2d_omega0 _ _ Hp) as [w2 Hw].
  destruct (compute_energy_total (obj st) next (phi st)
              (Z.to_nat (Ny (obj st))) (Z.to_nat (Nx (obj st))) w2) as [e He];
    try done; try lia.
  exists e. split; [done|].
  change (compute_energy (append_snapshot _ _ _)) with (compute_energy (obj st)).
  by rewrite He.
Qed.

Lemma has_shape_meshgrid (xs ys : list F) :
  has_shape (length ys) (length xs) (meshgrid xs ys).1 ∧
  has_shape (length ys) (length xs) (meshgrid xs ys).2.
Proof.
  unfold meshgrid, has_shape. simpl. rewrite length_replicate, length_fmap.
  repeat split; try done.
  - apply Forall_forall. intros row Hrow. by apply elem_of_replicate in Hrow as [-> _].
  - apply Forall_fmap, Forall_forall. intros v _. simpl. by rewrite length_replicate.
Qed.

Lemma init2d_grid_ok Lx Ly Nx Ny c omega0 dt_factor self :
  2 ≤ Nx → 2 ≤ Ny →
  init Lx Ly Nx Ny c omega0 dt_factor = Ok self →
  grid_ok self ∧ phi_history self = [] ∧ time_points self = [] ∧ energy_history self = [].
Proof.
  intros HNx HNy. unfold init, pydiv_int.
  destruct (Z.eqb_spec Nx 0); [lia|]. destruct (Z.eqb_spec Ny 0); [lia|]. simpl.
  destruct (pydiv _ _) as [dt|]; [simpl|done].
  destruct (linspace _ _ Nx) as [xs|] eqn:Hx; [simpl|done].
  destruct (linspace _ _ Ny) as [ys|] eqn:Hy; [simpl|done].
  intros [= <-]. apply length_linspace in Hx as [_ Hx]. apply length_linspace in Hy as [_ Hy].
  unfold grid_ok. simpl. rewrite <- Hx, <- Hy.
  destruct (has_shape_meshgrid xs ys). done.
Qed.


Lemma init2d_total Lx Ly Nx Ny c omega0 dt_factor :
  1 ≤ Nx → 1 ≤ Ny → fis0 c = false →
  ∃ self, init Lx Ly Nx Ny c omega0 dt_factor = Ok self.
Proof.
  intros HNx HNy Hc. unfold init, pydiv_int, pydiv, linspace.
  destruct (Z.eqb_spec Nx 0); [lia|]. destruct (Z.eqb_spec Ny 0); [lia|]. simpl.
  rewrite Hc. simpl.
  destruct (Z.ltb_spec Nx 0); [lia|]. destruct (Z.ltb_spec Ny 0); [lia|]. simpl. eauto.
Qed.

Lemma has_shape_gaussian_pulse_2d ny nx self center width amplitude phi0 :
  gaussian_pulse_2d self center width amplitude = Ok phi0 →
  has_shape ny nx (X self) → has_shape ny nx (Y self) →
  has_shape ny nx phi0.
Proof.
  unfold gaussian_pulse_2d. destruct (pow2 width); [simpl|done]. intros [= <-] ? ?.
  by repeat first [apply has_shape_arr_zip | apply has_shape_arr_map].
Qed.

Lemma has_shape_ring_pulse ny nx self center radius width amplitude phi0 :
  ring_pulse self center radius width amplitude = Ok phi0 →
  has_shape ny nx (X self) → has_shape ny nx (Y self) →
  has_shape ny nx phi0.
Proof.
  unfold ring_pulse. destruct (pow2 width); [simpl|done]. intros [= <-] ? ?.
  by repeat first [apply has_shape_arr_zip | apply has_shape_arr_map].
Qed.

Lemma has_shape_initial_field ny nx self ty phi0 :
  initial_field self ty = Ok phi0 →
  has_shape ny nx (X self) → has_shape ny nx (Y self) →
  has_shape ny nx phi0.
Proof.
  unfold initial_field. destruct (String.eqb ty "gaussian").
  - apply has_shape_gaussian_pulse_2d.
  - destruct (String.eqb ty "ring"); [apply has_shape_ring_pulse | done].
Qed.

(** A 2D run on a grid with a single point along an axis stops before its
    first step, when the energy of the initial field is computed. *)
Lemma simulate2d_one_point (self : VGTSimulation2D F) Nt se ty phi0 :
  1 ≤ Nx self → 1 ≤ Ny self → Nx self = 1 ∨ Ny self = 1 →
  has_shape (Z.to_nat (Ny self)) (Z.to_nat (Nx self)) (X self) →
  has_shape (Z.to_nat (Ny self)) (Z.to_nat (Nx self)) (Y self) →
  initial_field self ty = Ok phi0 →
  simulate self Nt se ty =
    Raise (ValueError "Shape of array too small to calculate a numerical gradient, at least (edge_order + 1) elements are required.").
Proof.
  intros HNx HNy Hone HX HY Hphi0. unfold simulate, simulate_init. rewrite Hphi0. simpl.
  change (compute_energy (append_snapshot _ _ _)) with (compute_energy self).
  rewrite (compute_energy_one_point self phi0 phi0 (Z.to_nat (Ny self)) (Z.to_nat (Nx self)));
    [done | lia | lia | lia |].
  by eapply has_shape_initial_field.
Qed.


Lemma simulate2d_init_spec self ty phi0 w2 :
  initial_field self ty = Ok phi0 → grid_ok self → pow2 (omega0 self) = Ok w2 →
  ∃ e, compute_energy self phi0 phi0 = Ok e ∧
    simulate_init self ty =
      Ok {| obj := with_storage self (phi_history self ++ [phi0])
                     (time_points self ++ [of_int 0]) (energy_history self ++ [e]);
            phi := phi0; phi_prev := phi0 |} ∧
    has_shape (Z.to_nat (Ny self)) (Z.to_nat (Nx self)) phi0.
Proof.
  intros Hphi0 Hg Hw.
  assert (has_shape (Z.to_nat (Ny self)) (Z.to_nat (Nx self)) phi0) as Hs.
  { destruct Hg as (_ & _ & HX & HY). by eapply has_shape_initial_field. }
  destruct (compute_energy_total self phi0 phi0
              (Z.to_nat (Ny self)) (Z.to_nat (Nx self)) w2) as [e He];
    try done; try (destruct Hg as (?&?&?); lia).
  exists e. split; [done|]. split; [|done].
  unfold simulate_init. rewrite Hphi0. simpl.
  change (compute_energy (append_snapshot _ _ _)) with (compute_energy self).
  by rewrite He.
Qed.



(** Frame property *)
Lemma time_step2d_prepend ph tp en se (st : Frame F) t :
  time_step se (prepend_frame ph tp en st) t = prepend_frame ph tp en <$> time_step se st t.
Proof.
  unfold time_step. simpl.
  change (advance (prepend ph tp en (obj st))) with (advance (obj st)).
  destruct (advance _ _ _) as [next|]; [simpl|done].
  destruct (pymod _ _) as [r|]; [simpl|done].
  destruct (r =? 0); [|done].
  change (compute_energy (append_snapshot _ _ _)) with (compute_energy (obj st)).
  destruct (compute_energy _ _ _) as [e|]; [simpl|done].
  unfold prepend_frame, prepend, append_energy, append_snapshot, with_storage; simpl.
  by rewrite <- !app_assoc.
Qed.

Lemma simulate2d_init_prepend ph tp en (self : VGTSimulation2D F) ty :
  simulate_init (prepend ph tp en self) ty = prepend_frame ph tp en <$> simulate_init self ty.
Proof.
  unfold simulate_init.
  change (initial_field (prepend ph tp en self)) with (initial_field self).
  destruct (initial_field _ _) as [phi0|]; [simpl|done].
  change (compute_energy (append_snapshot _ _ _)) with (compute_energy self).
  destruct (compute_energy _ _ _) as [e|]; [simpl|done].
  unfold prepend_frame, prepend, append_energy, append_snapshot, with_storage; simpl.
  by rewrite <- !app_assoc.
Qed.

Lemma simulate2d_prepend ph tp en (self : VGTSimulation2D F) Nt se ty :
  simulate (prepend ph tp en self) Nt se ty = prepend ph tp en <$> simulate self Nt se ty.
Proof.
  unfold simulate. rewrite simulate2d_init_prepend.
  destruct (simulate_init self ty) as [st0|]; [simpl|done].
  rewrite (for_each_fmap (prepend_frame ph tp en) (time_step se)).
  - by destruct (for_each _ _ _).
  - intros. apply time_step2d_prepend.
Qed.


Lemma clear2d_dims (s s' : VGTSimulation2D F) :
  clear s = clear s' → Nx s = Nx s' ∧ Ny s = Ny s' ∧ dt s = dt s'.
Proof.
  intros H. split; [|split].
  - exact (f_equal Nx H).
  - exact (f_equal Ny H).
  - exact (f_equal dt H).
Qed.

Lemma compute_energy_clear (s s' : VGTSimulation2D F) :
  clear s = clear s' → compute_energy s = compute_energy s'.
Proof.
  intros H. change (compute_energy (clear s) = compute_energy (clear s')). by rewrite H.
Qed.

(** The time loop: it never raises on a well-shaped frame, it only appends
    to the storage, it appends one snapshot, one time and one energy per
    saved step, and from the first step on the field has zero edges. *)
Lemma time_loop2d_spec se (st0 : Frame F) ts :
  se ≠ 0 → frame_ok st0 →
  ∃ st snaps tps ens,
    for_each (time_step se) st0 ts = Ok st ∧
    frame_ok st ∧ clear (obj st) = clear (obj st0) ∧
    phi_history (obj st) = phi_history (obj st0) ++ snaps ∧
    time_points (obj st) = time_points (obj st0) ++ tps ∧
    energy_history (obj st) = energy_history (obj st0) ++ ens ∧
    tps = (λ t, of_int t ⊗ dt (obj st0)) <$> filter (λ t, saved se t = true) ts ∧
    length snaps = length tps ∧
    Forall2 (energy_of (obj st0)) ens snaps ∧
    Forall (zero_edges (Z.to_nat (Ny (obj st0))) (Z.to_nat (Nx (obj st0)))) snaps ∧
    (ts ≠ [] → zero_edges (Z.to_nat (Ny (obj st0))) (Z.to_nat (Nx (obj st0))) (phi st)).
Proof.
  intros Hse Hok0.
  destruct (for_each_invariant (time_step se)
    (λ k st, ∃ snaps tps ens,
       frame_ok st ∧ clear (obj st) = clear (obj st0) ∧
       phi_history (obj st) = phi_history (obj st0) ++ snaps ∧
       time_points (obj st) = time_points (obj st0) ++ tps ∧
       energy_history (obj st) = energy_history (obj st0) ++ ens ∧
       tps = (λ t, of_int t ⊗ dt (obj st0)) <$> filter (λ t, saved se t = true) (take k ts) ∧
       length snaps = length tps ∧
       Forall2 (energy_of (obj st0)) ens snaps ∧
       Forall (zero_edges (Z.to_nat (Ny (obj st0))) (Z.to_nat (Nx (obj st0)))) snaps ∧
       (k ≠ 0%nat → zero_edges (Z.to_nat (Ny (obj st0))) (Z.to_nat (Nx (obj st0))) (phi st)))
    ts st0) as (st & Hrun & snaps & tps & ens & H).
  - exists [], [], []. rewrite !app_nil_r. split_and!; try done; constructor.
  - intros k t st Hk (snaps & tps & ens & Hok & Hcl & Hph & Htp & Hen & Htps & Hlen & Hal & Hze & _).
    destruct (clear2d_dims _ _ Hcl) as (HNx & HNy & Hdt).
    destruct (time_step2d_spec se st t Hse Hok) as (next & _ & Hs & Hz & Hcase).
    rewrite HNx, HNy in Hz.
    rewrite (take_S_r _ _ _ Hk), filter_app.
    destruct Hok as (Hg & Hphi & Hprev & Hpow).
    assert (∀ o, clear o = clear (obj st) →
              frame_ok {| obj := o; phi := next; phi_prev := phi st |}) as Hok'.
    { intros o Ho. destruct (clear2d_dims _ _ Ho) as (HNx' & HNy' & _).
      unfold frame_ok, grid_ok. simpl. rewrite HNx', HNy', (powers2d_clear _ _ Ho).
      change (X o) with (X (clear o)). change (Y o) with (Y (clear o)). rewrite Ho.
      destruct Hg as (? & ? & ? & ?). done. }
    destruct (saved se t) eqn:Hsv.
    + destruct Hcase as (e & He & ->). eexists; split; [done|].
      exists (snaps ++ [next]), (tps ++ [of_int t ⊗ dt (obj st0)]), (ens ++ [e]). simpl.
      rewrite Hph, Htp, Hen, Hdt, <- !app_assoc.
      rewrite (filter_cons_True _ t []) by done. rewrite filter_nil, fmap_app, <- Htps. simpl.
      split_and!; try done; try (by apply Hok').
      * rewrite !length_app, Hlen. done.
      * apply Forall2_app; [done|]. constructor; [|constructor].
        exists (phi st). by rewrite <- (compute_energy_clear _ _ Hcl).
      * apply Forall_app. split; [done|]. by constructor.
    + rewrite Hcase. eexists; split; [done|]. exists snaps, tps, ens. simpl.
      rewrite (filter_cons_False _ t []) by (by rewrite Hsv). rewrite filter_nil, app_nil_r.
      split_and!; try done; try (by apply Hok').
  - exists st, snaps, tps, ens. rewrite take_ge in H by done.
    destruct H as (? & ? & ? & ? & ? & ? & ? & ? & ? & Hz). split_and!; try done.
    intros Hne. apply Hz. destruct ts; [done|]. simpl. lia.
Qed.

(** [simulate] as a whole. *)
Lemma simulate2d_spec (self : VGTSimulation2D F) Nt se ty phi0 p :
  se ≠ 0 → grid_ok self → initial_field self ty = Ok phi0 → powers self = Ok p →
  ∃ r snaps tps ens,
    simulate self Nt se ty = Ok r ∧ clear r = clear self ∧
    phi_history r = phi_history self ++ phi0 :: snaps ∧
    time_points r = time_points self ++ of_int 0 :: tps ∧
    energy_history r = energy_history self ++ ens ∧
    length snaps = length (filter (λ t, saved se t = true) (seqZ 1 Nt)) ∧
    length tps = length snaps ∧
    Forall2 (energy_of self) ens (phi0 :: snaps) ∧
    Forall (zero_edges (Z.to_nat (Ny self)) (Z.to_nat (Nx self))) snaps.
Proof.
  intros Hse Hg Hphi0 Hp. destruct (powers2d_omega0 _ _ Hp) as [w2 Hw].
  destruct (simulate2d_init_spec self ty phi0 w2 Hphi0 Hg Hw) as (e & He & Hinit & Hs0).
  unfold simulate. rewrite Hinit. simpl.
  match goal with |- context [for_each _ ?s _] => set (st0 := s) end.
  destruct (time_loop2d_spec se st0 (seqZ 1 Nt) Hse) as
    (st & snaps & tps & ens & -> & _ & Hcl & Hph & Htp & Hen & Htps & Hlen & Hal & Hze & _).
  { split_and!; try done. by exists p. }
  simpl in *. exists (obj st), snaps, tps, (e :: ens).
  rewrite Hph, Htp, Hen, <- !app_assoc. simpl. split_and!; try done.
  - by rewrite Hlen, Htps, length_fmap.
  - constructor; [by exists phi0|done].
Qed.
End Wave2DFacts.

(** With exact powers every step and both initial fields are defined. *)
Lemma exact_powers2d {F : Type} `{!Scalar F}
    (self : Wave2D.VGTSimulation2D F) :
  ∃ p, Wave2D.powers (FloatPow0 := exact_pow2) self = Ok p.
Proof. by eexists. Qed.

Lemma exact_initial_field {F : Type} `{!Scalar F, !NumPy F}
    (self : Wave2D.VGTSimulation2D F) ty :
  ty = "gaussian" ∨ ty = "ring" →
  ∃ phi0, Wave2D.initial_field (FloatPow0 := exact_pow2) self ty = Ok phi0.
Proof. intros [-> | ->]; by eexists. Qed.

(** ** The order laws of the two scalar instances *)

Lemma SFcompare_Lt_asym x y :
  SFcompare x y = Some Lt → SFcompare y x = Some Gt.
Proof.
  destruct x as [sx|sx| |sx mx ex], y as [sy|sy| |sy my ey]; simpl;
    try destruct sx; try destruct sy; try done.
  all: rewrite (Z.compare_antisym ex ey); destruct (ex ?= ey)%Z; simpl; try done.
  all: pose proof (Pos.compare_cont_antisym mx my Eq) as Hm; simpl in Hm.
  all: rewrite <- Hm; destruct (Pos.compare_cont Eq mx my); simpl; done.
Qed.

Lemma SFltb_asym x y : SFltb x y = true → SFltb y x = false.
Proof.
  unfold SFltb. destruct (SFcompare x y) as [[]|] eqn:H; try done.
  by rewrite (SFcompare_Lt_asym _ _ H).
Qed.

#[export] Instance binary64_order : StrictOrderLaws float.
Proof.
  split; simpl.
  - intros a. rewrite ltb_spec.
    destruct (SFltb (Prim2SF a) (Prim2SF a)) eqn:H; [|done].
    by rewrite (SFltb_asym _ _ H) in H.
  - intros a b. rewrite !ltb_spec. apply SFltb_asym.
Qed.

#[export] Instance R_order : StrictOrderLaws R.
Proof.
  split; simpl.
  - intros a. destruct (Rlt_dec a a); [lra|done].
  - intros a b. destruct (Rlt_dec a b), (Rlt_dec b a); (done || lra).
Qed.

(** ** The analyzer *)

Section DispersionFacts.
Import Dispersion.
Context {F : Type} `{!Scalar F, !NumPy F}.

Lemma foldl_snoc_fmap {A B} (f : A → B) (xs : list A) (acc : list B) :
  foldl (λ acc x, acc ++ [f x]) acc xs = acc ++ (f <$> xs).
Proof.
  revert acc. induction xs as [|x xs IH]; intros acc; simpl.
  - by rewrite app_nil_r.
  - by rewrite IH, <- app_assoc.
Qed.

Lemma cfl_scan_ok :
  ∃ dt_factors : list F,
    linspace (decimal 1 1) (of_int 2) 20 = Ok dt_factors ∧
    cfl_scan = Ok (dt_factors, classify <$> dt_factors).
Proof.
  unfold cfl_scan. destruct (linspace _ _ 20) as [fs|] eqn:H.
  - exists fs. split; [done|]. simpl. by rewrite foldl_snoc_fmap.
  - unfold linspace in H. simpl in H. by repeat destruct (_ : bool).
Qed.


Lemma plot_decay_success (curve_fit : _ → _ → _ → _ → result (F * F * F))
    time amp A tau offset :
  fit_decay curve_fit time amp = Ok (A, tau, offset) →
  plot_decay curve_fit time amp =
    [ Plot time amp "b." (Text "Simulation");
      Plot time ((λ t, exp_decay t A tau offset) <$> time) "r-" (FitTau tau) ].
Proof. intros H. unfold plot_decay. by rewrite H. Qed.
End DispersionFacts.

(** ** What the constructors store, and the pulses *)

Section InitFacts.
Context {F : Type} `{!Scalar F, !NumPy F}.

Lemma init1d_fields (L : F) Nx c omega0 dt_factor pulse_width self :
  Wave1D.init L Nx c omega0 dt_factor pulse_width = Ok self →
  Wave1D.L self = L ∧ Wave1D.Nx self = Nx ∧ Wave1D.c self = c ∧
  Wave1D.omega0 self = omega0 ∧ Wave1D.pulse_width self = pulse_width ∧
  Wave1D.dx self = L ⊘ of_int Nx ∧
  Wave1D.dt self = dt_factor ⊗ Wave1D.dx self ⊘ c ∧
  linspace (of_int 0) L Nx = Ok (Wave1D.x self).
Proof.
  unfold Wave1D.init, pydiv_int, pydiv. destruct (Nx =? 0); [done|]. simpl.
  destruct (fis0 c); [done|]. simpl.
  destruct (linspace _ _ _) as [xs|]; [simpl|done]. by intros [= <-].
Qed.

Lemma init2d_fields (Lx Ly : F) Nx Ny c omega0 dt_factor self :
  Wave2D.init Lx Ly Nx Ny c omega0 dt_factor = Ok self →
  Wave2D.Lx self = Lx ∧ Wave2D.Ly self = Ly ∧
  Wave2D.Nx self = Nx ∧ Wave2D.Ny self = Ny ∧
  Wave2D.dx self = Lx ⊘ of_int Nx ∧ Wave2D.dy self = Ly ⊘ of_int Ny ∧
  Wave2D.dt self = dt_factor ⊗ pymin (Wave2D.dx self) (Wave2D.dy self) ⊘ c ∧
  linspace (of_int 0) Lx Nx = Ok (Wave2D.x self) ∧
  linspace (of_int 0) Ly Ny = Ok (Wave2D.y self) ∧
  Wave2D.X self = replicate (length (Wave2D.y self)) (Wave2D.x self) ∧
  Wave2D.Y self = (λ yi, replicate (length (Wave2D.x self)) yi) <$> Wave2D.y self.
Proof.
  unfold Wave2D.init, pydiv_int, pydiv. destruct (Nx =? 0); [done|]. simpl.
  destruct (Ny =? 0); [done|]. simpl.
  destruct (fis0 c); [done|]. simpl.
  destruct (linspace _ _ Nx) as [xs|]; [simpl|done].
  destruct (linspace _ _ Ny) as [ys|]; [simpl|done]. by intros [= <-].
Qed.
End InitFacts.

Section PulseFacts.
Context {F : Type} `{!Scalar F, !NumPy F, !FloatPow F}.

Lemma cell_gaussian_pulse_2d (self : Wave2D.VGTSimulation2D F) center width amplitude
    width2 pulse i j :
  pow2 width = Ok width2 →
  Wave2D.gaussian_pulse_2d self center width amplitude = Ok pulse →
  cell pulse i j =
    (xv ← cell (Wave2D.X self) i j; yv ← cell (Wave2D.Y self) i j;
     let c := default (Wave2D.Lx self ⊘ of_int 2, Wave2D.Ly self ⊘ of_int 2) center in
     Some (amplitude ⊗ np_exp (fneg (sq (xv ⊖ c.1) ⊕ sq (yv ⊖ c.2)) ⊘ width2))).
Proof.
  intros Hw. unfold Wave2D.gaussian_pulse_2d. rewrite Hw. simpl. intros [= <-].
  rewrite cell_arr_map, cell_arr_zip, !cell_arr_map.
  simpl. destruct (cell (Wave2D.X self) i j); simpl; [|done].
  by destruct (cell (Wave2D.Y self) i j).
Qed.

Lemma seeded_is_prepend (sim : Wave2D.VGTSimulation2D F) src t0 :
  Wave2D.phi_history sim = [] → Wave2D.time_points sim = [] →
  Wave2D.energy_history sim = [] →
  Wave2D.set_time_points (Wave2D.set_phi_history sim [src]) [t0]
    = Wave2D.prepend [src] [t0] [] sim.
Proof.
  intros Hph Htp Hen.
  unfold Wave2D.set_time_points, Wave2D.set_phi_history, Wave2D.prepend,
    Wave2D.with_storage. simpl. by rewrite Hph, Htp, Hen.
Qed.
End PulseFacts.

(** * The claims *)

(** ** The 1D step *)


Section StepWitness.
#[local] Open Scope R_scope.
#[local] Existing Instance exact_pow2.

(** The step worked out on five points, with [dx = 2], [dt = 9/5], [c = 1]
    and [ω₀ = 2]: [2 − 1 + (81/25)·(0/4 − 4) = −299/25] next to the ends and
    [4 − 2 + (81/25)·(−2/4 − 8) = −1277/50] in the middle. *)
Example advance_five_points :
  Wave1D.advance five_point_grid [0; 1; 2; 1; 0] [0; 1; 2; 1; 0]
  = Ok [0; - (299 / 25); - (1277 / 50); - (299 / 25); 0].
Proof.
  unfold Wave1D.advance, five_point_grid. simpl.
  unfold Wave1D.interior_update, getitem, setitem. simpl.
  repeat (apply f_equal || f_equal); lra.
Qed.

End StepWitness.

(** ** The boundary *)

(** C2 (amended). After any number [n ≥ 1] of steps of a run the current
    field has exactly-zero boundary cells (both ends in 1D, all four edges in
    2D), and so has every snapshot the time loop saves; nothing is said of
    the field before the first step, which is the pulse as generated.  The
    run is one that raises nothing: in the arithmetic of the program the
    powers of the recurrence (in 1D only when there is an interior point)
    and the initial field of the 2D run are supposed defined; in exact
    arithmetic, where the power is the product, they always are, and the
    initial field is defined for the two known names. *)
Theorem boundary_zero_after_first_step :
  (∀ (F : Type) (SF : Scalar F) (NF : NumPy F) (PF : FloatPow F)
     (self : Wave1D.VGTSimulation1D F) (save_every n : Z),
     Wave1D.grid_ok self → save_every ≠ 0 → 1 ≤ n →
     Wave1D.step_defined self →
     ∃ st0 st r later,
       Wave1D.simulate_init self = Ok st0 ∧
       for_each (Wave1D.time_step save_every) st0 (seqZ 1 n) = Ok st ∧
       Wave1D.zero_ends (Wave1D.phi st) ∧
       Wave1D.simulate self n save_every = Ok r ∧
       Wave1D.phi_history r
         = Wave1D.phi_history self ++ Wave1D.phi st0 :: later ∧
       Forall Wave1D.zero_ends later) ∧
  (∀ (F : Type) (SF : Scalar F) (NF : NumPy F) (PF : FloatPow F)
     (self : Wave2D.VGTSimulation2D F) (save_every n : Z) (initial_type : string)
     (phi0 : array2 F) p,
     Wave2D.grid_ok self → save_every ≠ 0 → 1 ≤ n →
     Wave2D.initial_field self initial_type = Ok phi0 →
     Wave2D.powers self = Ok p →
     ∃ st0 st r later,
       Wave2D.simulate_init self initial_type = Ok st0 ∧
       for_each (Wave2D.time_step save_every) st0 (seqZ 1 n) = Ok st ∧
       has_shape (Z.to_nat (Wave2D.Ny self)) (Z.to_nat (Wave2D.Nx self))
         (Wave2D.phi st) ∧
       Wave2D.zero_edges (Z.to_nat (Wave2D.Ny self)) (Z.to_nat (Wave2D.Nx self))
         (Wave2D.phi st) ∧
       Wave2D.simulate self n save_every initial_type = Ok r ∧
       Wave2D.phi_history r
         = Wave2D.phi_history self ++ Wave2D.phi st0 :: later ∧
       Forall (Wave2D.zero_edges (Z.to_nat (Wave2D.Ny self))
                 (Z.to_nat (Wave2D.Nx self))) later) ∧
  (∀ (F : Type) (SF : Scalar F) (NF : NumPy F)
     (self : Wave1D.VGTSimulation1D F) (save_every n : Z),
     Wave1D.grid_ok self → save_every ≠ 0 → 1 ≤ n →
     ∃ st0 st r later,
       Wave1D.simulate_init self = Ok st0 ∧
       for_each (Wave1D.time_step (FloatPow0 := exact_pow2) save_every) st0
         (seqZ 1 n) = Ok st ∧
       Wave1D.zero_ends (Wave1D.phi st) ∧
       Wave1D.simulate (FloatPow0 := exact_pow2) self n save_every = Ok r ∧
       Wave1D.phi_history r
         = Wave1D.phi_history self ++ Wave1D.phi st0 :: later ∧
       Forall Wave1D.zero_ends later) ∧
  (∀ (F : Type) (SF : Scalar F) (NF : NumPy F)
     (self : Wave2D.VGTSimulation2D F) (save_every n : Z) (initial_type : string),
     Wave2D.grid_ok self → save_every ≠ 0 → 1 ≤ n →
     initial_type = "gaussian" ∨ initial_type = "ring" →
     ∃ st0 st r later,
       Wave2D.simulate_init (FloatPow0 := exact_pow2) self initial_type = Ok st0 ∧
       for_each (Wave2D.time_step (FloatPow0 := exact_pow2) save_every) st0
         (seqZ 1 n) = Ok st ∧
       has_shape (Z.to_nat (Wave2D.Ny self)) (Z.to_nat (Wave2D.Nx self))
         (Wave2D.phi st) ∧
       Wave2D.zero_edges (Z.to_nat (Wave2D.Ny self)) (Z.to_nat (Wave2D.Nx self))
         (Wave2D.phi st) ∧
       Wave2D.simulate (FloatPow0 := exact_pow2) self n save_every initial_type
         = Ok r ∧
       Wave2D.phi_history r
         = Wave2D.phi_history self ++ Wave2D.phi st0 :: later ∧
       Forall (Wave2D.zero_edges (Z.to_nat (Wave2D.Ny self))
                 (Z.to_nat (Wave2D.Nx self))) later).
Proof.
  assert (∀ (F : Type) (SF : Scalar F) (NF : NumPy F) (PF : FloatPow F)
     (self : Wave1D.VGTSimulation1D F) (save_every n : Z),
     Wave1D.grid_ok self → save_every ≠ 0 → 1 ≤ n →
     Wave1D.step_defined self →
     ∃ st0 st r later,
       Wave1D.simulate_init self = Ok st0 ∧
       for_each (Wave1D.time_step save_every) st0 (seqZ 1 n) = Ok st ∧
       Wave1D.zero_ends (Wave1D.phi st) ∧
       Wave1D.simulate self n save_every = Ok r ∧
       Wave1D.phi_history r
         = Wave1D.phi_history self ++ Wave1D.phi st0 :: later ∧
       Forall Wave1D.zero_ends later) as H1.
  { intros F SF NF PF self se n Hg Hse Hn Hdef.
    destruct (simulate1d_init_total self Hg Hdef)
      as (st0 & m & Hinit & Hok & Hphi0 & Hobj).
    destruct (time_loop1d_spec se st0 (seqZ 1 n) Hse Hok) as
      (st & snaps & tps & amps & Hrun & _ & _ & Hph & _ & _ & _ & _ & _ & Hze & Hz).
    exists st0, st, (Wave1D.obj st), snaps. split_and!; try done.
    + apply Hz. rewrite seqZ_cons by lia. done.
    + unfold Wave1D.simulate. rewrite Hinit. simpl. by rewrite Hrun.
    + rewrite Hph, Hobj. simpl. by rewrite <- app_assoc. }
  assert (∀ (F : Type) (SF : Scalar F) (NF : NumPy F) (PF : FloatPow F)
     (self : Wave2D.VGTSimulation2D F) (save_every n : Z) (initial_type : string)
     (phi0 : array2 F) p,
     Wave2D.grid_ok self → save_every ≠ 0 → 1 ≤ n →
     Wave2D.initial_field self initial_type = Ok phi0 →
     Wave2D.powers self = Ok p →
     ∃ st0 st r later,
       Wave2D.simulate_init self initial_type = Ok st0 ∧
       for_each (Wave2D.time_step save_every) st0 (seqZ 1 n) = Ok st ∧
       has_shape (Z.to_nat (Wave2D.Ny self)) (Z.to_nat (Wave2D.Nx self))
         (Wave2D.phi st) ∧
       Wave2D.zero_edges (Z.to_nat (Wave2D.Ny self)) (Z.to_nat (Wave2D.Nx self))
         (Wave2D.phi st) ∧
       Wave2D.simulate self n save_every initial_type = Ok r ∧
       Wave2D.phi_history r
         = Wave2D.phi_history self ++ Wave2D.phi st0 :: later ∧
       Forall (Wave2D.zero_edges (Z.to_nat (Wave2D.Ny self))
                 (Z.to_nat (Wave2D.Nx self))) later) as H2.
  { intros F SF NF PF self se n ty phi0 p Hg Hse Hn Hphi0 Hp.
    destruct (powers2d_omega0 _ _ Hp) as [w2 Hw].
    destruct (simulate2d_init_spec self ty phi0 w2 Hphi0 Hg Hw)
      as (e & _ & Hinit & Hs0).
    match type of Hinit with _ = Ok ?s => set (st0 := s) in * end.
    assert (Wave2D.frame_ok st0) as Hok.
    { split_and!; try done. by exists p. }
    destruct (time_loop2d_spec se st0 (seqZ 1 n) Hse Hok) as
      (st & snaps & tps & ens & Hrun & Hok' & Hcl & Hph & _ & _ & _ & _ & _ & Hze & Hz).
    exists st0, st, (Wave2D.obj st), snaps. split_and!; try done.
    + destruct Hok' as (_ & Hs & _).
      destruct (clear2d_dims _ _ Hcl) as (HNx & HNy & _).
      by rewrite HNx, HNy in Hs.
    + apply Hz. rewrite seqZ_cons by lia. done.
    + unfold Wave2D.simulate. rewrite Hinit. simpl. by rewrite Hrun.
    + rewrite Hph. simpl. by rewrite <- app_assoc. }
  split; [exact H1|]. split; [exact H2|]. split.
  - intros F SF NF self se n Hg Hse Hn.
    exact (H1 F SF NF exact_pow2 self se n Hg Hse Hn (exact_step_defined self)).
  - intros F SF NF self se n ty Hg Hse Hn Hty.
    destruct (exact_initial_field self ty Hty) as [phi0 Hphi0].
    destruct (exact_powers2d self) as [p Hp].
    exact (H2 F SF NF exact_pow2 self se n ty phi0 p Hg Hse Hn Hphi0 Hp).
Qed.

(** ** Configurations and replay *)

Section ConfigurationClaims.
Context {F : Type} `{!Scalar F, !NumPy F, !FloatPow F}.


End ConfigurationClaims.

(** ** The energy *)


(** ** The analyzer *)

(** C6. The stability scan is a comparison with the fixed limit
    [1/sqrt 2] and nothing else: a factor is classified stable (1) exactly
    when it is strictly below [1/sqrt 2], every factor above it is
    classified unstable (0), [1/sqrt 2] itself is classified unstable, and
    the scan is that comparison applied to each scanned factor in turn.
    Over the reals stable means [f < 1/√2] and unstable [1/√2 ≤ f]; in
    binary64 the limit is [0.7071067811865475] and, of the twenty factors
    scanned, the first seven ([0.1] to [0.7]) are stable and the thirteen
    others are not. *)
Theorem cfl_classification :
  (∀ (F : Type) (SF : Scalar F), StrictOrderLaws F →
     (∀ f : F, Dispersion.classify f = 1
               ↔ fltb f (of_int 1 ⊘ fsqrt (of_int 2)) = true) ∧
     (∀ f : F, Dispersion.classify f = 0
               ↔ fltb f (of_int 1 ⊘ fsqrt (of_int 2)) = false) ∧
     (∀ f : F, fltb (of_int 1 ⊘ fsqrt (of_int 2)) f = true
               → Dispersion.classify f = 0) ∧
     Dispersion.classify (of_int 1 ⊘ fsqrt (of_int 2) : F) = 0 ∧
     (∃ dt_factors : list F,
        linspace (decimal 1 1) (of_int 2) 20 = Ok dt_factors ∧
        Dispersion.cfl_scan
          = Ok (dt_factors,
                (λ f, if fltb f (of_int 1 ⊘ fsqrt (of_int 2)) then 1 else 0)
                  <$> dt_factors))) ∧
  (∀ f : R, (Dispersion.classify f = 1 ↔ (f < 1 / R_sqrt.sqrt 2)%R) ∧
            (Dispersion.classify f = 0 ↔ (1 / R_sqrt.sqrt 2 <= f)%R)) ∧
  (∀ f : float, Dispersion.classify f = 1
                ↔ PrimFloat.ltb f 0x1.6a09e667f3bccp-1%float = true) ∧
  snd <$> Dispersion.cfl_scan (F:=float)
    = Ok [1; 1; 1; 1; 1; 1; 1; 0; 0; 0; 0; 0; 0; 0; 0; 0; 0; 0; 0; 0].
Proof.
  split_and!.
  - intros F SF Hlaws. split_and!.
    + intros f. unfold Dispersion.classify, Dispersion.stability_limit.
      by destruct (fltb f _).
    + intros f. unfold Dispersion.classify, Dispersion.stability_limit.
      by destruct (fltb f _).
    + intros f Hf. unfold Dispersion.classify, Dispersion.stability_limit.
      by rewrite (fltb_asym _ _ Hf).
    + unfold Dispersion.classify, Dispersion.stability_limit. by rewrite fltb_irrefl.
    + destruct (cfl_scan_ok (F:=F)) as (fs & Hfs & Hscan). exists fs. split; [done|].
      rewrite Hscan. done.
  - intros f. unfold Dispersion.classify, Dispersion.stability_limit. simpl.
    destruct (Rlt_dec f (1 / R_sqrt.sqrt 2)); split; split; (done || lra).
  - intros f. unfold Dispersion.classify, Dispersion.stability_limit.
    change (of_int 1 ⊘ fsqrt (of_int 2) : float) with 0x1.6a09e667f3bccp-1%float.
    simpl. by destruct (PrimFloat.ltb f _).
  - vm_compute. reflexivity.
Qed.

Lemma cfl_classification_witness :
  (∀ f : float, Dispersion.classify f = 1
                ↔ fltb f (of_int 1 ⊘ fsqrt (of_int 2)) = true) ∧
  (∀ f : float, Dispersion.classify f = 0
                ↔ fltb f (of_int 1 ⊘ fsqrt (of_int 2)) = false) ∧
  (∀ f : float, fltb (of_int 1 ⊘ fsqrt (of_int 2)) f = true
                → Dispersion.classify f = 0) ∧
  Dispersion.classify (of_int 1 ⊘ fsqrt (of_int 2) : float) = 0 ∧
  (∃ dt_factors : list float,
     linspace (decimal 1 1) (of_int 2) 20 = Ok dt_factors ∧
     Dispersion.cfl_scan
       = Ok (dt_factors,
             (λ f, if fltb f (of_int 1 ⊘ fsqrt (of_int 2)) then 1 else 0)
               <$> dt_factors)).
Proof. exact (proj1 cfl_classification float binary64 binary64_order). Defined.

Section AnalyzerClaims.
Import Dispersion.
Context {F : Type} `{!Scalar F, !NumPy F}.

End AnalyzerClaims.

(** The default 1D grid evaluated in binary64: [dx] is [0.025], and the
    distance between the first two coordinates, [0.02506265664160401], is
    larger. *)
Example default_grid_binary64 :
  (s ← Wave1D.init_default (F:=float);
   x0 ← getitem (Wave1D.x s) 0;
   x1 ← getitem (Wave1D.x s) 1;
   Ok (PrimFloat.eqb (Wave1D.dx s) (decimal 25 3),
       fltb (Wave1D.dx s) (x1 ⊖ x0)))
  = Ok (true, true).
Proof. vm_compute; reflexivity. Qed.

(** ** Exact arithmetic: the grid, and the runs at concrete parameters *)

Section RealFacts.
#[local] Open Scope R_scope.
#[local] Existing Instance exact_pow2.

Lemma R_fis0_false (a : R) : a ≠ 0 → fis0 a = false.
Proof. intros Ha. simpl. by destruct (Req_dec_T a 0). Qed.

(** [np.linspace(0, L, n)] over the reals: [n] points, the [i]-th at
    [i·L/(n−1)]. *)
Lemma linspace_R (L : R) (n : Z) :
  0 < L → (2 ≤ n)%Z →
  ∃ xs, linspace (of_int 0) L n = Ok xs ∧ length xs = Z.to_nat n ∧
    ∀ i, (0 ≤ i < n)%Z → xs !! Z.to_nat i = Some (IZR i * (L / IZR (n - 1))).
Proof.
  intros HL Hn.
  assert (0 < IZR (n - 1)) as Hpos by (apply IZR_lt; lia).
  unfold linspace. destruct (Z.ltb_spec n 0); [lia|].
  destruct (Z.ltb_spec 0 (n - 1)); [|lia]. destruct (Z.ltb_spec 1 n); [|lia].
  rewrite R_fis0_false.
  2: { simpl. unfold Rdiv. apply Rmult_integral_contrapositive_currified.
       - lra.
       - apply Rinv_neq_0_compat. lra. }
  eexists. split; [done|]. split.
  { by rewrite length_insert, !length_fmap, length_seqZ. }
  intros i Hi. destruct (decide (i = n - 1)%Z) as [->|Hne].
  - rewrite list_lookup_insert_eq by (rewrite !length_fmap, length_seqZ; lia).
    apply f_equal. field. lra.
  - rewrite list_lookup_insert_ne by lia.
    rewrite !list_lookup_fmap, lookup_seqZ_lt by lia. simpl.
    rewrite Z2Nat.id, Z.add_0_l by lia. apply f_equal. field. lra.
Qed.

Lemma spacing_exceeds (L : R) (n : Z) :
  0 < L → (2 ≤ n)%Z → L / IZR n < L / IZR (n - 1).
Proof.
  intros HL Hn.
  assert (0 < IZR (n - 1)) as Hpos by (apply IZR_lt; lia).
  assert (IZR n = IZR (n - 1) + 1) as -> by (rewrite minus_IZR; lra).
  unfold Rdiv. apply Rmult_lt_compat_l; [done|].
  apply Rinv_lt_contravar; [nra | lra].
Qed.

Lemma gaussian_pulse_R_pos (self : Wave1D.VGTSimulation1D R) i v :
  Wave1D.gaussian_pulse self None (of_int 1) !! i = Some v → 0 < v.
Proof.
  unfold Wave1D.gaussian_pulse. rewrite list_lookup_fmap.
  destruct (Wave1D.x self !! i) as [xi|]; [|done]. simpl. intros [= <-].
  rewrite Rmult_1_l. apply exp_pos.
Qed.

Lemma exp_neg_125_small : exp (-125) < 7 / 10.
Proof.
  pose proof (exp_ineq1 125 ltac:(lra)) as H.
  replace (-125) with (- (125 + 0)) by lra. rewrite exp_Ropp, Rplus_0_r.
  assert (/ exp 125 < / 126) by (apply Rinv_lt_contravar; nra).
  lra.
Qed.

(** The run of the interference demonstration: [plain] is what the same
    object produces without the seeded history. *)
Lemma interference_run :
  ∃ sim plain pulse sources later,
    Wave2D.init (F:=R) (of_int 30) (of_int 30) 300 300 (of_int 1)
      (decimal 15 1) (decimal 5 1) = Ok sim ∧
    Wave2D.grid_ok sim ∧
    Wave2D.simulate sim 150 5 "gaussian" = Ok plain ∧
    Wave2D.clear plain = Wave2D.clear sim ∧
    Wave2D.gaussian_pulse_2d sim None (of_int 1) (of_int 1) = Ok pulse ∧
    Wave2D.interference_sources sim = Ok sources ∧
    Wave2D.demonstrate_interference
      = Ok (Wave2D.prepend [sources] [of_int 0] [] plain) ∧
    Wave2D.phi_history plain = pulse :: later ∧
    length later = 30%nat ∧
    length (Wave2D.time_points plain) = 31%nat ∧
    Forall2 (Wave2D.energy_of sim) (Wave2D.energy_history plain)
      (Wave2D.phi_history plain).
Proof.
  destruct (init2d_total (F:=R) (of_int 30) (of_int 30) 300 300 (of_int 1)
              (decimal 15 1) (decimal 5 1)) as [sim Hinit];
    [lia | lia | apply R_fis0_false; simpl; lra |].
  destruct (init2d_grid_ok _ _ 300 300 _ _ _ _ ltac:(lia) ltac:(lia) Hinit)
    as (Hg & Hph & Htp & Hen).
  destruct (exact_initial_field sim "gaussian" ltac:(by left)) as [pulse Hpulse].
  destruct (exact_powers2d sim) as [p Hp].
  destruct (simulate2d_spec sim 150 5 "gaussian" pulse p) as
    (plain & snaps & tps & ens & Hrun & Hcl & Hhist & Htime & Hener
       & Hlen & Hlt & Hal & _); [done | done | done | done |].
  rewrite Hph in Hhist. rewrite Htp in Htime. rewrite Hen in Hener.
  simpl in Hhist, Htime, Hener.
  assert (∃ sources, Wave2D.interference_sources sim = Ok sources) as [sources Hsrc]
    by (by eexists).
  exists sim, plain, pulse, sources, snaps.
  split; [done|]. split; [done|]. split; [done|]. split; [done|].
  split; [exact Hpulse|]. split; [done|]. split.
  { unfold Wave2D.demonstrate_interference. rewrite Hinit. cbn [mbind result_bind].
    rewrite Hsrc. cbn [mbind result_bind].
    rewrite seeded_is_prepend by done. by rewrite simulate2d_prepend, Hrun. }
  split; [done|]. split.
  { rewrite Hlen. vm_compute. reflexivity. }
  split.
  { rewrite Htime. simpl. rewrite Hlt, Hlen. vm_compute. reflexivity. }
  by rewrite Hener, Hhist.
Qed.

(** C10. Over the reals, for [L > 0] and [Nx ≥ 2]: the coordinate array the
    constructor builds has [Nx] points whose consecutive distance is
    [L/(Nx−1)], while the spacing [dx] it stores, which the stencil, the time
    step [dt = dt_factor·dx/c] and the wavenumbers of [verify_dispersion]
    use, is [L/Nx], strictly smaller; likewise for both axes in 2D. *)
Theorem coordinate_spacing_exceeds_dx
    (L : R) (Nx : Z) (c omega0 dt_factor pulse_width : R) :
  0 < L → (2 ≤ Nx)%Z → c ≠ 0 →
  (∃ self,
     Wave1D.init L Nx c omega0 dt_factor pulse_width = Ok self ∧
     length (Wave1D.x self) = Z.to_nat Nx ∧
     (∀ i, (0 ≤ i < Nx - 1)%Z →
        ∃ x_i x_next,
          Wave1D.x self !! Z.to_nat i = Some x_i ∧
          Wave1D.x self !! Z.to_nat (i + 1) = Some x_next ∧
          x_next - x_i = L / IZR (Nx - 1)) ∧
     Wave1D.dx self = L / IZR Nx ∧
     Wave1D.dx self < L / IZR (Nx - 1) ∧
     Wave1D.dt self = dt_factor * Wave1D.dx self / c ∧
     Wave1D.wavenumbers self =
       Ok ((λ m, IZR m * (1 / (IZR Nx * Wave1D.dx self)) * 2 * PI)
             <$> (seqZ 0 ((Nx - 1) `div` 2 + 1)
                  ++ seqZ (- (Nx `div` 2)) (Nx `div` 2)))) ∧
  (∀ (Ly : R) (Ny : Z), 0 < Ly → (2 ≤ Ny)%Z →
     ∃ self,
       Wave2D.init L Ly Nx Ny c omega0 dt_factor = Ok self ∧
       (∀ i, (0 ≤ i < Nx - 1)%Z →
          ∃ x_i x_next,
            Wave2D.x self !! Z.to_nat i = Some x_i ∧
            Wave2D.x self !! Z.to_nat (i + 1) = Some x_next ∧
            x_next - x_i = L / IZR (Nx - 1)) ∧
       (∀ j, (0 ≤ j < Ny - 1)%Z →
          ∃ y_j y_next,
            Wave2D.y self !! Z.to_nat j = Some y_j ∧
            Wave2D.y self !! Z.to_nat (j + 1) = Some y_next ∧
            y_next - y_j = Ly / IZR (Ny - 1)) ∧
       Wave2D.dx self = L / IZR Nx ∧ Wave2D.dx self < L / IZR (Nx - 1) ∧
       Wave2D.dy self = Ly / IZR Ny ∧ Wave2D.dy self < Ly / IZR (Ny - 1)).
Proof.
  intros HL HNx Hc.
  destruct (linspace_R L Nx HL HNx) as (xs & Hxs & Hlen & Hat).
  assert (∀ i, (0 ≤ i < Nx - 1)%Z →
            ∃ x_i x_next, xs !! Z.to_nat i = Some x_i ∧
              xs !! Z.to_nat (i + 1) = Some x_next ∧
              x_next - x_i = L / IZR (Nx - 1)) as Hstep.
  { intros i Hi. eexists _, _. split_and!; [apply Hat; lia | apply Hat; lia |].
    rewrite plus_IZR. lra. }
  split.
  - destruct (init1d_total L Nx c omega0 dt_factor pulse_width) as [self Hinit];
      [lia | by apply R_fis0_false |].
    destruct (init1d_fields _ _ _ _ _ _ _ Hinit)
      as (_ & HN & _ & _ & _ & Hdx & Hdt & Hx).
    rewrite Hx in Hxs. injection Hxs as <-.
    assert (0 < IZR Nx) as HposN by (apply IZR_lt; lia).
    exists self. split_and!; try done.
    + rewrite Hdx. by apply spacing_exceeds.
    + unfold Wave1D.wavenumbers, fftfreq, pydiv. rewrite HN. rewrite R_fis0_false.
      * simpl. apply f_equal. by rewrite <- list_fmap_compose.
      * rewrite Hdx. simpl. intros H0.
        assert (IZR Nx * (L / IZR Nx) = L) as HL' by (field; lra). lra.
  - intros Ly Ny HLy HNy.
    destruct (linspace_R Ly Ny HLy HNy) as (ys & Hys & _ & Haty).
    destruct (init2d_total L Ly Nx Ny c omega0 dt_factor) as [self Hinit];
      [lia | lia | by apply R_fis0_false |].
    destruct (init2d_fields _ _ _ _ _ _ _ _ Hinit)
      as (_ & _ & _ & _ & Hdx & Hdy & _ & Hx & Hy & _).
    rewrite Hx in Hxs. injection Hxs as <-.
    rewrite Hy in Hys. injection Hys as <-.
    exists self. split_and!; try done.
    + intros j Hj. eexists _, _. split_and!; [apply Haty; lia | apply Haty; lia |].
      rewrite plus_IZR. lra.
    + rewrite Hdx. by apply spacing_exceeds.
    + rewrite Hdy. by apply spacing_exceeds.
Qed.

Lemma coordinate_spacing_exceeds_dx_witness :
  (∃ self,
     Wave1D.init 10 400 1 2 (9 / 10) (1 / 10) = Ok self ∧
     length (Wave1D.x self) = Z.to_nat 400 ∧
     (∀ i, (0 ≤ i < 400 - 1)%Z →
        ∃ x_i x_next,
          Wave1D.x self !! Z.to_nat i = Some x_i ∧
          Wave1D.x self !! Z.to_nat (i + 1) = Some x_next ∧
          x_next - x_i = 10 / IZR (400 - 1)) ∧
     Wave1D.dx self = 10 / IZR 400 ∧
     Wave1D.dx self < 10 / IZR (400 - 1) ∧
     Wave1D.dt self = 9 / 10 * Wave1D.dx self / 1 ∧
     Wave1D.wavenumbers self =
       Ok ((λ m, IZR m * (1 / (IZR 400 * Wave1D.dx self)) * 2 * PI)
             <$> (seqZ 0 ((400 - 1) `div` 2 + 1)
                  ++ seqZ (- (400 `div` 2)) (400 `div` 2)))) ∧
  (∀ (Ly : R) (Ny : Z), 0 < Ly → (2 ≤ Ny)%Z →
     ∃ self,
       Wave2D.init 10 Ly 400 Ny 1 2 (9 / 10) = Ok self ∧
       (∀ i, (0 ≤ i < 400 - 1)%Z →
          ∃ x_i x_next,
            Wave2D.x self !! Z.to_nat i = Some x_i ∧
            Wave2D.x self !! Z.to_nat (i + 1) = Some x_next ∧
            x_next - x_i = 10 / IZR (400 - 1)) ∧
       (∀ j, (0 ≤ j < Ny - 1)%Z →
          ∃ y_j y_next,
            Wave2D.y self !! Z.to_nat j = Some y_j ∧
            Wave2D.y self !! Z.to_nat (j + 1) = Some y_next ∧
            y_next - y_j = Ly / IZR (Ny - 1)) ∧
       Wave2D.dx self = 10 / IZR 400 ∧ Wave2D.dx self < 10 / IZR (400 - 1) ∧
       Wave2D.dy self = Ly / IZR Ny ∧ Wave2D.dy self < Ly / IZR (Ny - 1)).
Proof.
  apply (coordinate_spacing_exceeds_dx 10 400 1 2 (9 / 10) (1 / 10)); [lra | lia | lra].
Defined.

(** The claim C2 as stated fails at the start of a run: with the default
    parameters the field before the first step, which is also the first
    snapshot of the history, has non-zero boundary cells ([exp(-250)]). *)
Lemma boundary_not_zero_at_start :
  ∃ self st0 r,
    Wave1D.init_default (F:=R) = Ok self ∧
    Wave1D.simulate_init self = Ok st0 ∧
    Wave1D.simulate self 300 10 = Ok r ∧
    Wave1D.phi_history r !! 0%nat = Some (Wave1D.phi st0) ∧
    ¬ Wave1D.zero_ends (Wave1D.phi st0).
Proof.
  unfold Wave1D.init_default.
  destruct (init1d_total (F:=R) (of_int 10) 400 (of_int 1) (of_int 2)
              (decimal 9 1) (decimal 1 1)) as [self Hinit];
    [lia | apply R_fis0_false; simpl; lra |].
  destruct (init1d_grid_ok _ _ _ _ _ _ _ Hinit) as (Hg & _ & Hph & _).
  destruct (simulate1d_init_total self Hg (exact_step_defined self))
    as (st0 & m & Hst0 & _ & Hphi0 & _).
  destruct (simulate1d_spec self 300 10) as (r & snaps & _ & _ & Hr & _ & Hhist & _);
    [done | done | apply exact_step_defined |].
  exists self, st0, r. split_and!; try done.
  - by rewrite Hhist, Hph, Hphi0.
  - rewrite Hphi0. intros [H0 _]. apply gaussian_pulse_R_pos in H0. simpl in H0. lra.
Qed.


(** C4 (the code departs from the claim). [demonstrate_interference] ends in
    the state of an ordinary run of the same object from the single centered
    Gaussian pulse, with the superposition of the two sources merely put in
    front of the history: the superposed field is stored, never evolved, and
    it is a different field from the one the first step is taken from. *)
Theorem interference_seed_ignored :
  ∃ sim plain pulse sources,
    Wave2D.init (F:=R) (of_int 30) (of_int 30) 300 300 (of_int 1)
      (decimal 15 1) (decimal 5 1) = Ok sim ∧
    Wave2D.simulate sim 150 5 "gaussian" = Ok plain ∧
    Wave2D.gaussian_pulse_2d sim None (of_int 1) (of_int 1) = Ok pulse ∧
    Wave2D.interference_sources sim = Ok sources ∧
    Wave2D.demonstrate_interference
      = Ok (Wave2D.prepend [sources] [of_int 0] [] plain) ∧
    Wave2D.phi_history plain !! 0%nat = Some pulse ∧
    sources ≠ pulse.
Proof.
  destruct interference_run as
    (sim & plain & pulse & sources & later & Hinit & Hg & Hrun & _ & Hpulse & Hsrc
       & Hdemo & Hhist & _).
  exists sim, plain, pulse, sources. split_and!; try done.
  - by rewrite Hhist.
  - intros Heq. apply (f_equal (λ a, cell a 0 0)) in Heq.
    destruct (init2d_fields _ _ _ _ _ _ _ _ Hinit)
      as (HLx & HLy & _ & _ & _ & _ & _ & Hx & Hy & HX & HY).
    destruct (linspace_R (of_int 30) 300) as (xs & Hxs & Hlx & Hatx);
      [simpl; lra | lia |].
    rewrite Hx in Hxs. injection Hxs as <-.
    assert (Wave2D.x sim = Wave2D.y sim) as Hxy by congruence.
    pose proof (Hatx 0%Z ltac:(lia)) as Hx0. change (Z.to_nat 0) with 0%nat in Hx0.
    assert (cell (Wave2D.X sim) 0 0 = Some (0 * (of_int 30 / IZR (300 - 1)))) as HcX.
    { unfold cell. rewrite HX, <- Hxy, Hlx. simpl. exact Hx0. }
    assert (cell (Wave2D.Y sim) 0 0 = Some (0 * (of_int 30 / IZR (300 - 1)))) as HcY.
    { unfold cell. rewrite HY, <- Hxy, list_lookup_fmap, Hx0, Hlx. done. }
    unfold Wave2D.interference_sources in Hsrc.
    destruct (Wave2D.gaussian_pulse_2d sim (Some _) _ _) as [phi1|] eqn:Hphi1 in Hsrc;
      [|done].
    cbn [mbind result_bind] in Hsrc.
    destruct (Wave2D.gaussian_pulse_2d sim (Some _) _ _) as [phi2|] eqn:Hphi2 in Hsrc;
      [|done].
    injection Hsrc as <-.
    rewrite cell_arr_zip in Heq.
    rewrite (cell_gaussian_pulse_2d (FloatPow0 := exact_pow2) sim _ (of_int 1) _ _ _ 0 0 eq_refl Hphi1) in Heq.
    rewrite (cell_gaussian_pulse_2d (FloatPow0 := exact_pow2) sim _ (of_int 1) _ _ _ 0 0 eq_refl Hphi2) in Heq.
    rewrite (cell_gaussian_pulse_2d (FloatPow0 := exact_pow2) sim _ (of_int 1) _ _ _ 0 0 eq_refl Hpulse) in Heq.
    rewrite HcX, HcY, HLx, HLy in Heq.
    simpl in Heq. injection Heq as Heq. unfold sq in Heq. simpl in Heq.
    match type of Heq with
    | _ * exp ?a + _ * exp ?b = _ * exp ?c =>
        replace a with (-325) in Heq by (change (300 - 1)%Z with 299%Z; lra);
        replace b with (-625) in Heq by (change (300 - 1)%Z with 299%Z; lra);
        replace c with (-325 + -125) in Heq by (change (300 - 1)%Z with 299%Z; lra)
    end.
    rewrite exp_plus in Heq.
    change (10 ^ Z.of_nat 1)%Z with 10%Z in Heq.
    pose proof (exp_pos (-325)) as H325. pose proof (exp_pos (-625)) as H625.
    pose proof (Rmult_lt_compat_l _ _ _ H325 exp_neg_125_small) as Hlt.
    lra.
Qed.

(** C9 (the code departs from the claim). After
    [demonstrate_interference] the history holds 32 snapshots and 32 times
    but the energy record 31 values: the [j]-th energy was computed from the
    [(j+1)]-th snapshot. *)
Theorem interference_energy_misaligned :
  ∃ r,
    Wave2D.demonstrate_interference (F:=R) = Ok r ∧
    length (Wave2D.phi_history r) = 32%nat ∧
    length (Wave2D.time_points r) = 32%nat ∧
    length (Wave2D.energy_history r) = 31%nat ∧
    Forall2 (Wave2D.energy_of r) (Wave2D.energy_history r)
      (drop 1 (Wave2D.phi_history r)).
Proof.
  destruct interference_run as
    (sim & plain & pulse & sources & later & _ & _ & Hrun & Hcl & _ & _ & Hdemo
       & Hhist & Hlen & Hlt & Hal).
  eexists. split; [exact Hdemo|].
  pose proof (Forall2_length _ _ _ Hal) as Hle. rewrite Hhist in Hle. simpl in Hle.
  simpl. rewrite Hlt, Hle, Hlen. split; [by rewrite Hhist; simpl; rewrite Hlen|].
  split; [done|]. split; [done|].
  rewrite drop_0. eapply Forall2_impl; [exact Hal|].
  intros e phi [prev He]. exists prev.
  change (Wave2D.compute_energy (Wave2D.prepend _ _ _ plain))
    with (Wave2D.compute_energy plain).
  by rewrite (compute_energy_clear _ _ Hcl).
Qed.
End RealFacts.

(** ** The theorems at concrete inputs *)

Section Witnesses.
#[local] Open Scope R_scope.
#[local] Existing Instance exact_pow2.

Lemma R_fis0_true (a : R) : a = 0%R → fis0 a = true.
Proof. intros Ha. simpl. by destruct (Req_dec_T a 0). Qed.

Lemma three_point_grid_ok : Wave1D.grid_ok three_point_grid.
Proof. split; [simpl; lia | reflexivity]. Defined.

Lemma two_point_grid_ok : Wave1D.grid_ok two_point_grid.
Proof. split; [simpl; lia | reflexivity]. Defined.

Lemma two_by_two_grid_ok : Wave2D.grid_ok two_by_two_grid.
Proof.
  split; [simpl; lia|]. split; [simpl; lia|].
  split; (split; [reflexivity | repeat constructor]).
Defined.

Lemma three_by_three_grid_ok : Wave2D.grid_ok three_by_three_grid.
Proof.
  split; [simpl; lia|]. split; [simpl; lia|].
  split; (split; [reflexivity | repeat constructor]).
Defined.

Lemma centre_bump_shape : has_shape 3 3 centre_bump.
Proof. split; [reflexivity | repeat constructor]. Defined.

Lemma ramp_shape : has_shape 3 3 ramp.
Proof. split; [reflexivity | repeat constructor]. Defined.

Lemma flat_shape : has_shape 3 3 flat.
Proof. split; [reflexivity | repeat constructor]. Defined.

Lemma boundary_zero_after_first_step_witness :
  (∃ st0 st r later,
     Wave1D.simulate_init three_point_grid = Ok st0 ∧
     for_each (Wave1D.time_step 1) st0 (seqZ 1 2) = Ok st ∧
     Wave1D.zero_ends (Wave1D.phi st) ∧
     Wave1D.simulate three_point_grid 2 1 = Ok r ∧
     Wave1D.phi_history r
       = Wave1D.phi_history three_point_grid ++ Wave1D.phi st0 :: later ∧
     Forall Wave1D.zero_ends later) ∧
  (∃ st0 st r later,
     Wave2D.simulate_init three_by_three_grid "ring" = Ok st0 ∧
     for_each (Wave2D.time_step 1) st0 (seqZ 1 2) = Ok st ∧
     has_shape (Z.to_nat (Wave2D.Ny three_by_three_grid))
       (Z.to_nat (Wave2D.Nx three_by_three_grid)) (Wave2D.phi st) ∧
     Wave2D.zero_edges (Z.to_nat (Wave2D.Ny three_by_three_grid))
       (Z.to_nat (Wave2D.Nx three_by_three_grid)) (Wave2D.phi st) ∧
     Wave2D.simulate three_by_three_grid 2 1 "ring" = Ok r ∧
     Wave2D.phi_history r
       = Wave2D.phi_history three_by_three_grid ++ Wave2D.phi st0 :: later ∧
     Forall (Wave2D.zero_edges (Z.to_nat (Wave2D.Ny three_by_three_grid))
               (Z.to_nat (Wave2D.Nx three_by_three_grid))) later) ∧
  (∃ st0 st r later,
     Wave1D.simulate_init two_point_grid = Ok st0 ∧
     for_each (Wave1D.time_step 10) st0 (seqZ 1 300) = Ok st ∧
     Wave1D.zero_ends (Wave1D.phi st) ∧
     Wave1D.simulate two_point_grid 300 10 = Ok r ∧
     Wave1D.phi_history r
       = Wave1D.phi_history two_point_grid ++ Wave1D.phi st0 :: later ∧
     Forall Wave1D.zero_ends later) ∧
  (∃ st0 st r later,
     Wave2D.simulate_init two_by_two_grid "gaussian" = Ok st0 ∧
     for_each (Wave2D.time_step 5) st0 (seqZ 1 150) = Ok st ∧
     has_shape (Z.to_nat (Wave2D.Ny two_by_two_grid))
       (Z.to_nat (Wave2D.Nx two_by_two_grid)) (Wave2D.phi st) ∧
     Wave2D.zero_edges (Z.to_nat (Wave2D.Ny two_by_two_grid))
       (Z.to_nat (Wave2D.Nx two_by_two_grid)) (Wave2D.phi st) ∧
     Wave2D.simulate two_by_two_grid 150 5 "gaussian" = Ok r ∧
     Wave2D.phi_history r
       = Wave2D.phi_history two_by_two_grid ++ Wave2D.phi st0 :: later ∧
     Forall (Wave2D.zero_edges (Z.to_nat (Wave2D.Ny two_by_two_grid))
               (Z.to_nat (Wave2D.Nx two_by_two_grid))) later).
Proof.
  destruct boundary_zero_after_first_step as (H1 & H2 & H3 & H4).
  split_and!.
  - apply (H1 R R_scalar R_numpy exact_pow2 three_point_grid 1%Z 2%Z);
      [exact three_point_grid_ok | lia | lia | right; by eexists].
  - eapply (H2 R R_scalar R_numpy exact_pow2 three_by_three_grid 1%Z 2%Z "ring");
      [exact three_by_three_grid_ok | lia | lia | reflexivity | reflexivity].
  - apply (H3 R R_scalar R_numpy two_point_grid 10%Z 300%Z);
      [exact two_point_grid_ok | lia | lia].
  - apply (H4 R R_scalar R_numpy two_by_two_grid 5%Z 150%Z "gaussian");
      [exact two_by_two_grid_ok | lia | lia | left; reflexivity].
Defined.




(** The energy of the ramp worked out, with the zero field before it:
    kinetic [½·4·405 = 810], potential [½·(63.75 + 117.75 + 4·405) = 900.75];
    the gradients at the centre cell are the centered differences
    [(8 − 3)/2] and [(9 − 2)/2]. *)
Example compute_energy_ramp :
  Wave2D.compute_energy three_by_three_grid ramp flat = Ok (6843 / 4).
Proof.
  rewrite (compute_energy_refines three_by_three_grid 3 3 ramp flat (2 * 2)
             ramp_shape flat_shape ltac:(lia) ltac:(lia) eq_refl).
  apply f_equal.
  unfold Wave2D.energy_spec, Wave2D.sum_cells, Wave2D.difference_quotient,
    Wave2D.at2, cell, sq.
  simpl. change (IZR (10 ^ Z.of_nat 1)) with 10. lra.
Qed.


(** The claim C7 as stated fails: a fit that does not converge is not
    reported.  [analyze_stability] returns normally, with the raw series
    drawn in place of the fit, and the figure it returns is the one it
    returns when the fit fails on a fault of another kind. *)
Lemma fit_failure_not_reported :
  ∃ fig,
    Dispersion.analyze_stability never_converges refuse_arrays no_curves
      (Some four_samples) = Ok fig ∧
    Dispersion.analyze_stability faulty_fit refuse_arrays no_curves
      (Some four_samples) = Ok fig ∧
    Dispersion.decay_panel fig
      = [Dispersion.Plot
           [of_int 0 ⊗ decimal 1 2; of_int 1 ⊗ decimal 1 2;
            of_int 2 ⊗ decimal 1 2; of_int 3 ⊗ decimal 1 2]
           [1; 1 / 2; 1 / 4; 1 / 8] "b-" (Dispersion.Text "Simulation")] ∧
    Dispersion.frequency_panel fig = [].
Proof.
  destruct (cfl_scan_ok (F:=R)) as (fs & _ & Hscan).
  unfold Dispersion.analyze_stability. rewrite Hscan. by eexists.
Qed.
End Witnesses.

(** * Further properties of the engines and the analyzer *)

(** ** The steps a run saves *)

Lemma saved_divide se t : se ≠ 0 → saved se t = true ↔ (Z.abs se | t).
Proof.
  intros Hse. unfold saved. rewrite Z.eqb_eq, Z.mod_divide by done.
  symmetry. apply Z.divide_abs_l.
Qed.

(** The steps [1 ≤ t ≤ Nt] with [t % save_every == 0] are the multiples
    [k·|save_every|] for [1 ≤ k ≤ Nt // |save_every|]. *)
Lemma saved_steps se Nt :
  se ≠ 0 →
  filter (λ t, saved se t = true) (seqZ 1 Nt)
    = (λ k, k * Z.abs se) <$> seqZ 1 (Nt `div` Z.abs se).
Proof.
  intros Hse. assert (0 < Z.abs se) as Ha by lia.
  destruct (Z.le_gt_cases Nt 0) as [Hle|Hgt].
  { assert (Nt `div` Z.abs se ≤ 0) by (apply Z.div_le_upper_bound; lia).
    unfold seqZ. by replace (Z.to_nat Nt) with 0%nat by lia;
      replace (Z.to_nat _) with 0%nat by lia. }
  rewrite <- (Z2Nat.id Nt) by lia. generalize (Z.to_nat Nt) as n. clear Nt Hgt.
  induction n as [|n IH]; [by rewrite Z.div_0_l by lia|].
  rewrite Nat2Z.inj_succ, <- Z.add_1_r.
  rewrite seqZ_app by lia. rewrite filter_app, IH. clear IH.
  change (seqZ (1 + Z.of_nat n) 1) with [1 + Z.of_nat n].
  set (a := Z.abs se) in *. set (m := Z.of_nat n).
  assert (0 ≤ m) as Hm by lia.
  pose proof (Z.div_mod m a ltac:(lia)) as Hdm.
  pose proof (Z.mod_pos_bound m a Ha) as Hmb.
  assert (0 ≤ m `div` a) as Hq by (apply Z.div_pos; lia).
  destruct (decide (saved se (1 + m) = true)) as [Hs|Hs].
  - rewrite (filter_cons_True _ _ []) by done. rewrite filter_nil.
    apply saved_divide in Hs as [k Hk]; [|done]. fold a in Hk.
    assert (k = m `div` a + 1) as Hk1.
    { assert (m `div` a < k) by nia. assert (k < m `div` a + 2) by nia. lia. }
    assert ((m + 1) `div` a = m `div` a + 1) as ->.
    { symmetry. apply (Z.div_unique_pos _ _ _ 0); [lia|]. subst k. lia. }
    rewrite seqZ_app by lia. rewrite fmap_app. f_equal.
    change (seqZ (1 + m `div` a) 1) with [1 + m `div` a]. simpl. f_equal. nia.
  - rewrite (filter_cons_False _ _ []) by done. rewrite filter_nil, app_nil_r.
    assert ((m + 1) `div` a = m `div` a) as ->; [|done].
    symmetry. apply (Z.div_unique_pos _ _ _ (m `mod` a + 1)); [|lia].
    split; [lia|]. destruct (decide (m `mod` a + 1 = a)) as [Heq|]; [|lia].
    exfalso. apply Hs. apply saved_divide; [done|]. fold a.
    exists (m `div` a + 1). lia.
Qed.

Section RecordFacts1D.
Import Wave1D.
Context {F : Type} `{!Scalar F, !NumPy F, !FloatPow F}.

Lemma time_loop1d_lengths se ts (st0 st : Frame F) :
  se ≠ 0 → frame_ok st0 →
  for_each (time_step se) st0 ts = Ok st →
  ∃ snaps, phi_history (obj st) = phi_history (obj st0) ++ snaps ∧
           Forall (λ s, length s = Z.to_nat (Nx (obj st0))) snaps.
Proof.
  intros Hse. revert st0. induction ts as [|t ts IH]; intros st0 Hok; simpl.
  - intros [= <-]. exists []. by rewrite app_nil_r.
  - destruct (time_step1d_spec se st0 t Hse Hok) as (next & m & _ & Hl & _ & _ & ->).
    simpl. intros Hrun. apply IH in Hrun as (snaps & Hph & Hall).
    + simpl in Hph, Hall. rewrite <- app_assoc in Hph.
      eexists. split; [exact Hph|]. apply Forall_app. split; [|done].
      destruct (saved se t); by repeat constructor.
    + destruct Hok as (Hg & Hphi & Hprev & Hdef). done.
Qed.



(** What a run adds to the three records. *)
Lemma simulate1d_records (self : VGTSimulation1D F) Nt se :
  se ≠ 0 → grid_ok self → step_defined self →
  ∃ r snaps amps,
    simulate self Nt se = Ok r ∧ clear r = clear self ∧
    phi_history r = phi_history self ++ gaussian_pulse self None (of_int 1) :: snaps ∧
    time_points r =
      time_points self ++
        of_int 0 :: ((λ k, of_int (k * Z.abs se) ⊗ dt self)
                       <$> seqZ 1 (Nt `div` Z.abs se)) ∧
    max_amplitude r = max_amplitude self ++ amps ∧
    length snaps = Z.to_nat (Nt `div` Z.abs se) ∧
    length amps = S (Z.to_nat Nt) ∧
    Forall (λ s, length s = Z.to_nat (Nx self))
      (gaussian_pulse self None (of_int 1) :: snaps) ∧
    Forall zero_ends snaps.
Proof.
  intros Hse Hg Hdef.
  destruct (simulate1d_init_total self Hg Hdef) as (st0 & m & Hinit & Hok & Hphi0 & Hobj).
  unfold simulate. rewrite Hinit. simpl.
  destruct (time_loop1d_spec se st0 (seqZ 1 Nt) Hse Hok) as
    (st & snaps & tps & amps & Hrun & _ & Hcl & Hph & Htp & Hma & Htps & Hlen & Hla & Hze & _).
  destruct (time_loop1d_lengths se _ _ _ Hse Hok Hrun) as (snaps' & Hph' & Hall).
  rewrite Hph in Hph'. apply app_inv_head in Hph' as <-.
  rewrite Hrun. simpl. exists (obj st), snaps, (m :: amps).
  rewrite saved_steps in Htps by done. rewrite <- list_fmap_compose in Htps.
  assert (Nx (obj st0) = Nx self ∧ dt (obj st0) = dt self) as [HNx Hdt]
    by (by rewrite Hobj).
  rewrite Hph, Htp, Hma, Hobj. simpl. rewrite <- !app_assoc. simpl.
  split_and!; try done.
  - by rewrite Hcl, Hobj.
  - by rewrite Hphi0.
  - rewrite Htps, Hdt. done.
  - by rewrite Hlen, Htps, length_fmap, length_seqZ.
  - by rewrite Hla, length_seqZ.
  - constructor; [|by rewrite <- HNx].
    destruct Hok as (_ & Hl & _). by rewrite <- Hphi0, Hl, HNx.
Qed.
End RecordFacts1D.

Section RecordFacts2D.
Import Wave2D.
Context {F : Type} `{!Scalar F, !NumPy F, !FloatPow F}.

Lemma frame2d_ok_step (st : Frame F) o next :
  frame_ok st → clear o = clear (obj st) →
  has_shape (Z.to_nat (Ny (obj st))) (Z.to_nat (Nx (obj st))) next →
  frame_ok {| obj := o; phi := next; phi_prev := phi st |}.
Proof.
  intros (Hg & Hphi & Hprev & Hpow) Ho Hs.
  destruct (clear2d_dims _ _ Ho) as (HNx' & HNy' & _).
  unfold frame_ok, grid_ok. simpl. rewrite HNx', HNy', (powers2d_clear _ _ Ho).
  change (X o) with (X (clear o)). change (Y o) with (Y (clear o)). rewrite Ho.
  destruct Hg as (? & ? & ? & ?). done.
Qed.

Lemma time_loop2d_shapes se ts (st0 st : Frame F) :
  se ≠ 0 → frame_ok st0 →
  for_each (time_step se) st0 ts = Ok st →
  ∃ snaps, phi_history (obj st) = phi_history (obj st0) ++ snaps ∧
           Forall (has_shape (Z.to_nat (Ny (obj st0))) (Z.to_nat (Nx (obj st0)))) snaps.
Proof.
  intros Hse. revert st0. induction ts as [|t ts IH]; intros st0 Hok; simpl.
  - intros [= <-]. exists []. by rewrite app_nil_r.
  - destruct (time_step2d_spec se st0 t Hse Hok) as (next & _ & Hs & _ & Hcase).
    destruct (saved se t).
    + destruct Hcase as (e & _ & ->). simpl. intros Hrun.
      apply IH in Hrun as (snaps & Hph & Hall); [|by apply frame2d_ok_step].
      simpl in Hph, Hall. rewrite <- app_assoc in Hph.
      eexists. split; [exact Hph|]. by constructor.
    + rewrite Hcase. simpl. intros Hrun.
      apply IH in Hrun as (snaps & Hph & Hall); [|by apply frame2d_ok_step].
      by exists snaps.
Qed.

(** What a run adds to the three records. *)
Lemma simulate2d_records (self : VGTSimulation2D F) Nt se ty phi0 p :
  se ≠ 0 → grid_ok self → initial_field self ty = Ok phi0 → powers self = Ok p →
  ∃ r snaps e0 ens,
    simulate self Nt se ty = Ok r ∧ clear r = clear self ∧
    compute_energy self phi0 phi0 = Ok e0 ∧
    phi_history r = phi_history self ++ phi0 :: snaps ∧
    time_points r =
      time_points self ++
        of_int 0 :: ((λ k, of_int (k * Z.abs se) ⊗ dt self)
                       <$> seqZ 1 (Nt `div` Z.abs se)) ∧
    energy_history r = energy_history self ++ e0 :: ens ∧
    length snaps = Z.to_nat (Nt `div` Z.abs se) ∧
    Forall2 (energy_of self) ens snaps ∧
    Forall (has_shape (Z.to_nat (Ny self)) (Z.to_nat (Nx self))) (phi0 :: snaps) ∧
    Forall (zero_edges (Z.to_nat (Ny self)) (Z.to_nat (Nx self))) snaps.
Proof.
  intros Hse Hg Hphi0 Hp. destruct (powers2d_omega0 _ _ Hp) as [w2 Hw].
  destruct (simulate2d_init_spec self ty phi0 w2 Hphi0 Hg Hw) as (e & He & Hinit & Hs0).
  unfold simulate. rewrite Hinit. simpl.
  match goal with |- context [for_each _ ?s _] => set (st0 := s) end.
  assert (frame_ok st0) as Hok by (split_and!; try done; by exists p).
  destruct (time_loop2d_spec se st0 (seqZ 1 Nt) Hse Hok) as
    (st & snaps & tps & ens & Hrun & _ & Hcl & Hph & Htp & Hen & Htps & Hlen & Hal & Hze & _).
  destruct (time_loop2d_shapes se _ _ _ Hse Hok Hrun) as (snaps' & Hph' & Hall).
  rewrite Hph in Hph'. apply app_inv_head in Hph' as <-.
  rewrite Hrun. simpl in *. exists (obj st), snaps, e, ens.
  rewrite saved_steps in Htps by done. rewrite <- list_fmap_compose in Htps.
  rewrite Hph, Htp, Hen, <- !app_assoc. simpl. split_and!; try done.
  - by rewrite Htps.
  - by rewrite Hlen, Htps, length_fmap, length_seqZ.
  - by constructor.
Qed.
End RecordFacts2D.

(** ** What a run records *)

Section RunRecords.
Context {F : Type} `{!Scalar F, !NumPy F, !FloatPow F}.


(** X2. The time stamps of a run that raises nothing, in 1D and in 2D: the
    first is the integer [0], and the [k]-th saved step is stamped with the
    product [(k·|save_every|)·dt] of the step number and the time step, not
    with an accumulated sum. *)
Theorem simulate_time_points :
  (∀ (self : Wave1D.VGTSimulation1D F) (Nt save_every : Z),
     Wave1D.grid_ok self → save_every ≠ 0 → Wave1D.step_defined self →
     ∃ r, Wave1D.simulate self Nt save_every = Ok r ∧
       Wave1D.time_points r =
         Wave1D.time_points self ++
           of_int 0 :: ((λ k, of_int (k * Z.abs save_every) ⊗ Wave1D.dt self)
                          <$> seqZ 1 (Nt `div` Z.abs save_every))) ∧
  (∀ (self : Wave2D.VGTSimulation2D F) (Nt save_every : Z) (initial_type : string)
     phi0 p,
     Wave2D.grid_ok self → save_every ≠ 0 →
     Wave2D.initial_field self initial_type = Ok phi0 →
     Wave2D.powers self = Ok p →
     ∃ r, Wave2D.simulate self Nt save_every initial_type = Ok r ∧
       Wave2D.time_points r =
         Wave2D.time_points self ++
           of_int 0 :: ((λ k, of_int (k * Z.abs save_every) ⊗ Wave2D.dt self)
                          <$> seqZ 1 (Nt `div` Z.abs save_every))).
Proof.
  split.
  - intros self Nt se Hg Hse Hdef.
    destruct (simulate1d_records self Nt se Hse Hg Hdef) as
      (r & snaps & amps & Hrun & _ & _ & Htp & _). by exists r.
  - intros self Nt se ty phi0 p Hg Hse Hphi0 Hp.
    destruct (simulate2d_records self Nt se ty phi0 p Hse Hg Hphi0 Hp) as
      (r & snaps & e0 & ens & Hrun & _ & _ & _ & Htp & _). by exists r.
Qed.


End RunRecords.

(** ** The snapshots are the states of the recurrence *)

Lemma for_each_app {St A} (body : St → A → result St) st (xs ys : list A) :
  for_each body st (xs ++ ys) = for_each body st xs ≫= λ st', for_each body st' ys.
Proof.
  revert st. induction xs as [|a xs IH]; intros st; simpl; [done|].
  destruct (body st a); simpl; [apply IH | done].
Qed.

Lemma seqZ_snoc (n : nat) : seqZ 1 (Z.of_nat (S n)) = seqZ 1 (Z.of_nat n) ++ [Z.of_nat (S n)].
Proof.
  rewrite Nat2Z.inj_succ, <- Z.add_1_r, seqZ_app by lia.
  f_equal. unfold seqZ. simpl. f_equal. lia.
Qed.

Section FieldFacts1D.
Import Wave1D.
Context {F : Type} `{!Scalar F, !NumPy F, !FloatPow F}.

Lemma advance1d_clear (s s' : VGTSimulation1D F) :
  clear s = clear s' → advance s = advance s'.
Proof. intros H. change (advance (clear s) = advance (clear s')). by rewrite H. Qed.

Lemma fields_after1d_clear (s s' : VGTSimulation1D F) n :
  clear s = clear s' → fields_after s n = fields_after s' n.
Proof.
  intros H. induction n as [|n IH]; simpl.
  - change (gaussian_pulse s) with (gaussian_pulse (clear s)).
    change (gaussian_pulse s') with (gaussian_pulse (clear s')). by rewrite H.
  - by rewrite IH, (advance1d_clear _ _ H).
Qed.

(** The time loop against the bare recurrence: after [n] steps the frame
    holds [fields_after n], each saved step [t] contributed the field of
    step [t], and each step its peak. *)
Lemma time_loop1d_fields se (self : VGTSimulation1D F) (st0 : Frame F) (n : nat) :
  se ≠ 0 → frame_ok st0 → clear (obj st0) = clear self →
  fields_after self 0 = Ok (phi st0, phi_prev st0) →
  ∃ st snaps amps,
    for_each (time_step se) st0 (seqZ 1 (Z.of_nat n)) = Ok st ∧
    frame_ok st ∧ clear (obj st) = clear self ∧
    fields_after self n = Ok (phi st, phi_prev st) ∧
    phi_history (obj st) = phi_history (obj st0) ++ snaps ∧
    max_amplitude (obj st) = max_amplitude (obj st0) ++ amps ∧
    Forall2 (λ snap t, ∃ prev, fields_after self (Z.to_nat t) = Ok (snap, prev))
      snaps (filter (λ t, saved se t = true) (seqZ 1 (Z.of_nat n))) ∧
    Forall2 (λ m t, ∃ phi prev, fields_after self (Z.to_nat t) = Ok (phi, prev) ∧
                                np_max (fabs <$> phi) = Ok m)
      amps (seqZ 1 (Z.of_nat n)).
Proof.
  intros Hse Hok0 Hcl0 H0. induction n as [|n IH].
  - exists st0, [], []. rewrite !app_nil_r. split_and!; try done; constructor.
  - destruct IH as (st & snaps & amps & Hrun & Hok & Hcl & Hf & Hph & Hma & Hsn & Ham).
    rewrite seqZ_snoc, for_each_app, Hrun. simpl.
    destruct (time_step1d_spec se st (Z.of_nat (S n)) Hse Hok)
      as (next & m & Hadv & Hl & _ & Hm & ->).
    assert (fields_after self (S n) = Ok (next, phi st)) as Hf'.
    { simpl. rewrite Hf. simpl. by rewrite <- (advance1d_clear _ _ Hcl), Hadv. }
    eexists _, (snaps ++ (if saved se (Z.of_nat (S n)) then [next] else [])), (amps ++ [m]).
    split; [done|]. simpl. rewrite Hph, Hma, <- !app_assoc.
    destruct Hok as (Hg & Hphi & Hprev & Hdef).
    split_and!; try done.
    + rewrite filter_app. apply Forall2_app; [done|].
      destruct (saved se (Z.of_nat (S n))) eqn:Hsv.
      * rewrite (filter_cons_True _ _ []) by done. rewrite filter_nil.
        constructor; [|constructor]. exists (phi st). by rewrite Nat2Z.id.
      * rewrite (filter_cons_False _ _ []) by (by rewrite Hsv). rewrite filter_nil.
        constructor.
    + apply Forall2_app; [done|]. constructor; [|constructor].
      exists next, (phi st). by rewrite Nat2Z.id.
Qed.

Lemma simulate1d_fields (self : VGTSimulation1D F) Nt se :
  se ≠ 0 → grid_ok self → step_defined self →
  ∃ r snaps amps,
    simulate self Nt se = Ok r ∧
    phi_history r = phi_history self ++ snaps ∧
    max_amplitude r = max_amplitude self ++ amps ∧
    Forall2 (λ snap t, ∃ prev, fields_after self (Z.to_nat t) = Ok (snap, prev))
      snaps (0 :: ((λ k, k * Z.abs se) <$> seqZ 1 (Nt `div` Z.abs se))) ∧
    Forall2 (λ m t, ∃ phi prev, fields_after self (Z.to_nat t) = Ok (phi, prev) ∧
                                np_max (fabs <$> phi) = Ok m)
      amps (seqZ 0 (1 + Z.of_nat (Z.to_nat Nt))).
Proof.
  intros Hse Hg Hdef.
  destruct (simulate1d_init_total self Hg Hdef) as (st0 & m & Hinit & Hok & Hphi0 & Hobj).
  assert (np_max (fabs <$> phi st0) = Ok m ∧ phi_prev st0 = phi st0) as [Hm Hprev0].
  { unfold simulate_init in Hinit.
    destruct (np_max _) as [m'|] eqn:Hm'; [|done]. simpl in Hinit.
    injection Hinit as <-. simpl in Hobj |- *.
    apply (f_equal max_amplitude) in Hobj. simpl in Hobj.
    apply app_inv_head in Hobj. by injection Hobj as ->. }
  assert (seqZ 1 Nt = seqZ 1 (Z.of_nat (Z.to_nat Nt))) as HNt.
  { unfold seqZ. by rewrite Nat2Z.id. }
  destruct (time_loop1d_fields se self st0 (Z.to_nat Nt)) as
    (st & snaps & amps & Hrun & _ & _ & _ & Hph & Hma & Hsn & Ham); try done.
  { by rewrite Hobj. }
  { simpl. by rewrite Hprev0, Hphi0. }
  unfold simulate. rewrite Hinit. simpl. rewrite HNt, Hrun. simpl.
  exists (obj st), (phi st0 :: snaps), (m :: amps).
  rewrite Hph, Hma, Hobj. simpl. rewrite <- !app_assoc. simpl.
  split_and!; try done.
  - constructor.
    + exists (phi st0). simpl. by rewrite Hphi0.
    + rewrite <- HNt, saved_steps in Hsn by done. done.
  - rewrite seqZ_cons by lia. constructor.
    + exists (phi st0), (phi st0). split; [|done]. simpl. by rewrite Hphi0.
    + replace (Z.succ 0) with 1 by lia.
      by replace (Z.pred (1 + Z.of_nat (Z.to_nat Nt))) with (Z.of_nat (Z.to_nat Nt)) by lia.
Qed.
End FieldFacts1D.

Section FieldFacts2D.
Import Wave2D.
Context {F : Type} `{!Scalar F, !NumPy F, !FloatPow F}.

Lemma advance2d_clear (s s' : VGTSimulation2D F) :
  clear s = clear s' → advance s = advance s'.
Proof. intros H. change (advance (clear s) = advance (clear s')). by rewrite H. Qed.

Lemma time_loop2d_fields se ty (self : VGTSimulation2D F) (st0 : Frame F) (n : nat) :
  se ≠ 0 → frame_ok st0 → clear (obj st0) = clear self →
  fields_after self ty 0 = Ok (phi st0, phi_prev st0) →
  ∃ st snaps ens,
    for_each (time_step se) st0 (seqZ 1 (Z.of_nat n)) = Ok st ∧
    frame_ok st ∧ clear (obj st) = clear self ∧
    fields_after self ty n = Ok (phi st, phi_prev st) ∧
    phi_history (obj st) = phi_history (obj st0) ++ snaps ∧
    energy_history (obj st) = energy_history (obj st0) ++ ens ∧
    Forall2 (λ snap t, ∃ prev, fields_after self ty (Z.to_nat t) = Ok (snap, prev))
      snaps (filter (λ t, saved se t = true) (seqZ 1 (Z.of_nat n))) ∧
    Forall2 (λ e t, ∃ snap prev, fields_after self ty (Z.to_nat t) = Ok (snap, prev) ∧
                                 compute_energy self snap prev = Ok e)
      ens (filter (λ t, saved se t = true) (seqZ 1 (Z.of_nat n))).
Proof.
  intros Hse Hok0 Hcl0 H0. induction n as [|n IH].
  - exists st0, [], []. rewrite !app_nil_r. split_and!; try done; constructor.
  - destruct IH as (st & snaps & ens & Hrun & Hok & Hcl & Hf & Hph & Hen & Hsn & Hes).
    rewrite seqZ_snoc, for_each_app, Hrun. simpl.
    destruct (time_step2d_spec se st (Z.of_nat (S n)) Hse Hok)
      as (next & Hadv & Hs & _ & Hcase).
    assert (fields_after self ty (S n) = Ok (next, phi st)) as Hf'.
    { simpl. rewrite Hf. simpl. by rewrite <- (advance2d_clear _ _ Hcl), Hadv. }
    rewrite filter_app.
    destruct (saved se (Z.of_nat (S n))) eqn:Hsv.
    + destruct Hcase as (e & He & ->).
      rewrite (filter_cons_True _ _ []) by done. rewrite filter_nil.
      eexists _, (snaps ++ [next]), (ens ++ [e]). split; [done|]. simpl.
      rewrite Hph, Hen, <- !app_assoc. split_and!; try done.
      * by apply frame2d_ok_step.
      * apply Forall2_app; [done|]. constructor; [|constructor].
        exists (phi st). by rewrite Nat2Z.id.
      * apply Forall2_app; [done|]. constructor; [|constructor].
        exists next, (phi st). rewrite Nat2Z.id. split; [done|].
        by rewrite <- (compute_energy_clear _ _ Hcl).
    + rewrite Hcase. rewrite (filter_cons_False _ _ []) by (by rewrite Hsv).
      rewrite filter_nil, !app_nil_r.
      eexists _, snaps, ens. split; [done|]. simpl. split_and!; try done.
      by apply frame2d_ok_step.
Qed.

Lemma simulate2d_fields (self : VGTSimulation2D F) Nt se ty phi0 p :
  se ≠ 0 → grid_ok self → initial_field self ty = Ok phi0 → powers self = Ok p →
  ∃ r snaps ens,
    simulate self Nt se ty = Ok r ∧
    phi_history r = phi_history self ++ snaps ∧
    energy_history r = energy_history self ++ ens ∧
    Forall2 (λ snap t, ∃ prev, fields_after self ty (Z.to_nat t) = Ok (snap, prev))
      snaps (0 :: ((λ k, k * Z.abs se) <$> seqZ 1 (Nt `div` Z.abs se))) ∧
    Forall2 (λ e t, ∃ snap prev, fields_after self ty (Z.to_nat t) = Ok (snap, prev) ∧
                                 compute_energy self snap prev = Ok e)
      ens (0 :: ((λ k, k * Z.abs se) <$> seqZ 1 (Nt `div` Z.abs se))).
Proof.
  intros Hse Hg Hphi0 Hp. destruct (powers2d_omega0 _ _ Hp) as [w2 Hw].
  destruct (simulate2d_init_spec self ty phi0 w2 Hphi0 Hg Hw) as (e & He & Hinit & Hs0).
  unfold simulate. rewrite Hinit. simpl.
  match goal with |- context [for_each _ ?s _] => set (st0 := s) end.
  assert (frame_ok st0) as Hok by (split_and!; try done; by exists p).
  assert (seqZ 1 Nt = seqZ 1 (Z.of_nat (Z.to_nat Nt))) as HNt.
  { unfold seqZ. by rewrite Nat2Z.id. }
  destruct (time_loop2d_fields se ty self st0 (Z.to_nat Nt)) as
    (st & snaps & ens & Hrun & _ & _ & _ & Hph & Hen & Hsn & Hes); try done.
  { simpl. by rewrite Hphi0. }
  rewrite HNt, Hrun. simpl in *. exists (obj st), (phi0 :: snaps), (e :: ens).
  rewrite Hph, Hen, <- !app_assoc. simpl.
  rewrite <- HNt, saved_steps in Hsn, Hes by done.
  split_and!; try done.
  - constructor; [|done]. exists phi0. simpl. by rewrite Hphi0.
  - constructor; [|done]. exists phi0, phi0. simpl. by rewrite Hphi0.
Qed.
End FieldFacts2D.

Section SnapshotContents.
Context {F : Type} `{!Scalar F, !NumPy F, !FloatPow F}.

(** X5. The history of a 1D run that raises nothing (no interior point, or
    the four powers of the recurrence defined) holds the states of the bare
    recurrence:
    the [k]-th snapshot added is the field after exactly [k·|save_every|]
    leapfrog steps from the Gaussian pulse (taken with [phi_prev = phi], that
    is with zero initial velocity), and the [n]-th peak amplitude added is
    [max |phi|] of the field after [n] steps. *)
Theorem simulate1d_snapshots_are_steps
    (self : Wave1D.VGTSimulation1D F) (Nt save_every : Z) :
  Wave1D.grid_ok self → save_every ≠ 0 → Wave1D.step_defined self →
  ∃ r, Wave1D.simulate self Nt save_every = Ok r ∧
    (∀ k : nat, (k ≤ Z.to_nat (Nt `div` Z.abs save_every))%nat →
       ∃ snap prev,
         Wave1D.phi_history r !! (length (Wave1D.phi_history self) + k)%nat
           = Some snap ∧
         Wave1D.fields_after self (k * Z.to_nat (Z.abs save_every))
           = Ok (snap, prev)) ∧
    (∀ n : nat, (n ≤ Z.to_nat Nt)%nat →
       ∃ phi prev m,
         Wave1D.fields_after self n = Ok (phi, prev) ∧
         np_max (fabs <$> phi) = Ok m ∧
         Wave1D.max_amplitude r !! (length (Wave1D.max_amplitude self) + n)%nat
           = Some m).
Proof.
  intros Hg Hse Hdef.
  destruct (simulate1d_fields self Nt save_every Hse Hg Hdef) as
    (r & snaps & amps & Hrun & Hph & Hma & Hsn & Ham).
  exists r. split; [done|]. rewrite Hph, Hma. split.
  - intros k Hk. rewrite lookup_app_r, Nat.add_sub' by lia.
    set (steps := 0 :: _) in Hsn.
    assert (steps !! k = Some (Z.of_nat k * Z.abs save_every)) as Hstep.
    { subst steps. destruct k as [|k]; [done|]. simpl.
      rewrite list_lookup_fmap, lookup_seqZ_lt by lia. simpl. f_equal. lia. }
    destruct (Forall2_lookup_r _ _ _ _ _ Hsn Hstep) as (snap & Hsnap & prev & Hf).
    exists snap, prev. split; [done|].
    by replace (k * Z.to_nat (Z.abs save_every))%nat
      with (Z.to_nat (Z.of_nat k * Z.abs save_every)) by lia.
  - intros n Hn. rewrite lookup_app_r, Nat.add_sub' by lia.
    assert (seqZ 0 (1 + Z.of_nat (Z.to_nat Nt)) !! n = Some (Z.of_nat n)) as Hstep.
    { rewrite lookup_seqZ_lt by lia. f_equal; lia. }
    destruct (Forall2_lookup_r _ _ _ _ _ Ham Hstep) as (m & Hm & phi & prev & Hf & Hmax).
    rewrite Nat2Z.id in Hf. by exists phi, prev, m.
Qed.

(** X6. The history of a 2D run that raises nothing (initial field and
    powers defined) holds the states of the bare recurrence, and the energy
    record their energies: the [k]-th snapshot added is the field
    after exactly [k·|save_every|] steps from the initial field, and the
    [k]-th energy added is [compute_energy] of that field and the field one
    step before it (of the initial field and itself for [k = 0]). *)
Theorem simulate2d_snapshots_are_steps
    (self : Wave2D.VGTSimulation2D F) (Nt save_every : Z) (initial_type : string)
    (phi0 : array2 F) p :
  Wave2D.grid_ok self → save_every ≠ 0 →
  Wave2D.initial_field self initial_type = Ok phi0 →
  Wave2D.powers self = Ok p →
  ∃ r, Wave2D.simulate self Nt save_every initial_type = Ok r ∧
    ∀ k : nat, (k ≤ Z.to_nat (Nt `div` Z.abs save_every))%nat →
      ∃ snap prev e,
        Wave2D.fields_after self initial_type (k * Z.to_nat (Z.abs save_every))
          = Ok (snap, prev) ∧
        Wave2D.phi_history r !! (length (Wave2D.phi_history self) + k)%nat
          = Some snap ∧
        Wave2D.compute_energy self snap prev = Ok e ∧
        Wave2D.energy_history r !! (length (Wave2D.energy_history self) + k)%nat
          = Some e.
Proof.
  intros Hg Hse Hphi0 Hp.
  destruct (simulate2d_fields self Nt save_every initial_type phi0 p Hse Hg Hphi0 Hp) as
    (r & snaps & ens & Hrun & Hph & Hen & Hsn & Hes).
  exists r. split; [done|]. rewrite Hph, Hen.
  intros k Hk. rewrite !lookup_app_r, !Nat.add_sub' by lia.
  set (steps := 0 :: _) in Hsn, Hes.
  assert (steps !! k = Some (Z.of_nat k * Z.abs save_every)) as Hstep.
  { subst steps. destruct k as [|k]; [done|]. simpl.
    rewrite list_lookup_fmap, lookup_seqZ_lt by lia. simpl. f_equal. lia. }
  destruct (Forall2_lookup_r _ _ _ _ _ Hsn Hstep) as (snap & Hsnap & prev & Hf).
  destruct (Forall2_lookup_r _ _ _ _ _ Hes Hstep) as (e & He & snap' & prev' & Hf' & Hce).
  rewrite Hf in Hf'. injection Hf' as <- <-.
  exists snap, prev, e. split_and!; try done.
  by replace (k * Z.to_nat (Z.abs save_every))%nat
    with (Z.to_nat (Z.of_nat k * Z.abs save_every)) by lia.
Qed.
End SnapshotContents.

(** ** The five-point stencil *)

Lemma lookup_slice {A} (start stop : option Z) (a : list A) (i : nat) :
  slice start stop a !! i =
    let lo := from_option (clip_index (length a)) 0%nat start in
    let hi := from_option (clip_index (length a)) (length a) stop in
    if decide (i < hi - lo)%nat then a !! (lo + i)%nat else None.
Proof.
  unfold slice. simpl. case_decide.
  - by rewrite lookup_take_lt, lookup_drop by done.
  - by rewrite lookup_take_ge by lia.
Qed.

Lemma cell_slice2 {A} ny nx (a : list (list A)) r0 r1 c0 c1 (i j : nat) :
  has_shape ny nx a →
  cell (slice2 r0 r1 c0 c1 a) i j =
    let rlo := from_option (clip_index ny) 0%nat r0 in
    let rhi := from_option (clip_index ny) ny r1 in
    let clo := from_option (clip_index nx) 0%nat c0 in
    let chi := from_option (clip_index nx) nx c1 in
    if decide (i < rhi - rlo ∧ j < chi - clo)%nat
    then cell a (rlo + i) (clo + j) else None.
Proof.
  intros Hs. unfold cell, slice2. rewrite list_lookup_fmap, lookup_slice, (proj1 Hs).
  simpl. destruct (decide (i < _ - _)%nat) as [Hi|Hi].
  - destruct (a !! _) as [row|] eqn:Hrow; simpl.
    + rewrite lookup_slice, (has_shape_lookup _ _ _ _ _ Hs Hrow). simpl.
      repeat case_decide; try done; lia.
    + by case_decide.
  - simpl. case_decide; [lia | done].
Qed.

Lemma from_option_clip_le (n d : nat) (i : option Z) :
  (d ≤ n)%nat → (from_option (clip_index n) d i ≤ n)%nat.
Proof. intros Hd. destruct i as [i|]; [|done]. simpl. unfold clip_index. lia. Qed.

Lemma has_shape_slice2 {A} ny nx (a : list (list A)) r0 r1 c0 c1 :
  has_shape ny nx a →
  has_shape (from_option (clip_index ny) ny r1 - from_option (clip_index ny) 0%nat r0)
            (from_option (clip_index nx) nx c1 - from_option (clip_index nx) 0%nat c0)
            (slice2 r0 r1 c0 c1 a).
Proof.
  intros [Hlen Hrows]. unfold slice2, slice. split.
  - rewrite length_fmap, length_take, length_drop, Hlen.
    pose proof (from_option_clip_le ny ny r1 ltac:(lia)). lia.
  - apply Forall_fmap, Forall_take, Forall_drop.
    eapply Forall_impl; [done|]. intros row Hr. simpl.
    rewrite length_take, length_drop, Hr.
    pose proof (from_option_clip_le nx nx c1 ltac:(lia)). lia.
Qed.

Lemma cell_set_interior {A} ny nx (v a : list (list A)) (i j : nat) :
  has_shape ny nx a → has_shape (ny - 2) (nx - 2) v →
  (i < ny)%nat → (j < nx)%nat →
  cell (set_interior v a) i j =
    if decide (1 ≤ i ∧ i + 1 < ny ∧ 1 ≤ j ∧ j + 1 < nx)%nat
    then cell v (i - 1) (j - 1) else cell a i j.
Proof.
  intros Ha Hv Hi Hj. unfold set_interior, cell.
  set (rows := zip_with _ _ _).
  assert (length rows = (ny - 2)%nat) as Hlr.
  { unfold rows. rewrite length_zip_with, (proj1 Hv).
    unfold slice. rewrite length_take, length_drop, (proj1 Ha). simpl.
    unfold clip_index. simpl. lia. }
  destruct (decide (1 ≤ i ∧ i + 1 < ny)%nat) as [Hin|Hout].
  - rewrite list_lookup_inserts by (rewrite ?Hlr, ?(proj1 Ha); lia).
    unfold rows. rewrite lookup_zip_with.
    destruct (lookup_lt_is_Some_2 v (i - 1)) as [vr Hvr]; [rewrite (proj1 Hv); lia|].
    rewrite Hvr. simpl. rewrite lookup_slice, (proj1 Ha). simpl.
    unfold clip_index. simpl.
    destruct (lookup_lt_is_Some_2 a i) as [ar Har]; [rewrite (proj1 Ha); lia|].
    case_decide; [|lia].
    replace (Z.to_nat _ + (i - 1))%nat with i by lia. rewrite Har. simpl.
    pose proof (has_shape_lookup _ _ _ _ _ Hv Hvr) as Hlv.
    pose proof (has_shape_lookup _ _ _ _ _ Ha Har) as Hla.
    destruct (decide (1 ≤ j ∧ j + 1 < nx)%nat) as [Hjin|Hjout].
    + rewrite list_lookup_inserts by lia. case_decide; [done|lia].
    + case_decide; [lia|].
      destruct (decide (j < 1)%nat).
      * by rewrite list_lookup_inserts_lt by lia.
      * by rewrite list_lookup_inserts_ge by lia.
  - case_decide; [lia|].
    destruct (decide (i < 1)%nat).
    + by rewrite list_lookup_inserts_lt by lia.
    + by rewrite list_lookup_inserts_ge by lia.
Qed.

Lemma cell_slice2_at {A} ny nx (a : list (list A)) r0 r1 c0 c1
    (rlo rhi clo chi i j : nat) :
  has_shape ny nx a →
  from_option (clip_index ny) 0%nat r0 = rlo → from_option (clip_index ny) ny r1 = rhi →
  from_option (clip_index nx) 0%nat c0 = clo → from_option (clip_index nx) nx c1 = chi →
  (i < rhi - rlo)%nat → (j < chi - clo)%nat →
  cell (slice2 r0 r1 c0 c1 a) i j = cell a (rlo + i) (clo + j).
Proof.
  intros Hs <- <- <- <- Hi Hj. rewrite (cell_slice2 ny nx) by done. simpl.
  by rewrite decide_True.
Qed.

Lemma clip_index_pos (n : nat) (k : nat) : (k ≤ n)%nat → clip_index n (Z.of_nat k) = k.
Proof. intros Hk. unfold clip_index. destruct (Z.ltb_spec (Z.of_nat k) 0); lia. Qed.

Lemma clip_index_neg (n : nat) (k : nat) :
  (1 ≤ k ≤ n)%nat → clip_index n (- Z.of_nat k) = (n - k)%nat.
Proof. intros Hk. unfold clip_index. destruct (Z.ltb_spec (- Z.of_nat k) 0); lia. Qed.

Section Stencil2D.
Import Wave2D.
Context {F : Type} `{!Scalar F, !NumPy F, !FloatPow F}.

Lemma has_shape_inner_slices ny nx (phi : array2 F) :
  has_shape ny nx phi →
  has_shape (ny - 2) (nx - 2) (slice2 (Some 1) (Some (-1)) (Some 1) (Some (-1)) phi) ∧
  has_shape (ny - 2) (nx - 2) (slice2 (Some 1) (Some (-1)) (Some 2) None phi) ∧
  has_shape (ny - 2) (nx - 2) (slice2 (Some 1) (Some (-1)) None (Some (-2)) phi) ∧
  has_shape (ny - 2) (nx - 2) (slice2 (Some 2) None (Some 1) (Some (-1)) phi) ∧
  has_shape (ny - 2) (nx - 2) (slice2 None (Some (-2)) (Some 1) (Some (-1)) phi).
Proof.
  intros Hs.
  assert (∀ n, clip_index n (-1) - clip_index n 1 = n - 2 ∧
               n - clip_index n 2 = n - 2 ∧
               clip_index n (-2) - 0 = n - 2)%nat as Hclip.
  { intros n. unfold clip_index.
    change (1 <? 0) with false. change (2 <? 0) with false.
    change (-1 <? 0) with true. change (-2 <? 0) with true. cbv iota. lia. }
  destruct (Hclip ny) as (Hy1 & Hy2 & Hy3). destruct (Hclip nx) as (Hx1 & Hx2 & Hx3).
  split_and!.
  - rewrite <- Hy1, <- Hx1. by apply (has_shape_slice2 ny nx).
  - rewrite <- Hy1, <- Hx2. by apply (has_shape_slice2 ny nx).
  - rewrite <- Hy1, <- Hx3. by apply (has_shape_slice2 ny nx).
  - rewrite <- Hy2, <- Hx1. by apply (has_shape_slice2 ny nx).
  - rewrite <- Hy3, <- Hx1. by apply (has_shape_slice2 ny nx).
Qed.

(** The discrete Laplacian cell by cell, [dx2] and [dy2] being the values
    of [dx ** 2] and [dy ** 2]. *)
Lemma laplacian_2d_cells ny nx (self : VGTSimulation2D F) (phi : array2 F) dx2 dy2 :
  has_shape ny nx phi → pow2 (dx self) = Ok dx2 → pow2 (dy self) = Ok dy2 →
  ∃ lap, laplacian_2d self phi = Ok lap ∧ has_shape ny nx lap ∧
    ∀ i j, (i < ny)%nat → (j < nx)%nat →
      cell lap i j =
        if decide (1 ≤ i ∧ i + 1 < ny ∧ 1 ≤ j ∧ j + 1 < nx)%nat
        then Some ((at2 phi i (j + 1) ⊖ of_int 2 ⊗ at2 phi i j ⊕ at2 phi i (j - 1))
                     ⊘ dx2
                   ⊕ (at2 phi (i + 1) j ⊖ of_int 2 ⊗ at2 phi i j ⊕ at2 phi (i - 1) j)
                     ⊘ dy2)
        else Some (of_int 0).
Proof.
  intros Hs Hdx Hdy.
  destruct (laplacian_2d self phi) as [lap|e] eqn:Hlap.
  2: { unfold laplacian_2d in Hlap. rewrite Hdx in Hlap. cbn [mbind result_bind] in Hlap.
       rewrite Hdy in Hlap. done. }
  exists lap. split; [done|]. split; [by eapply has_shape_laplacian_2d|].
  unfold laplacian_2d in Hlap. rewrite Hdx in Hlap. cbn [mbind result_bind] in Hlap.
  rewrite Hdy in Hlap. cbn [mbind result_bind] in Hlap. injection Hlap as <-.
  intros i j Hi Hj.
  destruct (has_shape_inner_slices ny nx phi Hs) as (Hmid & Hright & Hleft & Hdown & Hup).
  rewrite (cell_set_interior ny nx); try done.
  2: { by apply has_shape_arr_map. }
  2: { repeat first [apply has_shape_arr_zip | apply has_shape_arr_map]; done. }
  case_decide as Hin.
  - assert (clip_index ny 1 = 1 ∧ clip_index ny 2 = 2 ∧ clip_index ny (-1) = ny - 1
            ∧ clip_index ny (-2) = ny - 2)%nat as (Hr1 & Hr2 & Hrm1 & Hrm2).
    { split_and!; [apply (clip_index_pos ny 1) | apply (clip_index_pos ny 2)
        | apply (clip_index_neg ny 1) | apply (clip_index_neg ny 2)]; lia. }
    assert (clip_index nx 1 = 1 ∧ clip_index nx 2 = 2 ∧ clip_index nx (-1) = nx - 1
            ∧ clip_index nx (-2) = nx - 2)%nat as (Hc1 & Hc2 & Hcm1 & Hcm2).
    { split_and!; [apply (clip_index_pos nx 1) | apply (clip_index_pos nx 2)
        | apply (clip_index_neg nx 1) | apply (clip_index_neg nx 2)]; lia. }
    rewrite !cell_arr_zip, !cell_arr_map, !cell_arr_zip, !cell_arr_map.
    rewrite (cell_slice2_at ny nx phi (Some 1) (Some (-1)) (Some 2) None
               1 (ny - 1) 2 nx) by (done || lia).
    rewrite (cell_slice2_at ny nx phi (Some 1) (Some (-1)) (Some 1) (Some (-1))
               1 (ny - 1) 1 (nx - 1)) by (done || lia).
    rewrite (cell_slice2_at ny nx phi (Some 1) (Some (-1)) None (Some (-2))
               1 (ny - 1) 0 (nx - 2)) by (done || lia).
    rewrite (cell_slice2_at ny nx phi (Some 2) None (Some 1) (Some (-1))
               2 ny 1 (nx - 1)) by (done || lia).
    rewrite (cell_slice2_at ny nx phi None (Some (-2)) (Some 1) (Some (-1))
               0 (ny - 2) 1 (nx - 1)) by (done || lia).
    replace (1 + (i - 1))%nat with i by lia. replace (1 + (j - 1))%nat with j by lia.
    replace (2 + (i - 1))%nat with (i + 1)%nat by lia.
    replace (2 + (j - 1))%nat with (j + 1)%nat by lia.
    replace (0 + (i - 1))%nat with (i - 1)%nat by lia.
    replace (0 + (j - 1))%nat with (j - 1)%nat by lia.
    rewrite !(cell_at2 ny nx phi) by (done || lia). done.
  - rewrite cell_arr_map.
    by destruct (cell_is_Some ny nx phi i j Hs Hi Hj) as [v ->].
Qed.

(** One step cell by cell, in terms of the Laplacian. *)
Lemma advance2d_cells ny nx (self : VGTSimulation2D F) (phi phi_prev lap : array2 F)
    dt2 c2 w2 :
  (1 ≤ ny)%nat → (1 ≤ nx)%nat →
  has_shape ny nx phi → has_shape ny nx phi_prev →
  laplacian_2d self phi = Ok lap →
  pow2 (dt self) = Ok dt2 → pow2 (c self) = Ok c2 → pow2 (omega0 self) = Ok w2 →
  ∃ next, advance self phi phi_prev = Ok next ∧ has_shape ny nx next ∧
    ∀ i j l, (i < ny)%nat → (j < nx)%nat →
      cell lap i j = Some l →
      cell next i j =
        if decide (i = 0 ∨ i = ny - 1 ∨ j = 0 ∨ j = nx - 1)%nat
        then Some (of_int 0)
        else Some (of_int 2 ⊗ at2 phi i j ⊖ at2 phi_prev i j ⊕
                   dt2 ⊗ (c2 ⊗ l ⊖ w2 ⊗ at2 phi i j)).
Proof.
  intros Hny Hnx Hphi Hprev Hlap Hdt Hc Hw. unfold advance.
  rewrite Hlap. cbn [mbind result_bind]. rewrite Hdt. cbn [mbind result_bind].
  rewrite Hc. cbn [mbind result_bind]. rewrite Hw. cbn [mbind result_bind].
  match goal with |- context [set_row ?b 0 _] => set (base := b) end.
  assert (has_shape ny nx base) as Hbase.
  { unfold base. repeat first [apply has_shape_arr_zip | apply has_shape_arr_map
      | by eapply has_shape_laplacian_2d | done]. }
  destruct (set_row_spec ny nx base 0 0%nat (of_int 0) Hbase) as (a1 & -> & Hs1 & Hc1).
  { apply (py_index_nonneg ny 0). lia. }
  cbn [mbind result_bind].
  destruct (set_row_spec ny nx a1 (-1) (ny - 1)%nat (of_int 0) Hs1) as (a2 & -> & Hs2 & Hc2).
  { by apply py_index_last. }
  cbn [mbind result_bind].
  destruct (set_col_spec ny nx a2 0 0%nat (of_int 0) Hs2) as (a3 & -> & Hs3 & Hc3).
  { apply (py_index_nonneg nx 0). lia. }
  cbn [mbind result_bind].
  destruct (set_col_spec ny nx a3 (-1) (nx - 1)%nat (of_int 0) Hs3) as (a4 & -> & Hs4 & Hc4).
  { by apply py_index_last. }
  eexists; split; [done|]. split; [done|].
  intros i j l Hi Hj Hl. rewrite Hc4, Hc3, Hc2, Hc1.
  assert (cell base i j =
            Some (of_int 2 ⊗ at2 phi i j ⊖ at2 phi_prev i j ⊕
                  dt2 ⊗ (c2 ⊗ l ⊖ w2 ⊗ at2 phi i j)))
    as ->.
  { unfold base. rewrite !cell_arr_zip, !cell_arr_map, !cell_arr_zip, !cell_arr_map, Hl.
    by rewrite (cell_at2 ny nx phi), (cell_at2 ny nx phi_prev) by done. }
  repeat case_decide; simpl; try done; lia.
Qed.

(** A step on a grid without interior returns the zero field. *)
Lemma zero_edges_no_interior ny nx (a : array2 F) :
  (ny ≤ 2 ∨ nx ≤ 2)%nat → has_shape ny nx a → zero_edges ny nx a →
  a = replicate ny (replicate nx (of_int 0)).
Proof.
  intros Hsmall Hs Hz.
  rewrite (array_tabulate ny nx a (λ _ _, of_int 0) Hs).
  - apply list_eq. intros i. rewrite list_lookup_fmap.
    destruct (decide (i < ny)%nat) as [Hi|Hi].
    + rewrite lookup_seq_lt, lookup_replicate_2 by done. simpl. f_equal.
      apply list_eq. intros j. rewrite list_lookup_fmap.
      destruct (decide (j < nx)%nat) as [Hj|Hj].
      * by rewrite lookup_seq_lt, lookup_replicate_2 by done.
      * rewrite lookup_seq_ge by lia. simpl. symmetry.
        apply lookup_ge_None_2. rewrite length_replicate. lia.
    + rewrite lookup_seq_ge by lia. simpl. symmetry.
      apply lookup_ge_None_2. rewrite length_replicate. lia.
  - intros i j Hi Hj. apply Hz; try done. lia.
Qed.
End Stencil2D.

Lemma zero_ends_no_interior {F : Type} `{!Scalar F} (N : nat) (a : list F) :
  (N ≤ 2)%nat → length a = N → Wave1D.zero_ends a → a = replicate N (of_int 0).
Proof.
  intros HN Hl [Hz0 Hz1]. rewrite Hl in Hz1.
  apply list_eq. intros i.
  destruct (decide (i < N)%nat) as [Hi|Hi].
  - rewrite lookup_replicate_2 by done.
    destruct (decide (i = 0%nat)) as [->|]; [done|].
    by replace i with (N - 1)%nat by lia.
  - rewrite !lookup_ge_None_2; [done | rewrite length_replicate; lia | lia].
Qed.

(** ** The 2D step *)



(** ** Grids without interior *)

Section TinyGrids.
Context {F : Type} `{!Scalar F, !NumPy F, !FloatPow F}.

(** X9. What a run does on a grid without interior.  In 1D, with one or two
    grid points, the run evaluates no power and completes, and every
    snapshot it saves after the initial one is the zero field.  In 2D, with
    two points along an axis (and at least two along the other), a run whose
    initial field and powers are defined completes, and every snapshot it
    saves after the initial one is the zero field.  With a single point
    along an axis the 2D run does not start: computing the energy of the
    initial field raises [np.gradient]'s [ValueError]. *)
Theorem simulate_without_interior :
  (∀ (self : Wave1D.VGTSimulation1D F) (Nt save_every : Z),
     Wave1D.grid_ok self → Wave1D.Nx self ≤ 2 → save_every ≠ 0 →
     ∃ r snaps,
       Wave1D.simulate self Nt save_every = Ok r ∧
       Wave1D.phi_history r =
         Wave1D.phi_history self
           ++ Wave1D.gaussian_pulse self None (of_int 1) :: snaps ∧
       length snaps = Z.to_nat (Nt `div` Z.abs save_every) ∧
       Forall (λ snap, snap = replicate (Z.to_nat (Wave1D.Nx self)) (of_int 0))
         snaps) ∧
  (∀ (self : Wave2D.VGTSimulation2D F) (Nt save_every : Z) (initial_type : string)
     (phi0 : array2 F) p,
     Wave2D.grid_ok self → Wave2D.Nx self = 2 ∨ Wave2D.Ny self = 2 →
     save_every ≠ 0 →
     Wave2D.initial_field self initial_type = Ok phi0 →
     Wave2D.powers self = Ok p →
     ∃ r snaps,
       Wave2D.simulate self Nt save_every initial_type = Ok r ∧
       Wave2D.phi_history r = Wave2D.phi_history self ++ phi0 :: snaps ∧
       length snaps = Z.to_nat (Nt `div` Z.abs save_every) ∧
       Forall (λ snap, snap = replicate (Z.to_nat (Wave2D.Ny self))
                                (replicate (Z.to_nat (Wave2D.Nx self)) (of_int 0)))
         snaps) ∧
  (∀ (self : Wave2D.VGTSimulation2D F) (Nt save_every : Z) (initial_type : string)
     (phi0 : array2 F),
     1 ≤ Wave2D.Nx self → 1 ≤ Wave2D.Ny self →
     Wave2D.Nx self = 1 ∨ Wave2D.Ny self = 1 →
     has_shape (Z.to_nat (Wave2D.Ny self)) (Z.to_nat (Wave2D.Nx self)) (Wave2D.X self) →
     has_shape (Z.to_nat (Wave2D.Ny self)) (Z.to_nat (Wave2D.Nx self)) (Wave2D.Y self) →
     Wave2D.initial_field self initial_type = Ok phi0 →
     Wave2D.simulate self Nt save_every initial_type =
       Raise (ValueError "Shape of array too small to calculate a numerical gradient, at least (edge_order + 1) elements are required.")).
Proof.
  split_and!.
  - intros self Nt se Hg HNx Hse.
    destruct (simulate1d_records self Nt se Hse Hg (or_introl HNx)) as
      (r & snaps & amps & Hrun & _ & Hph & _ & _ & Hls & _ & Hall & Hze).
    exists r, snaps. split_and!; try done.
    apply Forall_cons in Hall as [_ Hall].
    apply Forall_forall. intros snap Hin.
    apply zero_ends_no_interior; [lia | |].
    + by apply (proj1 (Forall_forall _ _) Hall).
    + by apply (proj1 (Forall_forall _ _) Hze).
  - intros self Nt se ty phi0 p Hg Htwo Hse Hphi0 Hp.
    destruct (simulate2d_records self Nt se ty phi0 p Hse Hg Hphi0 Hp) as
      (r & snaps & e0 & ens & Hrun & _ & _ & Hph & _ & _ & Hls & _ & Hall & Hze).
    exists r, snaps. split_and!; try done.
    apply Forall_cons in Hall as [_ Hall].
    apply Forall_forall. intros snap Hin.
    apply zero_edges_no_interior; [lia | |].
    + by apply (proj1 (Forall_forall _ _) Hall).
    + by apply (proj1 (Forall_forall _ _) Hze).
  - intros self Nt se ty phi0 HNx HNy Hone HX HY Hphi0.
    by apply (simulate2d_one_point self Nt se ty phi0).
Qed.
End TinyGrids.
(** ** The energy over the reals *)

Section EnergyFacts.
#[local] Open Scope R_scope.
#[local] Existing Instance exact_pow2.
Import Wave2D.






Lemma sq_nonneg (x : R) : 0 <= sq x.
Proof. unfold sq. simpl. apply Rle_0_sqr. Qed.




Lemma cells_sum_of_squares (X Y : array2 R) (cx cy : R) :
  Forall (Forall (λ v, 0 <= v))
    (arr_zip fadd (arr_map (λ v, sq (v ⊖ cx)) X) (arr_map (λ v, sq (v ⊖ cy)) Y)).
Proof.
  apply Forall_lookup_2. intros i row Hrow. unfold arr_zip, arr_map in Hrow.
  apply lookup_zip_with_Some in Hrow as (ra & rb & -> & Hra & Hrb).
  rewrite list_lookup_fmap in Hra, Hrb.
  destruct (X !! i) as [xr|]; [|done]. destruct (Y !! i) as [yr|]; [|done].
  simpl in Hra, Hrb. injection Hra as <-. injection Hrb as <-.
  apply Forall_lookup_2. intros j v Hv.
  apply lookup_zip_with_Some in Hv as (a & b & -> & Ha & Hb).
  rewrite list_lookup_fmap in Ha, Hb.
  destruct (xr !! j) as [xv|]; [|done]. destruct (yr !! j) as [yv|]; [|done].
  simpl in Ha, Hb. injection Ha as <-. injection Hb as <-.
  apply Rplus_le_le_0_compat; apply sq_nonneg.
Qed.

Lemma arr_map_sqrt (g h : R → R) (A : array2 R) :
  (∀ v, 0 <= v → g (R_sqrt.sqrt v) = h v) →
  Forall (Forall (λ v, 0 <= v)) A →
  arr_map g (arr_map fsqrt A) = arr_map h A.
Proof.
  intros Hgh HA. unfold arr_map. rewrite <- list_fmap_compose.
  apply Forall_fmap_ext_1. eapply Forall_impl; [exact HA|].
  intros row Hrow. simpl. rewrite <- list_fmap_compose.
  apply Forall_fmap_ext_1. eapply Forall_impl; [exact Hrow|].
  intros v Hv. simpl. by apply Hgh.
Qed.

End EnergyFacts.

(** X12. Over the reals a ring pulse of radius zero is the Gaussian pulse of
    the same centre, width and amplitude, whatever [width ** 2] gives: the
    same array when it is defined, the same exception when it is not. *)
Theorem ring_pulse_radius_zero (PF : FloatPow R)
    (self : Wave2D.VGTSimulation2D R) (center : option (R * R)) (width amplitude : R) :
  Wave2D.ring_pulse self center 0%R width amplitude
  = Wave2D.gaussian_pulse_2d self center width amplitude.
Proof.
  unfold Wave2D.ring_pulse, Wave2D.gaussian_pulse_2d.
  destruct (pow2 width) as [width2|e]; [|done]. cbn [mbind result_bind]. f_equal.
  apply arr_map_sqrt; [|apply cells_sum_of_squares].
  intros v Hv. unfold sq. simpl. by rewrite Rminus_0_r, sqrt_sqrt.
Qed.

(** ** The time step and the scheme over the reals *)

Section SchemeFacts.
#[local] Open Scope R_scope.
#[local] Existing Instance exact_pow2.

Lemma R_pymin (a b : R) : pymin a b = Rmin a b.
Proof.
  unfold pymin, Rmin. simpl.
  destruct (Rlt_dec b a), (Rle_dec a b); try done; lra.
Qed.

(** X20. The time step the constructors choose, over the reals, for positive
    lengths and wave speed: in 1D the Courant number [c·dt/dx] is exactly
    [dt_factor]; in 2D, where [dt = dt_factor·min(dx, dy)/c], it is at most
    [dt_factor] along each axis and equal to it along the axis of the smaller
    spacing. *)
Theorem init_courant_number :
  (∀ (L : R) (Nx : Z) (c omega0 dt_factor pulse_width : R),
     0 < L → (1 ≤ Nx)%Z → 0 < c →
     ∃ self,
       Wave1D.init L Nx c omega0 dt_factor pulse_width = Ok self ∧
       0 < Wave1D.dx self ∧
       c * Wave1D.dt self / Wave1D.dx self = dt_factor) ∧
  (∀ (Lx Ly : R) (Nx Ny : Z) (c omega0 dt_factor : R),
     0 < Lx → 0 < Ly → (1 ≤ Nx)%Z → (1 ≤ Ny)%Z → 0 < c → 0 <= dt_factor →
     ∃ self,
       Wave2D.init Lx Ly Nx Ny c omega0 dt_factor = Ok self ∧
       0 < Wave2D.dx self ∧ 0 < Wave2D.dy self ∧
       Wave2D.dt self = dt_factor * Rmin (Wave2D.dx self) (Wave2D.dy self) / c ∧
       c * Wave2D.dt self / Wave2D.dx self <= dt_factor ∧
       c * Wave2D.dt self / Wave2D.dy self <= dt_factor ∧
       (c * Wave2D.dt self / Wave2D.dx self = dt_factor
        ∨ c * Wave2D.dt self / Wave2D.dy self = dt_factor)).
Proof.
  split.
  - intros L Nx c omega0 f pw HL HNx Hc.
    destruct (init1d_total L Nx c omega0 f pw HNx) as [self Hinit];
      [apply R_fis0_false; lra|].
    destruct (init1d_fields _ _ _ _ _ _ _ Hinit) as (_ & _ & _ & _ & _ & Hdx & Hdt & _).
    assert (0 < IZR Nx) as HN by (apply IZR_lt; lia).
    assert (0 < Wave1D.dx self) as Hpos.
    { rewrite Hdx. simpl. by apply Rdiv_lt_0_compat. }
    exists self. split_and!; try done.
    rewrite Hdt. simpl. field. lra.
  - intros Lx Ly Nx Ny c omega0 f HLx HLy HNx HNy Hc Hf.
    destruct (init2d_total Lx Ly Nx Ny c omega0 f HNx HNy) as [self Hinit];
      [apply R_fis0_false; lra|].
    destruct (init2d_fields _ _ _ _ _ _ _ _ Hinit)
      as (_ & _ & _ & _ & Hdx & Hdy & Hdt & _).
    assert (0 < IZR Nx) as HN by (apply IZR_lt; lia).
    assert (0 < IZR Ny) as HM by (apply IZR_lt; lia).
    assert (0 < Wave2D.dx self) as Hxpos.
    { rewrite Hdx. simpl. by apply Rdiv_lt_0_compat. }
    assert (0 < Wave2D.dy self) as Hypos.
    { rewrite Hdy. simpl. by apply Rdiv_lt_0_compat. }
    rewrite R_pymin in Hdt. simpl in Hdt.
    exists self. split_and!; try done.
    + rewrite Hdt.
      replace (c * (f * Rmin (Wave2D.dx self) (Wave2D.dy self) / c) / Wave2D.dx self)
        with (f * (Rmin (Wave2D.dx self) (Wave2D.dy self) / Wave2D.dx self))
        by (field; lra).
      rewrite <- (Rmult_1_r f) at 2. apply Rmult_le_compat_l; [done|].
      apply (Rmult_le_reg_r (Wave2D.dx self)); [done|].
      unfold Rdiv. rewrite Rmult_assoc, Rinv_l, Rmult_1_r, Rmult_1_l by lra.
      apply Rmin_l.
    + rewrite Hdt.
      replace (c * (f * Rmin (Wave2D.dx self) (Wave2D.dy self) / c) / Wave2D.dy self)
        with (f * (Rmin (Wave2D.dx self) (Wave2D.dy self) / Wave2D.dy self))
        by (field; lra).
      rewrite <- (Rmult_1_r f) at 2. apply Rmult_le_compat_l; [done|].
      apply (Rmult_le_reg_r (Wave2D.dy self)); [done|].
      unfold Rdiv. rewrite Rmult_assoc, Rinv_l, Rmult_1_r, Rmult_1_l by lra.
      apply Rmin_r.
    + rewrite Hdt. unfold Rmin. destruct (Rle_dec _ _); [left | right]; field; lra.
Qed.

Import Wave2D.

(** The linear combination [a·u + b·v] of two arrays. *)
Lemma cell_combination (a b : R) ny nx (u v : array2 R) i j :
  has_shape ny nx u → has_shape ny nx v → (i < ny)%nat → (j < nx)%nat →
  at2 (arr_zip fadd (arr_map (λ x, a ⊗ x) u) (arr_map (λ x, b ⊗ x) v)) i j
    = a * at2 u i j + b * at2 v i j.
Proof.
  intros Hu Hv Hi Hj. unfold at2 at 1.
  rewrite cell_arr_zip, !cell_arr_map.
  by rewrite (cell_at2 ny nx u), (cell_at2 ny nx v).
Qed.

Lemma array_ext ny nx (a b : array2 R) :
  has_shape ny nx a → has_shape ny nx b →
  (∀ i j, (i < ny)%nat → (j < nx)%nat → cell a i j = cell b i j) → a = b.
Proof.
  intros Ha Hb Hc.
  transitivity ((λ i, at2 b i <$> seq 0 nx) <$> seq 0 ny).
  - apply array_tabulate; [done|].
    intros i j Hi Hj. rewrite Hc by done. by apply (cell_at2 ny nx).
  - symmetry. apply array_tabulate; [done|].
    intros i j Hi Hj. by apply (cell_at2 ny nx).
Qed.

(** X21. Over the reals, with non-zero spacings, the 2D step is linear: the
    step taken from the combination [a·phi₁ + b·phi₂] (with previous field
    [a·prev₁ + b·prev₂]) is the same combination of the steps taken from
    [(phi₁, prev₁)] and [(phi₂, prev₂)]; in particular the evolution of a sum
    of two sources is the sum of their evolutions. *)
Theorem advance2d_linear
    (self : VGTSimulation2D R) (ny nx : nat) (a b : R)
    (phi1 prev1 phi2 prev2 : array2 R) :
  (1 ≤ ny)%nat → (1 ≤ nx)%nat →
  has_shape ny nx phi1 → has_shape ny nx prev1 →
  has_shape ny nx phi2 → has_shape ny nx prev2 →
  dx self ≠ 0 → dy self ≠ 0 →
  ∃ next1 next2,
    advance self phi1 prev1 = Ok next1 ∧
    advance self phi2 prev2 = Ok next2 ∧
    advance self
      (arr_zip fadd (arr_map (λ x, a ⊗ x) phi1) (arr_map (λ x, b ⊗ x) phi2))
      (arr_zip fadd (arr_map (λ x, a ⊗ x) prev1) (arr_map (λ x, b ⊗ x) prev2))
    = Ok (arr_zip fadd (arr_map (λ x, a ⊗ x) next1) (arr_map (λ x, b ⊗ x) next2)).
Proof.
  intros Hny Hnx Hp1 Hq1 Hp2 Hq2 _ _.
  set (lin := λ u v : array2 R,
         arr_zip fadd (arr_map (λ x, a ⊗ x) u) (arr_map (λ x, b ⊗ x) v)).
  assert (∀ u v, has_shape ny nx u → has_shape ny nx v → has_shape ny nx (lin u v))
    as Hlin.
  { intros u v Hu Hv. unfold lin.
    by repeat first [apply has_shape_arr_zip | apply has_shape_arr_map]. }
  destruct (laplacian_2d_cells (FloatPow0 := @exact_pow2 R R_scalar)
              ny nx self phi1 (dx self * dx self) (dy self * dy self)
              Hp1 eq_refl eq_refl)
    as (l1 & Hlap1 & _ & Hlc1).
  destruct (laplacian_2d_cells (FloatPow0 := @exact_pow2 R R_scalar)
              ny nx self phi2 (dx self * dx self) (dy self * dy self)
              Hp2 eq_refl eq_refl)
    as (l2 & Hlap2 & _ & Hlc2).
  destruct (laplacian_2d_cells (FloatPow0 := @exact_pow2 R R_scalar)
              ny nx self (lin phi1 phi2)
              (dx self * dx self) (dy self * dy self)
              (Hlin _ _ Hp1 Hp2) eq_refl eq_refl) as (l3 & Hlap3 & _ & Hlc3).
  destruct (advance2d_cells (FloatPow0 := @exact_pow2 R R_scalar)
              ny nx self phi1 prev1 l1
              (dt self * dt self) (c self * c self) (omega0 self * omega0 self) Hny Hnx Hp1 Hq1 Hlap1
              eq_refl eq_refl eq_refl) as (n1 & Hn1 & Hs1 & Hc1).
  destruct (advance2d_cells (FloatPow0 := @exact_pow2 R R_scalar)
              ny nx self phi2 prev2 l2
              (dt self * dt self) (c self * c self) (omega0 self * omega0 self) Hny Hnx Hp2 Hq2 Hlap2
              eq_refl eq_refl eq_refl) as (n2 & Hn2 & Hs2 & Hc2).
  destruct (advance2d_cells (FloatPow0 := @exact_pow2 R R_scalar)
              ny nx self (lin phi1 phi2) (lin prev1 prev2) l3
              (dt self * dt self) (c self * c self) (omega0 self * omega0 self)
              Hny Hnx (Hlin _ _ Hp1 Hp2) (Hlin _ _ Hq1 Hq2) Hlap3
              eq_refl eq_refl eq_refl) as (n3 & Hn3 & Hs3 & Hc3).
  exists n1, n2. split; [done|]. split; [done|].
  fold (lin phi1 phi2) (lin prev1 prev2) (lin n1 n2). rewrite Hn3. f_equal.
  apply (array_ext ny nx); [done | by apply Hlin |].
  intros i j Hi Hj.
  pose proof (Hlc1 i j Hi Hj) as Hl1.
  pose proof (Hlc2 i j Hi Hj) as Hl2.
  pose proof (Hlc3 i j Hi Hj) as Hl3.
  unfold lin at 1. rewrite cell_arr_zip, !cell_arr_map.
  destruct (decide (1 ≤ i ∧ i + 1 < ny ∧ 1 ≤ j ∧ j + 1 < nx)%nat) as [Hin|Hout].
  - try rewrite decide_True in Hl1, Hl2, Hl3 by done.
    rewrite (Hc1 i j _ Hi Hj Hl1), (Hc2 i j _ Hi Hj Hl2), (Hc3 i j _ Hi Hj Hl3).
    rewrite !decide_False by lia. simpl. f_equal.
    unfold lin. rewrite !(cell_combination a b ny nx) by (done || lia).
    unfold sq. simpl. unfold Rdiv. ring.
  - try rewrite decide_False in Hl1, Hl2, Hl3 by done.
    rewrite (Hc1 i j _ Hi Hj Hl1), (Hc2 i j _ Hi Hj Hl2), (Hc3 i j _ Hi Hj Hl3).
    rewrite !decide_True by lia. simpl. f_equal. ring.
Qed.
End SchemeFacts.

(** ** Wavenumbers and the theoretical dispersion curve *)

Section FrequencyFacts.
Context {F : Type} `{!Scalar F}.

(** The integer frequency indices of [fftfreq]: [0, 1, ..., (n-1)//2]
    followed by [-(n//2), ..., -1]. *)
Lemma fftfreq_ok (n : Z) (d : F) :
  fis0 (of_int n ⊗ d) = false →
  fftfreq n d =
    Ok ((λ m, of_int m ⊗ (of_int 1 ⊘ (of_int n ⊗ d)))
          <$> (seqZ 0 ((n - 1) `div` 2 + 1) ++ seqZ (- (n `div` 2)) (n `div` 2))).
Proof. intros Hd. unfold fftfreq, pydiv. by rewrite Hd. Qed.

Lemma fftfreq_zero (n : Z) (d : F) :
  fis0 (of_int n ⊗ d) = true → fftfreq n d = Raise ZeroDivisionError.
Proof. intros Hd. unfold fftfreq, pydiv. by rewrite Hd. Qed.

Lemma fftfreq_halves (n : Z) :
  0 ≤ n → 0 ≤ (n - 1) `div` 2 + 1 ∧ 0 ≤ n `div` 2 ∧ (n - 1) `div` 2 + 1 + n `div` 2 = n.
Proof.
  intros Hn.
  pose proof (Z.div_mod n 2 ltac:(lia)). pose proof (Z.mod_pos_bound n 2 ltac:(lia)).
  pose proof (Z.div_mod (n - 1) 2 ltac:(lia)).
  pose proof (Z.mod_pos_bound (n - 1) 2 ltac:(lia)). lia.
Qed.

Lemma length_fftfreq (n : Z) (d : F) k :
  0 ≤ n → fftfreq n d = Ok k → length k = Z.to_nat n.
Proof.
  intros Hn. unfold fftfreq. destruct (pydiv _ _); [simpl|done]. intros [= <-].
  rewrite length_fmap, length_app, !length_seqZ.
  destruct (fftfreq_halves n Hn) as (? & ? & ?). lia.
Qed.

(** Shifted, the frequency indices are consecutive: [-(n//2), ..., (n-1)//2]. *)
Lemma fftshift_fftfreq (n : Z) (d : F) k :
  0 ≤ n → fftfreq n d = Ok k →
  fftshift k = (λ m, of_int m ⊗ (of_int 1 ⊘ (of_int n ⊗ d))) <$> seqZ (- (n `div` 2)) n.
Proof.
  intros Hn Hk. pose proof (length_fftfreq n d k Hn Hk) as Hlen.
  unfold fftfreq in Hk. destruct (pydiv _ _) as [val|] eqn:Hval; [simpl in Hk|done].
  injection Hk as <-.
  assert (of_int 1 ⊘ (of_int n ⊗ d) = val) as ->.
  { unfold pydiv in Hval. destruct (fis0 _); [done|]. by injection Hval. }
  destruct (fftfreq_halves n Hn) as (HN & Hh & Hsum).
  unfold fftshift. rewrite Hlen.
  assert (Z.to_nat n - Z.to_nat n `div` 2 = Z.to_nat ((n - 1) `div` 2 + 1))%nat as ->.
  { rewrite <- (Z2Nat.inj_div _ 2) by lia. lia. }
  rewrite fmap_app.
  rewrite drop_app_length' by (by rewrite length_fmap, length_seqZ).
  rewrite take_app_length' by (by rewrite length_fmap, length_seqZ).
  rewrite <- fmap_app. f_equal.
  transitivity (seqZ (- (n `div` 2)) (n `div` 2 + ((n - 1) `div` 2 + 1)));
    [|f_equal; lia].
  rewrite (seqZ_app (- (n `div` 2)) (n `div` 2) ((n - 1) `div` 2 + 1)) by lia.
  f_equal. f_equal. lia.
Qed.
End FrequencyFacts.

Section VerifyDispersion.
Import Wave1D.
Context {F : Type} `{!Scalar F, !NumPy F, !FloatPow F} {C : Type}.

Lemma simulate1d_last_snapshot (self : VGTSimulation1D F) Nt se :
  se ≠ 0 → grid_ok self → step_defined self →
  ∃ r snap prev,
    simulate self Nt se = Ok r ∧ clear r = clear self ∧
    getitem (phi_history r) (-1) = Ok snap ∧
    fields_after self (Z.to_nat (Nt `div` Z.abs se) * Z.to_nat (Z.abs se)) = Ok (snap, prev).
Proof.
  intros Hse Hg Hdef.
  destruct (simulate1d_records self Nt se Hse Hg Hdef) as
    (r & _ & _ & Hrun & Hcl & _).
  destruct (simulate1d_fields self Nt se Hse Hg Hdef) as
    (r' & snaps & amps & Hrun' & Hph & _ & Hsn & _).
  rewrite Hrun in Hrun'. injection Hrun' as <-.
  set (q := Z.to_nat (Nt `div` Z.abs se)).
  set (steps := 0 :: _) in Hsn.
  assert (length steps = S q) as Hls.
  { unfold steps. simpl. by rewrite length_fmap, length_seqZ. }
  assert (steps !! q = Some (Z.of_nat q * Z.abs se)) as Hstep.
  { unfold steps. destruct q as [|q'] eqn:Hq; [done|]. simpl.
    rewrite list_lookup_fmap, lookup_seqZ_lt by lia. simpl. f_equal. lia. }
  destruct (Forall2_lookup_r _ _ _ _ _ Hsn Hstep) as (snap & Hsnap & prev & Hf).
  pose proof (Forall2_length _ _ _ Hsn) as Hlen. rewrite Hls in Hlen.
  exists r, snap, prev. split_and!; try done.
  - apply getitem_neg.
    + rewrite Hph, length_app. lia.
    + rewrite Hph, length_app, Hlen, lookup_app_r by lia.
      by replace (_ - _ - _)%nat with q by lia.
  - by replace (q * Z.to_nat (Z.abs se))%nat with (Z.to_nat (Z.of_nat q * Z.abs se)) by lia.
Qed.

(** X13. [verify_dispersion] needs a run: on an object whose history is
    empty it raises [IndexError].  After a run that raises nothing it
    transforms the last saved snapshot, which is the field after
    [(Nt // |save_every|)·|save_every|] steps (the final field only when the
    stride divides [Nt]), and returns with it [Nx] wavenumbers and their
    theoretical frequencies [sqrt(c²·k² + ω₀²)], where [c²] and [ω₀²] are the
    values [c2] and [w2] of Python's [c ** 2] and [omega0 ** 2], supposed
    defined, and [k²] is the product [k·k]. *)
Theorem verify_dispersion_last_snapshot (fft : list F → result (list C)) :
  (∀ self : VGTSimulation1D F,
     phi_history self = [] → verify_dispersion fft self = Raise IndexError) ∧
  (∀ (self : VGTSimulation1D F) (Nt save_every : Z) (c2 w2 : F),
     grid_ok self → save_every ≠ 0 → step_defined self →
     fis0 (of_int (Nx self) ⊗ dx self) = false →
     pow2 (c self) = Ok c2 → pow2 (omega0 self) = Ok w2 →
     ∃ r snap prev k,
       simulate self Nt save_every = Ok r ∧
       fields_after self
         (Z.to_nat (Nt `div` Z.abs save_every) * Z.to_nat (Z.abs save_every))
         = Ok (snap, prev) ∧
       wavenumbers self = Ok k ∧ length k = Z.to_nat (Nx self) ∧
       ∀ phi_fft, fft snap = Ok phi_fft →
         verify_dispersion fft r =
           Ok (k, phi_fft, (λ kv, fsqrt (c2 ⊗ (kv ⊗ kv) ⊕ w2)) <$> k)).
Proof.
  split.
  - intros self Hempty. unfold verify_dispersion. by rewrite Hempty.
  - intros self Nt se c2 w2 Hg Hse Hdef Hdx Hc2 Hw2.
    destruct (simulate1d_last_snapshot self Nt se Hse Hg Hdef) as
      (r & snap & prev & Hrun & Hcl & Hlast & Hf).
    assert (∃ k, wavenumbers self = Ok k ∧ length k = Z.to_nat (Nx self)) as (k & Hk & Hlk).
    { unfold wavenumbers. rewrite fftfreq_ok by done. simpl. eexists. split; [done|].
      rewrite !length_fmap, length_app, !length_seqZ.
      destruct (fftfreq_halves (Nx self)) as (? & ? & ?); [destruct Hg; lia | lia]. }
    exists r, snap, prev, k. split_and!; try done.
    intros phi_fft Hfft. unfold verify_dispersion. rewrite Hlast. simpl. rewrite Hfft. simpl.
    change (wavenumbers r) with (wavenumbers (clear r)).
    change (c r) with (c (clear r)). change (omega0 r) with (omega0 (clear r)).
    rewrite Hcl. change (wavenumbers (clear self)) with (wavenumbers self).
    change (c (clear self)) with (c self).
    change (omega0 (clear self)) with (omega0 self).
    rewrite Hk. cbn [mbind result_bind]. rewrite Hc2. cbn [mbind result_bind].
    by rewrite Hw2.
Qed.
End VerifyDispersion.

Section AnalyzerSpectra.
Import Dispersion.
Context {F : Type} `{!Scalar F, !NumPy F, !FloatPow F} {C : Type}.
Variable cabs : C → F.

Lemma lookup_slice_until {A} (a : list A) (m : Z) (j : nat) :
  0 ≤ m ≤ Z.of_nat (length a) →
  slice None (Some m) a !! j = if decide (Z.of_nat j < m) then a !! j else None.
Proof.
  intros Hm. rewrite lookup_slice. simpl.
  assert (clip_index (length a) m = Z.to_nat m) as ->.
  { unfold clip_index. destruct (Z.ltb_spec m 0); lia. }
  rewrite Nat.sub_0_r. repeat case_decide; try done; lia.
Qed.

Lemma length_slice_until {A} (a : list A) (m : Z) :
  0 ≤ m ≤ Z.of_nat (length a) → length (slice None (Some m) a) = Z.to_nat m.
Proof.
  intros Hm. unfold slice. simpl. rewrite drop_0, length_take, Nat.sub_0_r.
  assert (clip_index (length a) m = Z.to_nat m) as ->; [|lia].
  unfold clip_index. destruct (Z.ltb_spec m 0); lia.
Qed.

(** X14. [verify_1d_dispersion] keeps the first half of the spectrum: for
    [n] samples whose transform has [n] values it returns three arrays of
    length [n // 2]; the [j]-th wavenumber is [j·(1/(n·dx))·2·π], so only
    non-negative frequency indices occur, the [j]-th magnitude is the
    absolute value of the [j]-th transform value, and the [j]-th theoretical
    frequency is [sqrt(c²·k_j² + ω₀²)], where [c²] and [ω₀²] are the values
    [c2] and [w2] of [c ** 2] and [omega0 ** 2], supposed defined, and
    [k_j²] is the product [k_j·k_j].  If [n·dx] is zero it raises
    [ZeroDivisionError] instead, before any power is taken. *)
Theorem verify_1d_dispersion_half_spectrum
    (fft : list F → result (list C)) (phi_data : list F) (dx c omega0 : F)
    (phi_fft : list C) :
  fft phi_data = Ok phi_fft → length phi_fft = length phi_data →
  (fis0 (of_int (Z.of_nat (length phi_data)) ⊗ dx) = true →
   verify_1d_dispersion cabs fft phi_data dx c omega0 = Raise ZeroDivisionError) ∧
  (fis0 (of_int (Z.of_nat (length phi_data)) ⊗ dx) = false →
   ∀ c2 w2, pow2 c = Ok c2 → pow2 omega0 = Ok w2 →
   ∃ k_pos phi_fft_pos omega_theory,
     verify_1d_dispersion cabs fft phi_data dx c omega0
       = Ok (k_pos, phi_fft_pos, omega_theory) ∧
     length k_pos = Nat.div (length phi_data) 2 ∧
     length phi_fft_pos = Nat.div (length phi_data) 2 ∧
     length omega_theory = Nat.div (length phi_data) 2 ∧
     ∀ j, (j < Nat.div (length phi_data) 2)%nat →
       ∃ k_j,
         k_j = of_int (Z.of_nat j)
                 ⊗ (of_int 1 ⊘ (of_int (Z.of_nat (length phi_data)) ⊗ dx))
                 ⊗ of_int 2 ⊗ np_pi ∧
         k_pos !! j = Some k_j ∧
         phi_fft_pos !! j = cabs <$> phi_fft !! j ∧
         omega_theory !! j = Some (fsqrt (c2 ⊗ (k_j ⊗ k_j) ⊕ w2))).
Proof.
  intros Hfft Hlf. set (n := Z.of_nat (length phi_data)).
  remember (Nat.div (length phi_data) 2) as h eqn:Hh'.
  unfold verify_1d_dispersion. rewrite Hfft. simpl. fold n. split.
  - intros Hz. by rewrite fftfreq_zero.
  - intros Hnz c2 w2 Hc2 Hw2. rewrite fftfreq_ok by done. simpl.
    rewrite Hc2. simpl. rewrite Hw2. simpl.
    destruct (fftfreq_halves n ltac:(lia)) as (HN & Hh & Hsum).
    set (idx := seqZ 0 _ ++ seqZ _ _).
    assert (length idx = length phi_data) as Hli.
    { unfold idx. rewrite length_app, !length_seqZ. lia. }
    rewrite !length_fmap, Hli. fold n.
    assert (Z.to_nat (n `div` 2) = h) as Hhalf.
    { subst h. unfold n. rewrite <- (Nat2Z.id (Nat.div _ _)). f_equal.
      by rewrite Nat2Z.inj_div. }
    assert (n `div` 2 ≤ n) by (apply Z.div_le_upper_bound; lia).
    pose proof (Z.mul_div_le n 2 ltac:(lia)) as Hdbl.
    eexists _, _, _. split; [done|].
    rewrite !length_fmap, !length_slice_until
      by (rewrite ?length_fmap, ?Hli, ?Hlf; lia).
    split_and!; try done.
    intros j Hj. eexists. split; [done|].
    rewrite !list_lookup_fmap, !lookup_slice_until
      by (rewrite ?length_fmap, ?Hli, ?Hlf; lia).
    rewrite !decide_True by lia. rewrite !list_lookup_fmap.
    assert (idx !! j = Some (Z.of_nat j)) as ->.
    { unfold idx. rewrite lookup_app_l by (rewrite length_seqZ; lia).
      rewrite lookup_seqZ_lt by lia. f_equal; lia. }
    done.
Qed.
End AnalyzerSpectra.

Section Spectrum2D.
Import Dispersion.
Context {F : Type} `{!Scalar F, !NumPy F, !FloatPow F} {C : Type}.
Variable cabs : C → F.

Lemma shape_has_shape {A} ny nx (a : list (list A)) :
  has_shape ny nx a → (1 ≤ ny)%nat → shape a = (ny, nx).
Proof.
  intros [Hlen Hrows] Hny. unfold shape. rewrite Hlen. f_equal.
  destruct a as [|row a]; [simpl in Hlen; lia|]. simpl.
  by apply Forall_cons in Hrows as [? _].
Qed.

Lemma shifted_axis (n : nat) (d : F) (k : list F) (j : nat) :
  fftfreq (Z.of_nat n) d = Ok k → (j < n)%nat →
  (fmap (M:=list) (λ v, v ⊗ of_int 2 ⊗ np_pi) (fftshift k)) !! j =
    Some (of_int (Z.of_nat j - Z.of_nat n `div` 2)
            ⊗ (of_int 1 ⊘ (of_int (Z.of_nat n) ⊗ d)) ⊗ of_int 2 ⊗ np_pi).
Proof.
  intros Hk Hj. rewrite (fftshift_fftfreq (Z.of_nat n) d k) by (done || lia).
  rewrite !list_lookup_fmap, lookup_seqZ_lt by lia. simpl.
  by replace (- Z.of_nat n `div` 2 + Z.of_nat j)
    with (Z.of_nat j - Z.of_nat n `div` 2) by lia.
Qed.

Lemma length_shifted_axis (n : nat) (d : F) (k : list F) :
  fftfreq (Z.of_nat n) d = Ok k →
  length (fmap (M:=list) (λ v, v ⊗ of_int 2 ⊗ np_pi) (fftshift k)) = n.
Proof.
  intros Hk. rewrite (fftshift_fftfreq (Z.of_nat n) d k) by (done || lia).
  rewrite !length_fmap, length_seqZ. lia.
Qed.

(** X15. [analyze_2d_spectrum] returns a centred spectrum: on a field of
    shape [(ny, nx)] the wavenumber meshes and the theoretical surface have
    that shape, cell [(i, j)] carries [kx = (j − nx//2)·(1/(nx·dx))·2·π] and
    [ky = (i − ny//2)·(1/(ny·dy))·2·π], so the zero wavenumber sits at cell
    [(ny//2, nx//2)] and the indices increase along both axes, the surface
    there is [sqrt(c²·K² + ω₀²)] with [K = sqrt(kx·kx + ky·ky)] and [K²] the
    product [K·K], and the magnitudes are the absolute values of the shifted
    transform.  [c²] and [ω₀²] are the values [c2] and [w2] of [c ** 2] and
    [omega0 ** 2], supposed defined. *)
Theorem analyze_2d_spectrum_centred
    (fft2 : array2 F → result (list (list C))) (phi_2d : array2 F)
    (dx dy c omega0 c2 w2 : F) (ny nx : nat) (spectrum : list (list C)) :
  has_shape ny nx phi_2d → (1 ≤ ny)%nat → (1 ≤ nx)%nat →
  fft2 phi_2d = Ok spectrum →
  fis0 (of_int (Z.of_nat nx) ⊗ dx) = false →
  fis0 (of_int (Z.of_nat ny) ⊗ dy) = false →
  pow2 c = Ok c2 → pow2 omega0 = Ok w2 →
  ∃ KX KY magnitude omega_theory,
    analyze_2d_spectrum cabs fft2 phi_2d dx dy c omega0
      = Ok (KX, KY, magnitude, omega_theory) ∧
    magnitude = fmap (M:=list) (fmap (M:=list) cabs) (fftshift2 spectrum) ∧
    has_shape ny nx KX ∧ has_shape ny nx KY ∧ has_shape ny nx omega_theory ∧
    ∀ i j, (i < ny)%nat → (j < nx)%nat →
      ∃ kx ky,
        kx = of_int (Z.of_nat j - Z.of_nat nx `div` 2)
               ⊗ (of_int 1 ⊘ (of_int (Z.of_nat nx) ⊗ dx)) ⊗ of_int 2 ⊗ np_pi ∧
        ky = of_int (Z.of_nat i - Z.of_nat ny `div` 2)
               ⊗ (of_int 1 ⊘ (of_int (Z.of_nat ny) ⊗ dy)) ⊗ of_int 2 ⊗ np_pi ∧
        cell KX i j = Some kx ∧ cell KY i j = Some ky ∧
        cell omega_theory i j
          = Some (fsqrt (c2 ⊗ (fsqrt (kx ⊗ kx ⊕ ky ⊗ ky)
                               ⊗ fsqrt (kx ⊗ kx ⊕ ky ⊗ ky)) ⊕ w2)).
Proof.
  intros Hs Hny Hnx Hfft Hdx Hdy Hc2 Hw2.
  unfold analyze_2d_spectrum. rewrite Hfft, (shape_has_shape ny nx) by done.
  cbn [mbind result_bind fst snd].
  destruct (fftfreq (Z.of_nat nx) dx) as [kx0|] eqn:Hkx;
    [|by rewrite fftfreq_ok in Hkx].
  destruct (fftfreq (Z.of_nat ny) dy) as [ky0|] eqn:Hky;
    [|by rewrite fftfreq_ok in Hky].
  cbn [mbind result_bind]. rewrite Hc2. cbn [mbind result_bind].
  rewrite Hw2. cbn [mbind result_bind].
  set (kxs := fmap (M:=list) _ (fftshift kx0)).
  set (kys := fmap (M:=list) _ (fftshift ky0)).
  assert (length kxs = nx) as Hlx by (by apply (length_shifted_axis nx dx)).
  assert (length kys = ny) as Hly by (by apply (length_shifted_axis ny dy)).
  destruct (has_shape_meshgrid kxs kys) as [HX HY]. rewrite Hlx, Hly in HX, HY.
  eexists _, _, _, _. split; [done|]. split; [done|].
  split; [done|]. split; [done|].
  split; [by repeat first [apply has_shape_arr_zip | apply has_shape_arr_map]|].
  intros i j Hi Hj. eexists _, _. split; [done|]. split; [done|].
  assert (cell (meshgrid kxs kys).1 i j = kxs !! j) as HcX.
  { unfold meshgrid, cell. simpl. by rewrite lookup_replicate_2 by lia. }
  assert (cell (meshgrid kxs kys).2 i j = kys !! i) as HcY.
  { unfold meshgrid, cell. simpl. rewrite list_lookup_fmap.
    destruct (lookup_lt_is_Some_2 kys i) as [v Hv]; [lia|]. rewrite Hv. simpl.
    by rewrite lookup_replicate_2 by lia. }
  rewrite !cell_arr_map, !cell_arr_zip, !cell_arr_map, HcX, HcY.
  unfold kxs, kys. rewrite (shifted_axis nx dx kx0 j), (shifted_axis ny dy ky0 i) by done.
  done.
Qed.
End Spectrum2D.

Section DispersionGap.
#[local] Open Scope R_scope.
#[local] Existing Instance exact_pow2.
Context {C : Type}.

Lemma theory_at_least_omega0 (c omega0 k : R) :
  Rabs omega0 <= fsqrt (c ⊗ c ⊗ sq k ⊕ omega0 ⊗ omega0).
Proof.
  rewrite <- (sqrt_Rsqr_abs omega0). simpl. apply sqrt_le_1_alt.
  unfold sq, Rsqr. simpl. pose proof (Rle_0_sqr (c * k)). unfold Rsqr in *. nra.
Qed.

Lemma theory_at_zero (c omega0 : R) :
  fsqrt (c ⊗ c ⊗ sq 0 ⊕ omega0 ⊗ omega0) = Rabs omega0.
Proof.
  rewrite <- (sqrt_Rsqr_abs omega0). simpl. f_equal. unfold sq, Rsqr. simpl. lra.
Qed.

(** X16. Over the reals, where [c ** 2] and [omega0 ** 2] are the products
    [c·c] and [ω₀·ω₀], the theoretical curve has the gap [|ω₀|]: every
    frequency [verify_dispersion] returns is at least [|ω₀|], and the first
    one, which belongs to the wavenumber [0], equals [|ω₀|]. *)
Theorem verify_dispersion_gap
    (fft : list R → result (list C)) (self : Wave1D.VGTSimulation1D R)
    (k : list R) (phi_fft : list C) (omega_theory : list R) :
  Wave1D.verify_dispersion fft self = Ok (k, phi_fft, omega_theory) →
  length omega_theory = length k ∧
  (∀ j w, omega_theory !! j = Some w → Rabs (Wave1D.omega0 self) <= w) ∧
  ((1 ≤ Wave1D.Nx self)%Z →
   k !! 0%nat = Some 0 ∧ omega_theory !! 0%nat = Some (Rabs (Wave1D.omega0 self))).
Proof.
  unfold Wave1D.verify_dispersion. intros Hv.
  destruct (getitem _ _) as [phi_final|]; [simpl in Hv|done].
  destruct (fft phi_final) as [v|]; [simpl in Hv|done].
  destruct (Wave1D.wavenumbers self) as [k'|] eqn:Hk; [simpl in Hv|done].
  injection Hv as <- <- <-. split; [by rewrite length_fmap|]. split.
  - intros j w. rewrite list_lookup_fmap. destruct (k' !! j); [|done].
    simpl. intros [= <-]. apply theory_at_least_omega0.
  - intros HNx. unfold Wave1D.wavenumbers in Hk.
    destruct (fftfreq _ _) as [f|] eqn:Hf; [simpl in Hk|done]. injection Hk as <-.
    unfold fftfreq in Hf. destruct (pydiv _ _) as [val|]; [simpl in Hf|done].
    injection Hf as <-.
    assert (0 < (Wave1D.Nx self - 1) `div` 2 + 1)%Z as HN.
    { assert (0 ≤ (Wave1D.Nx self - 1) `div` 2)%Z by (apply Z.div_pos; lia). lia. }
    match goal with |- ?l !! 0%nat = _ ∧ _ => assert (l !! 0%nat = Some 0) as Hk0 end.
    { rewrite !list_lookup_fmap, lookup_app_l by (rewrite length_seqZ; lia).
      rewrite lookup_seqZ_lt by lia. simpl. change (0 + Z.of_nat 0)%Z with 0%Z.
      by rewrite !Rmult_0_l. }
    split; [done|]. rewrite list_lookup_fmap, Hk0.
    exact (f_equal Some (theory_at_zero _ _)).
Qed.
End DispersionGap.

(** ** The decay panel on an empty series *)

Section EmptySeries.
Import Dispersion.
Context {F : Type} `{!Scalar F, !NumPy F}.

End EmptySeries.
(** ** The callers *)

Section Callers.
Context {F : Type} `{!Scalar F, !NumPy F, !FloatPow F}.



(** X19. What [demo_interference] of the complete demo draws, when the two
    sources, the default pulse and the powers of the recurrence are defined.
    The first panel shows the sum of the two sources at time [0]; the three
    other panels show the fields after 30, 80 and 120 steps of the run that
    starts from the default centred Gaussian pulse (history indices 4, 9 and
    -1 of 14), titled [30·dt], [80·dt] and [120·dt]: the two-source field is
    stored in front of the history, it is not what the run evolves. *)
Theorem demo_interference_panels :
  fis0 (of_int 1 : F) = false →
  ∃ sim,
    Wave2D.init (of_int 30) (of_int 30) 200 200 (of_int 1) (decimal 15 1)
      (decimal 5 1) = Ok sim ∧
    ∀ sources phi0 p,
      CompleteDemo.two_sources sim = Ok sources →
      Wave2D.initial_field sim "gaussian" = Ok phi0 →
      Wave2D.powers sim = Ok p →
      ∃ f30 p30 f80 p80 f120 p120,
        Wave2D.fields_after sim "gaussian" 30 = Ok (f30, p30) ∧
        Wave2D.fields_after sim "gaussian" 80 = Ok (f80, p80) ∧
        Wave2D.fields_after sim "gaussian" 120 = Ok (f120, p120) ∧
        CompleteDemo.demo_interference =
          Ok [ {| CompleteDemo.field := sources;
                  CompleteDemo.time := of_int 0 |};
               {| CompleteDemo.field := f30;
                  CompleteDemo.time := of_int 30 ⊗ Wave2D.dt sim |};
               {| CompleteDemo.field := f80;
                  CompleteDemo.time := of_int 80 ⊗ Wave2D.dt sim |};
               {| CompleteDemo.field := f120;
                  CompleteDemo.time := of_int 120 ⊗ Wave2D.dt sim |} ].
Proof.
  intros H1.
  destruct (init2d_total (F:=F) (of_int 30) (of_int 30) 200 200 (of_int 1)
              (decimal 15 1) (decimal 5 1)) as [sim Hinit]; [lia | lia | done |].
  destruct (init2d_grid_ok _ _ 200 200 _ _ _ _ ltac:(lia) ltac:(lia) Hinit)
    as (Hg & Hph0 & Htp0 & Hen0).
  exists sim. split; [done|]. intros sources phi0 p Hsrc Hphi0 Hp.
  destruct (simulate2d_records sim 120 10 "gaussian" phi0 p ltac:(lia) Hg Hphi0 Hp) as
    (plain & snaps & e0 & ens & Hrun & _ & _ & Hph & Htp & _ & Hls & _).
  destruct (simulate2d_fields sim 120 10 "gaussian" phi0 p ltac:(lia) Hg Hphi0 Hp) as
    (plain' & phis & ens' & Hrun' & Hph' & _ & Hsn & _).
  rewrite Hrun in Hrun'. injection Hrun' as <-.
  rewrite Hph0 in Hph, Hph'. rewrite Htp0 in Htp. simpl in Hph, Hph', Htp.
  change (120 `div` Z.abs 10) with 12 in *.
  assert (length phis = 13%nat) as Hlp.
  { rewrite <- Hph', Hph. simpl. by rewrite Hls. }
  assert (∀ k : nat, (k ≤ 12)%nat →
            ∃ f p, phis !! k = Some f ∧
                   Wave2D.fields_after sim "gaussian" (k * 10) = Ok (f, p)) as Hat.
  { intros k Hk.
    assert ((0 :: ((λ k, k * Z.abs 10) <$> seqZ 1 12)) !! k = Some (Z.of_nat k * 10))
      as Hstep.
    { do 13 (destruct k as [|k]; [reflexivity|]). lia. }
    destruct (Forall2_lookup_r _ _ _ _ _ Hsn Hstep) as (f & Hf & q & Hfp).
    exists f, q. split; [done|].
    by replace (k * 10)%nat with (Z.to_nat (Z.of_nat k * 10)) by lia. }
  destruct (Hat 3%nat ltac:(lia)) as (f30 & p30 & Hl3 & Hf30).
  destruct (Hat 8%nat ltac:(lia)) as (f80 & p80 & Hl8 & Hf80).
  destruct (Hat 12%nat ltac:(lia)) as (f120 & p120 & Hl12 & Hf120).
  exists f30, p30, f80, p80, f120, p120. split_and!; try done.
  unfold CompleteDemo.demo_interference. rewrite Hinit. cbn [mbind result_bind].
  rewrite Hsrc. cbn [mbind result_bind].
  rewrite seeded_is_prepend by done. rewrite simulate2d_prepend, Hrun. simpl.
  rewrite Hph', Htp, Hlp.
  change (Z.of_nat 14 `div` 3) with 4. change ((2 * Z.of_nat 14) `div` 3) with 9.
  rewrite (getitem_pos (_ :: phis) 4 f30) by done.
  rewrite (getitem_pos (_ :: phis) 9 f80) by done.
  rewrite (getitem_neg (_ :: phis) (-1) f120).
  - reflexivity.
  - simpl. rewrite Hlp. lia.
  - simpl. by rewrite Hlp.
Qed.
End Callers.
(** ** The further properties at concrete inputs *)

Section MoreWitnesses.
#[local] Open Scope R_scope.
#[local] Existing Instance exact_pow2.









Lemma simulate_time_points_witness :
  (∃ r, Wave1D.simulate three_point_grid 300 10 = Ok r ∧
     Wave1D.time_points r =
       Wave1D.time_points three_point_grid ++
         of_int 0 :: ((λ k, of_int (k * Z.abs 10) ⊗ Wave1D.dt three_point_grid)
                        <$> seqZ 1 (300 `div` Z.abs 10))) ∧
  (∃ r, Wave2D.simulate three_by_three_grid 150 5 "ring" = Ok r ∧
     Wave2D.time_points r =
       Wave2D.time_points three_by_three_grid ++
         of_int 0 :: ((λ k, of_int (k * Z.abs 5) ⊗ Wave2D.dt three_by_three_grid)
                        <$> seqZ 1 (150 `div` Z.abs 5))).
Proof.
  split.
  - apply (proj1 (simulate_time_points (F:=R)) three_point_grid 300%Z 10%Z);
      [exact three_point_grid_ok | lia | right; by eexists].
  - eapply (proj2 (simulate_time_points (F:=R)) three_by_three_grid 150%Z 5%Z "ring");
      [exact three_by_three_grid_ok | lia | reflexivity | reflexivity].
Defined.



Lemma simulate1d_snapshots_are_steps_witness :
  ∃ r, Wave1D.simulate three_point_grid 300 10 = Ok r ∧
    (∀ k : nat, (k ≤ Z.to_nat (300 `div` Z.abs 10))%nat →
       ∃ snap prev,
         Wave1D.phi_history r
           !! (length (Wave1D.phi_history three_point_grid) + k)%nat = Some snap ∧
         Wave1D.fields_after three_point_grid (k * Z.to_nat (Z.abs 10))
           = Ok (snap, prev)) ∧
    (∀ n : nat, (n ≤ Z.to_nat 300)%nat →
       ∃ phi prev m,
         Wave1D.fields_after three_point_grid n = Ok (phi, prev) ∧
         np_max (fabs <$> phi) = Ok m ∧
         Wave1D.max_amplitude r
           !! (length (Wave1D.max_amplitude three_point_grid) + n)%nat = Some m).
Proof.
  apply (simulate1d_snapshots_are_steps three_point_grid 300%Z 10%Z);
    [exact three_point_grid_ok | lia | right; by eexists].
Defined.

Lemma simulate2d_snapshots_are_steps_witness :
  ∃ r, Wave2D.simulate three_by_three_grid 150 5 "ring" = Ok r ∧
    ∀ k : nat, (k ≤ Z.to_nat (150 `div` Z.abs 5))%nat →
      ∃ snap prev e,
        Wave2D.fields_after three_by_three_grid "ring" (k * Z.to_nat (Z.abs 5))
          = Ok (snap, prev) ∧
        Wave2D.phi_history r
          !! (length (Wave2D.phi_history three_by_three_grid) + k)%nat = Some snap ∧
        Wave2D.compute_energy three_by_three_grid snap prev = Ok e ∧
        Wave2D.energy_history r
          !! (length (Wave2D.energy_history three_by_three_grid) + k)%nat = Some e.
Proof.
  eapply (simulate2d_snapshots_are_steps three_by_three_grid 150%Z 5%Z "ring");
    [exact three_by_three_grid_ok | lia | reflexivity | reflexivity].
Defined.



(** The step worked out on the ramp, with [dx = dy = 1], [dt = 1/2], [c = 1]
    and [ω₀ = 2]: the Laplacian at the centre is
    [(8 − 10 + 3) + (9 − 10 + 2) = 2], and the step from the zero field
    before takes the centre from [5] to [10 − 0 + (1/4)·(2 − 20) = 11/2]. *)
Example advance_ramp :
  Wave2D.laplacian_2d three_by_three_grid ramp
    = Ok [[0; 0; 0]; [0; 2; 0]; [0; 0; 0]] ∧
  Wave2D.advance three_by_three_grid ramp flat
    = Ok [[0; 0; 0]; [0; 11 / 2; 0]; [0; 0; 0]].
Proof.
  split.
  - unfold Wave2D.laplacian_2d, three_by_three_grid, ramp. simpl.
    unfold set_interior, slice. simpl.
    repeat (apply f_equal || f_equal); lra.
  - unfold Wave2D.advance, Wave2D.laplacian_2d, three_by_three_grid, ramp, flat.
    simpl. unfold set_interior, slice. simpl.
    unfold set_row, set_col, py_index. simpl.
    repeat (apply f_equal || f_equal); lra.
Qed.

Lemma simulate_without_interior_witness :
  (∃ r snaps,
     Wave1D.simulate two_point_grid 300 10 = Ok r ∧
     Wave1D.phi_history r =
       Wave1D.phi_history two_point_grid
         ++ Wave1D.gaussian_pulse two_point_grid None (of_int 1) :: snaps ∧
     length snaps = Z.to_nat (300 `div` Z.abs 10) ∧
     Forall (λ snap, snap = replicate (Z.to_nat (Wave1D.Nx two_point_grid)) (of_int 0))
       snaps) ∧
  (∃ phi0,
     Wave2D.initial_field two_by_two_grid "gaussian" = Ok phi0 ∧
     ∃ r snaps,
       Wave2D.simulate two_by_two_grid 150 5 "gaussian" = Ok r ∧
       Wave2D.phi_history r = Wave2D.phi_history two_by_two_grid ++ phi0 :: snaps ∧
       length snaps = Z.to_nat (150 `div` Z.abs 5) ∧
       Forall (λ snap, snap = replicate (Z.to_nat (Wave2D.Ny two_by_two_grid))
                                (replicate (Z.to_nat (Wave2D.Nx two_by_two_grid))
                                   (of_int 0)))
         snaps) ∧
  Wave2D.simulate three_by_one_grid 150 5 "gaussian" =
    Raise (ValueError "Shape of array too small to calculate a numerical gradient, at least (edge_order + 1) elements are required.").
Proof.
  destruct (simulate_without_interior (F:=R)) as (H1 & H2 & H3).
  split_and!.
  - apply (H1 two_point_grid 300%Z 10%Z); [exact two_point_grid_ok | simpl; lia | lia].
  - eexists. split; [reflexivity|].
    eapply (H2 two_by_two_grid 150%Z 5%Z "gaussian");
      [exact two_by_two_grid_ok | left; reflexivity | lia | reflexivity | reflexivity].
  - eapply (H3 three_by_one_grid 150%Z 5%Z "gaussian");
      [simpl; lia | simpl; lia | right; reflexivity
      | split; [reflexivity | repeat constructor]
      | split; [reflexivity | repeat constructor]
      | reflexivity].
Defined.



Lemma verify_dispersion_last_snapshot_witness :
  ∃ r snap prev k,
    Wave1D.simulate three_point_grid 25 10 = Ok r ∧
    Wave1D.fields_after three_point_grid
      (Z.to_nat (25 `div` Z.abs 10) * Z.to_nat (Z.abs 10)) = Ok (snap, prev) ∧
    Wave1D.wavenumbers three_point_grid = Ok k ∧
    length k = Z.to_nat (Wave1D.Nx three_point_grid) ∧
    ∀ phi_fft, samples_as_spectrum snap = Ok phi_fft →
      Wave1D.verify_dispersion samples_as_spectrum r =
        Ok (k, phi_fft, (λ kv, fsqrt (1 * 1 * (kv * kv) + 2 * 2)) <$> k).
Proof.
  apply (proj2 (verify_dispersion_last_snapshot (F:=R) (Scalar0 := R_scalar)
                  (NumPy0 := R_numpy) (FloatPow0 := exact_pow2) samples_as_spectrum)
           three_point_grid 25%Z 10%Z (1 * 1) (2 * 2));
    [exact three_point_grid_ok | lia | right; by eexists
    | apply R_fis0_false; simpl; lra | reflexivity | reflexivity].
Defined.

Lemma verify_1d_dispersion_half_spectrum_witness :
  Dispersion.verify_1d_dispersion Rabs samples_as_spectrum
    [1; 2; 3; 4] 0 1 2 = Raise ZeroDivisionError ∧
  ∃ k_pos phi_fft_pos omega_theory,
    Dispersion.verify_1d_dispersion Rabs samples_as_spectrum
      [1; 2; 3; 4] (1 / 2) 1 2
      = Ok (k_pos, phi_fft_pos, omega_theory) ∧
    length k_pos = Nat.div (length [1; 2; 3; 4]) 2 ∧
    length phi_fft_pos = Nat.div (length [1; 2; 3; 4]) 2 ∧
    length omega_theory = Nat.div (length [1; 2; 3; 4]) 2 ∧
    ∀ j, (j < Nat.div (length [1; 2; 3; 4]) 2)%nat →
      ∃ k_j,
        k_j = of_int (Z.of_nat j)
                ⊗ (of_int 1
                   ⊘ (of_int (Z.of_nat (length [1; 2; 3; 4])) ⊗ (1 / 2)))
                ⊗ of_int 2 ⊗ np_pi ∧
        k_pos !! j = Some k_j ∧
        phi_fft_pos !! j = Rabs <$> [1; 2; 3; 4] !! j ∧
        omega_theory !! j = Some (fsqrt (1 * 1 * (k_j * k_j) + 2 * 2)).
Proof.
  split.
  - apply (proj1 (verify_1d_dispersion_half_spectrum (F:=R) (Scalar0 := R_scalar)
                    (NumPy0 := R_numpy) (FloatPow0 := exact_pow2) Rabs samples_as_spectrum
                    [1; 2; 3; 4] 0 1 2 [1; 2; 3; 4]
                    eq_refl eq_refl)).
    apply R_fis0_true. change (Z.of_nat _) with 4%Z. simpl. lra.
  - apply (proj2 (verify_1d_dispersion_half_spectrum (F:=R) (Scalar0 := R_scalar)
                    (NumPy0 := R_numpy) (FloatPow0 := exact_pow2) Rabs samples_as_spectrum
                    [1; 2; 3; 4] (1 / 2) 1 2 [1; 2; 3; 4]
                    eq_refl eq_refl));
      [|reflexivity | reflexivity].
    apply R_fis0_false. change (Z.of_nat _) with 4%Z. simpl. lra.
Defined.

Lemma analyze_2d_spectrum_centred_witness :
  ∃ KX KY magnitude omega_theory,
    Dispersion.analyze_2d_spectrum Rabs samples_as_spectrum
      [[1; 2]; [3; 4]] 10 10 1 2
      = Ok (KX, KY, magnitude, omega_theory) ∧
    magnitude
      = fmap (M:=list) (fmap (M:=list) Rabs) (fftshift2 [[1; 2]; [3; 4]]) ∧
    has_shape 2 2 KX ∧ has_shape 2 2 KY ∧ has_shape 2 2 omega_theory ∧
    ∀ i j, (i < 2)%nat → (j < 2)%nat →
      ∃ kx ky,
        kx = of_int (Z.of_nat j - Z.of_nat 2 `div` 2)
               ⊗ (of_int 1 ⊘ (of_int (Z.of_nat 2) ⊗ 10)) ⊗ of_int 2 ⊗ np_pi ∧
        ky = of_int (Z.of_nat i - Z.of_nat 2 `div` 2)
               ⊗ (of_int 1 ⊘ (of_int (Z.of_nat 2) ⊗ 10)) ⊗ of_int 2 ⊗ np_pi ∧
        cell KX i j = Some kx ∧ cell KY i j = Some ky ∧
        cell omega_theory i j
          = Some (fsqrt (1 * 1 * (fsqrt (kx * kx + ky * ky)
                                  * fsqrt (kx * kx + ky * ky)) + 2 * 2)).
Proof.
  apply (analyze_2d_spectrum_centred (F:=R) (Scalar0 := R_scalar)
           (NumPy0 := R_numpy) (FloatPow0 := exact_pow2) Rabs samples_as_spectrum
           [[1; 2]; [3; 4]] 10 10 1 2 (1 * 1) (2 * 2) 2 2 [[1; 2]; [3; 4]]).
  - split; [reflexivity | repeat constructor].
  - lia.
  - lia.
  - reflexivity.
  - apply R_fis0_false. change (Z.of_nat 2) with 2%Z. simpl. lra.
  - apply R_fis0_false. change (Z.of_nat 2) with 2%Z. simpl. lra.
  - reflexivity.
  - reflexivity.
Defined.

Lemma verify_dispersion_gap_witness :
  ∃ k phi_fft omega_theory,
    Wave1D.verify_dispersion samples_as_spectrum three_point_grid
      = Ok (k, phi_fft, omega_theory) ∧
    length omega_theory = length k ∧
    (∀ j w, omega_theory !! j = Some w →
       Rabs (Wave1D.omega0 three_point_grid) <= w) ∧
    ((1 ≤ Wave1D.Nx three_point_grid)%Z →
     k !! 0%nat = Some 0 ∧
     omega_theory !! 0%nat = Some (Rabs (Wave1D.omega0 three_point_grid))).
Proof.
  assert (∃ k phi_fft omega_theory,
            Wave1D.verify_dispersion samples_as_spectrum three_point_grid
              = Ok (k, phi_fft, omega_theory)) as (k & phi_fft & om & Hv).
  { unfold Wave1D.verify_dispersion, Wave1D.wavenumbers, fftfreq, pydiv.
    rewrite R_fis0_false by (simpl; lra). by eexists _, _, _. }
  exists k, phi_fft, om. split; [exact Hv|].
  exact (verify_dispersion_gap samples_as_spectrum three_point_grid k phi_fft om Hv).
Defined.



Lemma demo_interference_panels_witness :
  ∃ sim,
    Wave2D.init (F:=R) (of_int 30) (of_int 30) 200 200 (of_int 1) (decimal 15 1)
      (decimal 5 1) = Ok sim ∧
    ∀ sources phi0 p,
      CompleteDemo.two_sources sim = Ok sources →
      Wave2D.initial_field sim "gaussian" = Ok phi0 →
      Wave2D.powers sim = Ok p →
      ∃ f30 p30 f80 p80 f120 p120,
        Wave2D.fields_after sim "gaussian" 30 = Ok (f30, p30) ∧
        Wave2D.fields_after sim "gaussian" 80 = Ok (f80, p80) ∧
        Wave2D.fields_after sim "gaussian" 120 = Ok (f120, p120) ∧
        CompleteDemo.demo_interference =
          Ok [ {| CompleteDemo.field := sources;
                  CompleteDemo.time := of_int 0 |};
               {| CompleteDemo.field := f30;
                  CompleteDemo.time := of_int 30 ⊗ Wave2D.dt sim |};
               {| CompleteDemo.field := f80;
                  CompleteDemo.time := of_int 80 ⊗ Wave2D.dt sim |};
               {| CompleteDemo.field := f120;
                  CompleteDemo.time := of_int 120 ⊗ Wave2D.dt sim |} ].
Proof.
  apply (demo_interference_panels (F:=R)). apply R_fis0_false. simpl. lra.
Defined.

Lemma init_courant_number_witness :
  (∃ self,
     Wave1D.init 10 400 1 2 (9 / 10) (1 / 10) = Ok self ∧
     0 < Wave1D.dx self ∧
     1 * Wave1D.dt self / Wave1D.dx self = 9 / 10) ∧
  (∃ self,
     Wave2D.init 20 30 200 200 1 2 (1 / 2) = Ok self ∧
     0 < Wave2D.dx self ∧ 0 < Wave2D.dy self ∧
     Wave2D.dt self
       = 1 / 2 * Rmin (Wave2D.dx self) (Wave2D.dy self) / 1 ∧
     1 * Wave2D.dt self / Wave2D.dx self <= 1 / 2 ∧
     1 * Wave2D.dt self / Wave2D.dy self <= 1 / 2 ∧
     (1 * Wave2D.dt self / Wave2D.dx self = 1 / 2
      ∨ 1 * Wave2D.dt self / Wave2D.dy self = 1 / 2)).
Proof.
  split.
  - apply (proj1 init_courant_number 10 400%Z 1 2 (9 / 10) (1 / 10));
      [lra | lia | lra].
  - apply (proj2 init_courant_number 20 30 200%Z 200%Z 1 2 (1 / 2));
      [lra | lra | lia | lia | lra | lra].
Defined.

Lemma advance2d_linear_witness :
  ∃ next1 next2,
    Wave2D.advance three_by_three_grid ramp flat = Ok next1 ∧
    Wave2D.advance three_by_three_grid centre_bump ramp = Ok next2 ∧
    Wave2D.advance three_by_three_grid
      (arr_zip fadd (arr_map (λ x, 2 ⊗ x) ramp) (arr_map (λ x, 3 ⊗ x) centre_bump))
      (arr_zip fadd (arr_map (λ x, 2 ⊗ x) flat) (arr_map (λ x, 3 ⊗ x) ramp))
    = Ok (arr_zip fadd (arr_map (λ x, 2 ⊗ x) next1)
                       (arr_map (λ x, 3 ⊗ x) next2)).
Proof.
  apply (advance2d_linear three_by_three_grid 3 3 2 3);
    [lia | lia | exact ramp_shape | exact flat_shape
    | exact centre_bump_shape | exact ramp_shape | simpl; lra | simpl; lra].
Defined.

End MoreWitnesses.
